(** * gpt-load: the streaming response core

    A shallow embedding of the intelligent streaming subsystem of the
    proxy (packages [streaming], [proxy] and [channel]) and the proofs of
    its specified properties.

    Conventions of the embedding:
    - a Go [string] is a sequence of bytes: Rocq's [string];
    - a Go [int] is a [Z] (no operation of this code can overflow: the only
      arithmetic is a counter bounded by [maxRetries]);
    - a decoded JSON value ([interface{}]) is the inductive [json], a JSON
      object ([map[string]interface{}]) is a [gmap string json];
    - pointer arguments ([*string], [*int]) and the [http.ResponseWriter]
      become explicit state passing;
    - [encoding/json] is taken as a parameter of the development (section
      variables [Unmarshal] and [Marshal]); a small executable codec
      ([Codec.Unmarshal], [Codec.Marshal]) instantiates it on examples. *)

From Stdlib Require Import ZArith Ascii String List Bool Lia.
From stdpp Require Import gmap strings list fin_maps.

Set Warnings "-register-all".
Local Open Scope Z_scope.

(** ** Characters that cannot be written inside a string literal *)

Definition dquote : ascii := "034"%char.
Definition squote : ascii := "039"%char.
Definition backslash : ascii := "092"%char.
Definition LF : ascii := "010"%char.

(** The byte value of a character, as Go's [s[i]]. *)
Definition byte (c : ascii) : Z := Z.of_N (N_of_ascii c).

Definition len (s : string) : Z := Z.of_nat (String.length s).

(** [s[n:]] and [s[:n]] on byte offsets. *)
Fixpoint sdrop (n : nat) (s : string) : string :=
  match n, s with
  | O, _ => s
  | S _, EmptyString => EmptyString
  | S n', String _ t => sdrop n' t
  end.

Fixpoint stake (n : nat) (s : string) : string :=
  match n, s with
  | O, _ => EmptyString
  | S _, EmptyString => EmptyString
  | S n', String c t => String c (stake n' t)
  end.

(** ** Package [unicode/utf8] *)
Module Utf8.

Definition RuneError : Z := 0xFFFD.
Definition RuneSelf : Z := 0x80.
Definition UTFMax : Z := 4.

(** One entry of the table [first]: ASCII, invalid, or a lead byte with
    the size of its sequence and the range accepted for the second byte
    ([acceptRanges]). *)
Inductive entry := AS | XX | Lead (sz : Z) (lo hi : Z).

Definition first (b : Z) : entry :=
  if b <? 0x80 then AS
  else if b <? 0xC2 then XX
  else if b <? 0xE0 then Lead 2 0x80 0xBF
  else if b =? 0xE0 then Lead 3 0xA0 0xBF
  else if b <? 0xED then Lead 3 0x80 0xBF
  else if b =? 0xED then Lead 3 0x80 0x9F
  else if b <? 0xF0 then Lead 3 0x80 0xBF
  else if b =? 0xF0 then Lead 4 0x90 0xBF
  else if b <? 0xF4 then Lead 4 0x80 0xBF
  else if b =? 0xF4 then Lead 4 0x80 0x8F
  else XX.

Definition locb : Z := 0x80.
Definition hicb : Z := 0xBF.
Definition maskx : Z := 0x3F.
Definition mask2 : Z := 0x1F.
Definition mask3 : Z := 0x0F.
Definition mask4 : Z := 0x07.

(** [utf8.DecodeRuneInString]: the first rune of [s] and its width in
    bytes; [(RuneError, 1)] on an invalid encoding, [(RuneError, 0)] on
    the empty string. *)
Definition DecodeRuneInString (s : string) : Z * Z :=
  match s with
  | EmptyString => (RuneError, 0)
  | String c0 t0 =>
    let s0 := byte c0 in
    match first s0 with
    | AS => (s0, 1)
    | XX => (RuneError, 1)
    | Lead sz lo hi =>
      if len s <? sz then (RuneError, 1) else
      match t0 with
      | EmptyString => (RuneError, 1)
      | String c1 t1 =>
        let s1 := byte c1 in
        if (s1 <? lo) || (hi <? s1) then (RuneError, 1) else
        if sz <=? 2 then
          (Z.lor (Z.shiftl (Z.land s0 mask2) 6) (Z.land s1 maskx), 2)
        else
        match t1 with
        | EmptyString => (RuneError, 1)
        | String c2 t2 =>
          let s2 := byte c2 in
          if (s2 <? locb) || (hicb <? s2) then (RuneError, 1) else
          if sz <=? 3 then
            (Z.lor (Z.lor (Z.shiftl (Z.land s0 mask3) 12)
                          (Z.shiftl (Z.land s1 maskx) 6))
                   (Z.land s2 maskx), 3)
          else
          match t2 with
          | EmptyString => (RuneError, 1)
          | String c3 _ =>
            let s3 := byte c3 in
            if (s3 <? locb) || (hicb <? s3) then (RuneError, 1) else
            (Z.lor (Z.lor (Z.lor (Z.shiftl (Z.land s0 mask4) 18)
                                 (Z.shiftl (Z.land s1 maskx) 12))
                          (Z.shiftl (Z.land s2 maskx) 6))
                   (Z.land s3 maskx), 4)
          end
        end
      end
    end
  end.

(** [utf8.RuneStart]: [b] is not a continuation byte. *)
Definition RuneStart (b : Z) : bool := negb (Z.land b 0xC0 =? 0x80).

Definition byte_at (s : string) (i : Z) : Z :=
  match String.get (Z.to_nat i) s with
  | Some c => byte c
  | None => 0
  end.

(** The backward scan of [DecodeLastRuneInString]:
    [for start--; start >= lim; start-- { if RuneStart(s[start]) { break } }],
    entered after the first [start--]. *)
Fixpoint back_scan (fuel : nat) (s : string) (start lim : Z) : Z :=
  match fuel with
  | O => start
  | S fuel' =>
    if start <? lim then start
    else if RuneStart (byte_at s start) then start
    else back_scan fuel' s (start - 1) lim
  end.

(** [utf8.DecodeLastRuneInString]. *)
Definition DecodeLastRuneInString (s : string) : Z * Z :=
  let end_ := len s in
  if end_ =? 0 then (RuneError, 0) else
  let start := end_ - 1 in
  let r := byte_at s start in
  if r <? RuneSelf then (r, 1) else
  let lim := Z.max 0 (end_ - UTFMax) in
  let start := back_scan 4 s (start - 1) lim in
  let start := if start <? 0 then 0 else start in
  let '(r, size) := DecodeRuneInString (sdrop (Z.to_nat start) s) in
  if negb (start + size =? end_) then (RuneError, 1) else (r, size).

(** [[]rune(s)]: the runes of [s], front to back. *)
Fixpoint runes_go (fuel : nat) (s : string) : list Z :=
  match fuel with
  | O => []
  | S fuel' =>
    match s with
    | EmptyString => []
    | _ => let '(r, size) := DecodeRuneInString s in
           r :: runes_go fuel' (sdrop (Z.to_nat size) s)
    end
  end.

Definition runes (s : string) : list Z := runes_go (String.length s) s.

End Utf8.

(** ** Package [unicode] *)

(** [unicode.IsSpace]: the Latin-1 spaces and the code points of the
    property White_Space. *)
Definition IsSpace (r : Z) : bool :=
  if r <=? 0xFF then
    (r =? 0x09) || (r =? 0x0A) || (r =? 0x0B) || (r =? 0x0C) || (r =? 0x0D)
    || (r =? 0x20) || (r =? 0x85) || (r =? 0xA0)
  else
    (r =? 0x1680) || ((0x2000 <=? r) && (r <=? 0x200A))
    || (r =? 0x2028) || (r =? 0x2029) || (r =? 0x202F)
    || (r =? 0x205F) || (r =? 0x3000).

(** ** Package [strings] *)
Module Strings.

Fixpoint HasPrefix (s prefix : string) {struct prefix} : bool :=
  match prefix, s with
  | EmptyString, _ => true
  | String a p', String b s' => Ascii.eqb a b && HasPrefix s' p'
  | String _ _, EmptyString => false
  end.

Definition TrimPrefix (s prefix : string) : string :=
  if HasPrefix s prefix then sdrop (String.length prefix) s else s.

Definition HasSuffix (s suffix : string) : bool :=
  (String.length suffix <=? String.length s)%nat
  && String.eqb (sdrop (String.length s - String.length suffix) s) suffix.

Definition TrimSuffix (s suffix : string) : string :=
  if HasSuffix s suffix
  then stake (String.length s - String.length suffix) s
  else s.

(** [strings.Contains]: [substr] occurs in [s]. *)
Fixpoint Contains (s substr : string) : bool :=
  HasPrefix s substr ||
  match s with
  | EmptyString => false
  | String _ s' => Contains s' substr
  end.

(** [strings.TrimLeftFunc(s, f)]: drop leading runes while [f] holds. *)
Fixpoint TrimLeftFunc_go (fuel : nat) (f : Z -> bool) (s : string) : string :=
  match fuel with
  | O => s
  | S fuel' =>
    match s with
    | EmptyString => s
    | _ => let '(r, size) := Utf8.DecodeRuneInString s in
           if f r then TrimLeftFunc_go fuel' f (sdrop (Z.to_nat size) s)
           else s
    end
  end.

Definition TrimLeftFunc (s : string) (f : Z -> bool) : string :=
  TrimLeftFunc_go (String.length s) f s.

(** [strings.TrimRightFunc(s, f)]: drop trailing runes, found with
    [DecodeLastRuneInString], while [f] holds. *)
Fixpoint TrimRightFunc_go (fuel : nat) (f : Z -> bool) (s : string) : string :=
  match fuel with
  | O => s
  | S fuel' =>
    match s with
    | EmptyString => s
    | _ => let '(r, size) := Utf8.DecodeLastRuneInString s in
           if f r
           then TrimRightFunc_go fuel' f
                  (stake (String.length s - Z.to_nat size) s)
           else s
    end
  end.

Definition TrimRightFunc (s : string) (f : Z -> bool) : string :=
  TrimRightFunc_go (String.length s) f s.

(** [strings.TrimSpace]: leading and trailing white space removed. *)
Definition TrimSpace (s : string) : string :=
  TrimRightFunc (TrimLeftFunc s IsSpace) IsSpace.

(** [strings.ContainsRune(s, r)] for a valid UTF-8 [s]: [r] is one of
    its runes. *)
Definition ContainsRune (s : string) (r : Z) : bool :=
  existsb (Z.eqb r) (Utf8.runes s).

End Strings.

(** [fmt.Sprintf("%d", n)]. *)
Fixpoint digits_go (fuel : nat) (n : Z) (acc : string) : string :=
  match fuel with
  | O => acc
  | S fuel' =>
    let acc' := String (ascii_of_N (Z.to_N (48 + n mod 10))) acc in
    if n <? 10 then acc' else digits_go fuel' (n / 10) acc'
  end.

Definition itoa (n : Z) : string :=
  if n <? 0 then String "-" (digits_go (S (Z.to_nat (Z.log2 (- n)))) (- n) "")
  else digits_go (S (Z.to_nat (Z.log2 n))) n "".

(** ** Decoded JSON values ([interface{}] after [json.Unmarshal])

    A number is kept as an integer: no operation of this code looks into a
    number, and the only one it creates is the status code 504. *)

Inductive json :=
| JNull
| JBool (b : bool)
| JNum (n : Z)
| JStr (s : string)
| JArr (l : list json)
| JObj (m : gmap string json).

(** Type assertions on the result of a map lookup: [v, ok := m[k].(T)]. *)
Definition as_object (v : option json) : option (gmap string json) :=
  match v with Some (JObj m) => Some m | _ => None end.

Definition as_array (v : option json) : option (list json) :=
  match v with Some (JArr l) => Some l | _ => None end.

Definition as_string (v : option json) : option string :=
  match v with Some (JStr s) => Some s | _ => None end.

(** ** An executable JSON codec for the examples

    [Codec.Unmarshal] and [Codec.Marshal] agree with [encoding/json] (target
    [map[string]interface{}]) on the fragment the examples use: objects,
    arrays, [true], [false], [null], integers of magnitude at most 2^53
    (exact as [float64]) and strings of printable ASCII, line feeds, tabs
    and valid UTF-8 other than U+2028 and U+2029, with the two-character
    escapes. The decoder rejects what is outside the fragment (fractions,
    exponents, [\u] escapes); no example uses it. *)
Module Codec.

Definition is_ws (c : ascii) : bool :=
  let b := byte c in (b =? 0x20) || (b =? 0x09) || (b =? 0x0A) || (b =? 0x0D).

Fixpoint skip_ws (s : string) : string :=
  match s with
  | String c t => if is_ws c then skip_ws t else s
  | EmptyString => s
  end.

Definition is_digit (c : ascii) : bool :=
  let b := byte c in (48 <=? b) && (b <=? 57).

(** The body of a string literal, after its opening quote. *)
Fixpoint parse_string (s : string) : option (string * string) :=
  match s with
  | EmptyString => None
  | String c t =>
    if Ascii.eqb c dquote then Some (EmptyString, t)
    else if Ascii.eqb c backslash then
      match t with
      | String e t' =>
        let unescaped :=
          if Ascii.eqb e dquote then Some dquote
          else if Ascii.eqb e backslash then Some backslash
          else if Ascii.eqb e "/" then Some "/"%char
          else if Ascii.eqb e "b" then Some "008"%char
          else if Ascii.eqb e "f" then Some "012"%char
          else if Ascii.eqb e "n" then Some "010"%char
          else if Ascii.eqb e "r" then Some "013"%char
          else if Ascii.eqb e "t" then Some "009"%char
          else None in
        match unescaped with
        | Some u =>
          match parse_string t' with
          | Some (r, rest) => Some (String u r, rest)
          | None => None
          end
        | None => None
        end
      | EmptyString => None
      end
    else if byte c <? 0x20 then None
    else
      match parse_string t with
      | Some (r, rest) => Some (String c r, rest)
      | None => None
      end
  end.

Fixpoint parse_digits (acc : Z) (s : string) : Z * string :=
  match s with
  | String c t =>
    if is_digit c then parse_digits (10 * acc + (byte c - 48)) t else (acc, s)
  | EmptyString => (acc, s)
  end.

Definition number_end (rest : string) : bool :=
  match rest with
  | String c _ =>
    negb (Ascii.eqb c "." || Ascii.eqb c "e" || Ascii.eqb c "E" || is_digit c)
  | EmptyString => true
  end.

(** An integer literal: [0] or a non-zero digit followed by digits. *)
Definition parse_nat (s : string) : option (Z * string) :=
  match s with
  | String c t =>
    if Ascii.eqb c "0" then
      if number_end t then Some (0, t) else None
    else if is_digit c then
      let '(n, rest) := parse_digits 0 s in
      if number_end rest && (n <=? 2 ^ 53) then Some (n, rest) else None
    else None
  | EmptyString => None
  end.

Definition parse_number (s : string) : option (Z * string) :=
  match s with
  | String c t =>
    if Ascii.eqb c "-" then
      match parse_nat t with
      | Some (n, rest) => if n =? 0 then None else Some (- n, rest)
      | None => None
      end
    else parse_nat s
  | EmptyString => None
  end.

Definition expect (c : ascii) (s : string) : option string :=
  match s with
  | String c' t => if Ascii.eqb c c' then Some t else None
  | EmptyString => None
  end.

Fixpoint parse_value (fuel : nat) (s : string) : option (json * string) :=
  match fuel with
  | O => None
  | S fuel' =>
    let s := skip_ws s in
    if Strings.HasPrefix s "null" then Some (JNull, sdrop 4 s)
    else if Strings.HasPrefix s "true" then Some (JBool true, sdrop 4 s)
    else if Strings.HasPrefix s "false" then Some (JBool false, sdrop 5 s)
    else
      match s with
      | EmptyString => None
      | String c t =>
        if Ascii.eqb c dquote then
          match parse_string t with
          | Some (str, rest) => Some (JStr str, rest)
          | None => None
          end
        else if Ascii.eqb c "[" then
          match skip_ws t with
          | String "]" rest => Some (JArr [], rest)
          | _ =>
            match parse_elems fuel' t with
            | Some (l, rest) => Some (JArr l, rest)
            | None => None
            end
          end
        else if Ascii.eqb c "{" then
          match skip_ws t with
          | String "}" rest => Some (JObj ∅, rest)
          | _ =>
            match parse_members fuel' ∅ t with
            | Some (m, rest) => Some (JObj m, rest)
            | None => None
            end
          end
        else
          match parse_number s with
          | Some (n, rest) => Some (JNum n, rest)
          | None => None
          end
      end
  end
(** The elements of a non-empty array, up to and including its [']']. *)
with parse_elems (fuel : nat) (s : string) : option (list json * string) :=
  match fuel with
  | O => None
  | S fuel' =>
    match parse_value fuel' s with
    | Some (v, rest) =>
      match skip_ws rest with
      | String "," rest' =>
        match parse_elems fuel' rest' with
        | Some (l, rest'') => Some (v :: l, rest'')
        | None => None
        end
      | String "]" rest' => Some ([v], rest')
      | _ => None
      end
    | None => None
    end
  end
(** The members of a non-empty object, up to and including its ['}'];
    a repeated key keeps its last value. *)
with parse_members (fuel : nat) (acc : gmap string json) (s : string)
  : option (gmap string json * string) :=
  match fuel with
  | O => None
  | S fuel' =>
    match expect dquote (skip_ws s) with
    | Some t =>
      match parse_string t with
      | Some (k, rest) =>
        match expect ":" (skip_ws rest) with
        | Some rest1 =>
          match parse_value fuel' rest1 with
          | Some (v, rest2) =>
            match skip_ws rest2 with
            | String "," rest3 => parse_members fuel' (<[k := v]> acc) rest3
            | String "}" rest3 => Some (<[k := v]> acc, rest3)
            | _ => None
            end
          | None => None
          end
        | None => None
        end
      | None => None
      end
    | None => None
    end
  end.

(** [json.Unmarshal(data, &m)] with [m] a [map[string]interface{}]: only
    an object, or [null] (which leaves the map nil, read as empty),
    decodes without error. *)
Definition Unmarshal (data : string) : option (gmap string json) :=
  match parse_value (S (String.length data)) data with
  | Some (v, rest) =>
    match skip_ws rest, v with
    | EmptyString, JObj m => Some m
    | EmptyString, JNull => Some ∅
    | _, _ => None
    end
  | None => None
  end.

Definition hex_digit (n : Z) : ascii :=
  ascii_of_N (Z.to_N (if n <? 10 then 48 + n else 87 + n)).

Definition u00 (b : Z) : string :=
  String backslash
    (String "u" (String "0" (String "0"
       (String (hex_digit (b / 16)) (String (hex_digit (b mod 16)) ""))))).

(** String escaping of [json.Marshal] (HTML escaping on, the default). *)
Fixpoint escape (s : string) : string :=
  match s with
  | EmptyString => EmptyString
  | String c t =>
    let b := byte c in
    (if Ascii.eqb c dquote then String backslash (String dquote "")
     else if Ascii.eqb c backslash then String backslash (String backslash "")
     else if b =? 0x0A then String backslash "n"
     else if b =? 0x0D then String backslash "r"
     else if b =? 0x09 then String backslash "t"
     else if (b <? 0x20) || (b =? 0x3C) || (b =? 0x3E) || (b =? 0x26) then u00 b
     else String c "") +:+ escape t
  end.

Definition quote (s : string) : string :=
  String dquote (escape s +:+ String dquote "").

Fixpoint join (sep : string) (l : list string) : string :=
  match l with
  | [] => ""
  | [x] => x
  | x :: rest => x +:+ sep +:+ join sep rest
  end.

(** The members of an object are written in the increasing byte order of
    their keys: a key and its encoded member, kept sorted by the key. *)
Fixpoint insert_sorted (kv : string * string) (l : list (string * string))
  : list (string * string) :=
  match l with
  | [] => [kv]
  | kv' :: rest =>
    if String.leb (fst kv) (fst kv') then kv :: l
    else kv' :: insert_sorted kv rest
  end.

Fixpoint print (j : json) : string :=
  match j with
  | JNull => "null"
  | JBool true => "true"
  | JBool false => "false"
  | JNum n => itoa n
  | JStr s => quote s
  | JArr l => "[" +:+ join "," (List.map print l) +:+ "]"
  | JObj m =>
    let members :=
      map_fold (λ k v acc, insert_sorted (k, quote k +:+ ":" +:+ print v) acc)
               [] m in
    "{" +:+ join "," (List.map snd members) +:+ "}"
  end.

Definition Marshal (m : gmap string json) : option string :=
  Some (print (JObj m)).

End Codec.

(** Example JSON texts are written with ['] for the quote character. *)
Fixpoint jq (s : string) : string :=
  match s with
  | EmptyString => EmptyString
  | String c t => String (if Ascii.eqb c squote then dquote else c) (jq t)
  end.

(** ** The downstream writer ([http.ResponseWriter], [http.Flusher])

    The writer is the sequence of calls it has accepted, oldest first.
    What the client receives follows from the contract of [net/http]:
    the status line and the header map are committed by the first
    [WriteHeader], [Write] or [Flush]; a [Write] before any [WriteHeader]
    commits status 200; changes to the header map after the commit, and
    later [WriteHeader] calls, do not reach the client. *)
Module Http.

Inductive event :=
| EvSetHeader (key value : string)
| EvWriteHeader (code : Z)
| EvWrite (data : string)
| EvFlush.

Record ResponseWriter := mkWriter {
  events : list event;
  (** how many more [Write] calls succeed; [None]: all of them *)
  capacity : option nat;
  (** whether the writer implements [http.Flusher] *)
  flusher : bool
}.

Definition record (e : event) (w : ResponseWriter) : ResponseWriter :=
  mkWriter (events w ++ [e]) (capacity w) (flusher w).

(** [w.Header().Set(key, value)]; the keys used by this code are already
    in canonical form. *)
Definition header_set (key value : string) (w : ResponseWriter) : ResponseWriter :=
  record (EvSetHeader key value) w.

Definition write_header (code : Z) (w : ResponseWriter) : ResponseWriter :=
  record (EvWriteHeader code) w.

(** [w.Write(data)]: [None] is a write error, which leaves no trace. *)
Definition write (data : string) (w : ResponseWriter) : option ResponseWriter :=
  match capacity w with
  | None => Some (record (EvWrite data) w)
  | Some O => None
  | Some (S n) => Some (mkWriter (events w ++ [EvWrite data]) (Some n) (flusher w))
  end.

Definition flush (w : ResponseWriter) : ResponseWriter := record EvFlush w.

(** What the client has received. *)
Record response := mkResponse {
  header : gmap string string;
  committed : option (Z * gmap string string);
  body : list string
}.

Definition commit (code : Z) (r : response) : response :=
  match committed r with
  | Some _ => r
  | None => mkResponse (header r) (Some (code, header r)) (body r)
  end.

Definition observe (r : response) (e : event) : response :=
  match e with
  | EvSetHeader k v => mkResponse (<[k := v]> (header r)) (committed r) (body r)
  | EvWriteHeader code => commit code r
  | EvWrite data =>
    let r' := commit 200 r in
    mkResponse (header r') (committed r') (body r' ++ [data])
  | EvFlush => commit 200 r
  end.

Definition received (evs : list event) : response :=
  fold_left observe evs (mkResponse ∅ None []).

Definition status (w : ResponseWriter) : option Z :=
  fst <$> committed (received (events w)).

Definition sent_header (w : ResponseWriter) (key : string) : option string :=
  match committed (received (events w)) with
  | Some (_, h) => h !! key
  | None => None
  end.

Definition sent_body (w : ResponseWriter) : list string :=
  body (received (events w)).

(** The data of the [Write] calls, in order. *)
Definition writes (evs : list event) : list string :=
  omap (λ e, match e with EvWrite d => Some d | _ => None end) evs.

(** The calls that send a piece of the body. *)
Definition is_body_event (e : event) : bool :=
  match e with EvWrite _ | EvFlush => true | _ => false end.

Definition new_writer : ResponseWriter := mkWriter [] None true.

End Http.

(** ** Errors returned by the streaming package *)

Inductive error :=
| ErrStreamingNotSupported
| ErrWriteToClient
| ErrRetryLimitExceeded
| ErrWriteErrorResponse
| ErrRetryRequest (cause : string).

(** [err.Error()], up to the text of a wrapped cause. *)
Definition Error (e : error) : string :=
  match e with
  | ErrStreamingNotSupported => "streaming not supported"
  | ErrWriteToClient => "failed to write to client"
  | ErrRetryLimitExceeded => "retry limit exceeded"
  | ErrWriteErrorResponse => "failed to write error response"
  | ErrRetryRequest cause => cause
  end.

(** ** Upstream responses

    The body of an upstream response as [bufio.Scanner] delivers it: the
    lines it yields, then end of input, with or without a scanner error. *)
Record Response := mkResp {
  lines : list string;
  scan_error : bool;
  (** the same body as successive [Body.Read] calls deliver it to the
      pass-through streamer: the bytes read and the error of each call *)
  reads : list (string * option bool)
}.

(** The error of a [Read]: [Some true] is [io.EOF], [Some false] any other
    error. A body whose calls are used up answers [(0, io.EOF)]. *)
Definition EOF : option bool := Some true.

(** ** Package [streaming]: configuration *)

Record StreamHandler := mkHandler {
  maxRetries : Z;
  retryDelay : Z;
  enablePunctuationHeuristic : bool;
  doneTokenPatterns : list string
}.

Record StreamConfig := mkConfig {
  MaxRetries : Z;
  RetryDelay : Z;
  EnablePunctuationHeuristic : bool;
  DoneTokenPatterns : list string
}.

(** [time.Second], in nanoseconds. *)
Definition Second : Z := 1000000000.

Definition defaultDoneTokenPatterns : list string :=
  ["[done]"; "[DONE]"; "done"; "DONE"].

Definition NewStreamHandler (config : StreamConfig) : StreamHandler :=
  let config :=
    if MaxRetries config <=? 0
    then mkConfig 3 (RetryDelay config) (EnablePunctuationHeuristic config)
                  (DoneTokenPatterns config)
    else config in
  let config :=
    if RetryDelay config <=? 0
    then mkConfig (MaxRetries config) (1 * Second)
                  (EnablePunctuationHeuristic config) (DoneTokenPatterns config)
    else config in
  let config :=
    if (length (DoneTokenPatterns config) =? 0)%nat
    then mkConfig (MaxRetries config) (RetryDelay config)
                  (EnablePunctuationHeuristic config) defaultDoneTokenPatterns
    else config in
  mkHandler (MaxRetries config) (RetryDelay config)
            (EnablePunctuationHeuristic config) (DoneTokenPatterns config).

(** [DefaultStreamProcessor]: the handler built from the configuration, and
    the configuration as it was passed. *)
Record DefaultStreamProcessor := mkProcessor {
  handler : StreamHandler;
  config : StreamConfig
}.

Definition NewDefaultStreamProcessor (config : StreamConfig) : DefaultStreamProcessor :=
  mkProcessor (NewStreamHandler config) config.

Definition GetStreamConfig (p : DefaultStreamProcessor) : StreamConfig := config p.

(** [StreamProcessorFactory.CreateProcessor]; the group is not used. *)
Definition CreateProcessor (channelType : string) : DefaultStreamProcessor :=
  let base := mkConfig 3 (1 * 1000 * 1000 * 1000) true defaultDoneTokenPatterns in
  let config :=
    if String.eqb channelType "gemini" then
      mkConfig 5 (RetryDelay base) true ["[done]"; "[DONE]"; "done"; "DONE"]
    else if String.eqb channelType "openai" then
      mkConfig 2 (RetryDelay base) false []
    else if String.eqb channelType "anthropic" then
      mkConfig 2 (RetryDelay base) false []
    else
      mkConfig 3 (RetryDelay base) true ["[done]"; "[DONE]"; "done"; "DONE"] in
  NewDefaultStreamProcessor config.

(** ** Package [streaming]: text extraction *)

Definition extractOpenAIText (data : gmap string json) : string :=
  match as_array (data !! "choices") with
  | Some (choice0 :: _) =>
    match as_object (Some choice0) with
    | Some choice =>
      match as_object (choice !! "delta") with
      | Some delta =>
        match as_string (delta !! "content") with
        | Some content => content
        | None => ""
        end
      | None => ""
      end
    | None => ""
    end
  | _ => ""
  end.

Definition extractGeminiText (data : gmap string json) : string :=
  match as_array (data !! "candidates") with
  | Some (candidate0 :: _) =>
    match as_object (Some candidate0) with
    | Some candidate =>
      match as_object (candidate !! "content") with
      | Some content =>
        match as_array (content !! "parts") with
        | Some (part0 :: _) =>
          match as_object (Some part0) with
          | Some part =>
            match as_string (part !! "text") with
            | Some text => text
            | None => ""
            end
          | None => ""
          end
        | _ => ""
        end
      | None => ""
      end
    | None => ""
    end
  | _ => ""
  end.

Definition extractAnthropicText (data : gmap string json) : string :=
  match as_string (data !! "type") with
  | Some typ =>
    if String.eqb typ "content_block_delta" then
      match as_object (data !! "delta") with
      | Some delta =>
        match as_string (delta !! "text") with
        | Some text => text
        | None => ""
        end
      | None => ""
      end
    else ""
  | None => ""
  end.

Definition extractGenericText (data : gmap string json) : string :=
  match as_string (data !! "text") with
  | Some text => text
  | None =>
    match as_string (data !! "content") with
    | Some content => content
    | None => ""
    end
  end.

Definition extractTextFromData (data : gmap string json) (channelType : string) : string :=
  if String.eqb channelType "openai" then extractOpenAIText data
  else if String.eqb channelType "gemini" then extractGeminiText data
  else if String.eqb channelType "anthropic" then extractAnthropicText data
  else extractGenericText data.

(** ** Package [streaming]: completion signals *)

(** [for _, pattern := range patterns { if strings.Contains(text, pattern) { return true } }] *)
Fixpoint containsDoneToken (patterns : list string) (text : string) : bool :=
  match patterns with
  | [] => false
  | pattern :: rest =>
    if Strings.Contains text pattern then true else containsDoneToken rest text
  end.

Definition isOpenAIComplete (data : gmap string json) : bool :=
  match as_array (data !! "choices") with
  | Some (choice0 :: _) =>
    match as_object (Some choice0) with
    | Some choice =>
      match as_string (choice !! "finish_reason") with
      | Some finishReason =>
        String.eqb finishReason "stop" || String.eqb finishReason "length"
      | None => false
      end
    | None => false
    end
  | _ => false
  end.

Definition isGeminiComplete (sh : StreamHandler) (data : gmap string json)
    (accumulatedText : string) : bool :=
  if containsDoneToken (doneTokenPatterns sh) accumulatedText then true
  else
    match as_object (data !! "metadata") with
    | Some metadata =>
      match as_string (metadata !! "finishReason") with
      | Some finishReason => String.eqb finishReason "STOP"
      | None => false
      end
    | None => false
    end.

Definition isAnthropicComplete (data : gmap string json) : bool :=
  match as_string (data !! "type") with
  | Some typ => String.eqb typ "message_stop"
  | None => false
  end.

Definition isGenericComplete (sh : StreamHandler) (data : gmap string json)
    (accumulatedText : string) : bool :=
  if containsDoneToken (doneTokenPatterns sh) accumulatedText then true
  else
    match as_string (data !! "finish_reason") with
    | Some finishReason =>
      String.eqb finishReason "stop" || String.eqb finishReason "length"
    | None => false
    end.

Definition isStreamComplete (sh : StreamHandler) (data : gmap string json)
    (channelType accumulatedText : string) : bool :=
  if String.eqb channelType "openai" then isOpenAIComplete data
  else if String.eqb channelType "gemini" then isGeminiComplete sh data accumulatedText
  else if String.eqb channelType "anthropic" then isAnthropicComplete data
  else isGenericComplete sh data accumulatedText.

(** The constant [punctuations] of [endsWithSentencePunctuation]: the
    ideographic full stop, the fullwidth question and exclamation marks,
    [.], [!], [?], the horizontal ellipsis, and the two ASCII quotes
    (written twice in the source). *)
Definition punctuations : string :=
  "。？！.!?…" +:+ String dquote (String squote (String dquote (String squote ""))).

Definition endsWithSentencePunctuation (text : string) : bool :=
  let trimmed := Strings.TrimSpace text in
  if (String.length trimmed =? 0)%nat then false
  else
    let runes := Utf8.runes trimmed in
    match last runes with
    | Some last => Strings.ContainsRune punctuations last
    | None => false
    end.

Definition isContentComplete (sh : StreamHandler) (text channelType : string) : bool :=
  if String.eqb text "" then false
  else
    let generic := endsWithSentencePunctuation text && (50 <? len text) in
    if String.eqb channelType "gemini" then
      if containsDoneToken (doneTokenPatterns sh) text then true else generic
    else generic.

(** ** Package [streaming]: done-token removal *)

(** The loop of [RemoveDoneTokensFromText]: the first pattern, in the
    configured order, that is a suffix of the text is cut off once, the
    rest is passed through [strings.TrimSpace], and the loop breaks. *)
Fixpoint removeFirstDoneToken (patterns : list string) (text : string) : string :=
  match patterns with
  | [] => text
  | pattern :: rest =>
    if Strings.HasSuffix text pattern
    then Strings.TrimSpace (Strings.TrimSuffix text pattern)
    else removeFirstDoneToken rest text
  end.

Definition RemoveDoneTokensFromText (sh : StreamHandler) (text : string) : string :=
  removeFirstDoneToken (doneTokenPatterns sh) text.

(** [part["text"] = cleanText] at [candidates[0].content.parts[0]] of the
    freshly decoded frame; each guard that fails leaves the frame as it is. *)
Definition setGeminiText (parsedData : gmap string json) (cleanText : string)
    : gmap string json :=
  match as_array (parsedData !! "candidates") with
  | Some (candidate0 :: candidates) =>
    match as_object (Some candidate0) with
    | Some candidate =>
      match as_object (candidate !! "content") with
      | Some content =>
        match as_array (content !! "parts") with
        | Some (part0 :: parts) =>
          match as_object (Some part0) with
          | Some part =>
            let part := <["text" := JStr cleanText]> part in
            let content := <["parts" := JArr (JObj part :: parts)]> content in
            let candidate := <["content" := JObj content]> candidate in
            <["candidates" := JArr (JObj candidate :: candidates)]> parsedData
          | None => parsedData
          end
        | _ => parsedData
        end
      | None => parsedData
      end
    | None => parsedData
    end
  | _ => parsedData
  end.

(** [fmt.Fprintf(writer, "%s\n\n", line)] writes [line] and two line feeds. *)
Definition frame (line : string) : string := line +:+ String LF (String LF "").

Section Streaming.

(** [json.Unmarshal] into a [map[string]interface{}] and [json.Marshal] of
    one; [None] is a non-nil error. *)
Variable Unmarshal : string -> option (gmap string json).
Variable Marshal : gmap string json -> option string.

Variable sh : StreamHandler.

(** The argument [data] of the source is not used by its body. *)
Definition removeDoneTokensFromLine (line : string) : string :=
  if negb (Strings.HasPrefix line "data: ") then line
  else
    let dataContent := Strings.TrimPrefix line "data: " in
    if String.eqb dataContent "[DONE]" then line
    else
      match Unmarshal dataContent with
      | None => line
      | Some parsedData =>
        let text := extractGeminiText parsedData in
        if String.eqb text "" then line
        else
          let cleanText := RemoveDoneTokensFromText sh text in
          if negb (String.eqb cleanText text) then
            match Marshal (setGeminiText parsedData cleanText) with
            | Some newDataBytes => "data: " +:+ newDataBytes
            | None => line
            end
          else line
      end.

(** ** Package [streaming]: the retry error *)

Definition errorPayload : gmap string json :=
  {[ "error" := JObj (
       <["code" := JNum 504]> (
       <["status" := JStr "DEADLINE_EXCEEDED"]> (
       <["message" := JStr ("Retry limit (" +:+ itoa (maxRetries sh)
                            +:+ ") exceeded after stream interruption")]> ∅))) ]}.

(** The error of [json.Marshal] is discarded by the source. *)
Definition errorBytes : string := default "" (Marshal errorPayload).

(** The argument [retryCount] of the source is not used by its body. *)
Definition writeRetryError (writer : Http.ResponseWriter)
    : Http.ResponseWriter * error :=
  let writer := Http.header_set "Content-Type" "application/json" writer in
  let writer := Http.write_header 504 writer in
  match Http.write errorBytes writer with
  | None => (writer, ErrWriteErrorResponse)
  | Some writer => (writer, ErrRetryLimitExceeded)
  end.

(** ** Package [streaming]: one stream attempt *)

(** How the scanning loop of [processStreamAttempt] is left: by a
    [return] from inside the loop, or because [scanner.Scan()] is false. *)
Inductive loop_exit :=
| Returned (cleanExit : bool) (err : option error)
| ScanEnded.

(** The variables the loop updates. *)
Record loop_vars := mkVars {
  v_writer : Http.ResponseWriter;
  v_accumulatedText : string;
  v_lastTextChunk : string;
  v_textInThisStream : string
}.

Fixpoint scanLoop (channelType : string) (input : list string) (v : loop_vars)
    : loop_exit * loop_vars :=
  match input with
  | [] => (ScanEnded, v)
  | line :: rest =>
    if String.eqb line "" then scanLoop channelType rest v
    else if Strings.HasPrefix line "data: " then
      let dataContent := Strings.TrimPrefix line "data: " in
      if String.eqb dataContent "[DONE]" then (Returned true None, v)
      else
        match Unmarshal dataContent with
        | None => scanLoop channelType rest v
        | Some data =>
          let textChunk := extractTextFromData data channelType in
          let v :=
            if negb (String.eqb textChunk "") then
              mkVars (v_writer v) (v_accumulatedText v +:+ textChunk)
                     textChunk (v_textInThisStream v +:+ textChunk)
            else v in
          let processedLine :=
            if String.eqb channelType "gemini"
            then removeDoneTokensFromLine line else line in
          match Http.write (frame processedLine) (v_writer v) with
          | None => (Returned false (Some ErrWriteToClient), v)
          | Some writer =>
            let v := mkVars (Http.flush writer) (v_accumulatedText v)
                            (v_lastTextChunk v) (v_textInThisStream v) in
            if isStreamComplete sh data channelType (v_accumulatedText v)
            then (Returned true None, v)
            else scanLoop channelType rest v
          end
        end
    else
      match Http.write (frame line) (v_writer v) with
      | None => (Returned false (Some ErrWriteToClient), v)
      | Some writer =>
        scanLoop channelType rest
          (mkVars (Http.flush writer) (v_accumulatedText v)
                  (v_lastTextChunk v) (v_textInThisStream v))
      end
  end.

Definition setStreamingHeaders (writer : Http.ResponseWriter) : Http.ResponseWriter :=
  let writer := Http.header_set "Content-Type" "text/event-stream" writer in
  let writer := Http.header_set "Cache-Control" "no-cache" writer in
  let writer := Http.header_set "Connection" "keep-alive" writer in
  Http.header_set "X-Accel-Buffering" "no" writer.

(** What an attempt leaves behind: the writer and the two variables it
    reaches through pointers. *)
Record attempt_state := mkAttempt {
  a_writer : Http.ResponseWriter;
  a_accumulatedText : string;
  a_resumePunctStreak : Z
}.

Definition processStreamAttempt (resp : Response) (channelType : string)
    (attempt : Z) (st : attempt_state) : bool * option error * attempt_state :=
  let writer := setStreamingHeaders (a_writer st) in
  if negb (Http.flusher writer) then
    (false, Some ErrStreamingNotSupported,
     mkAttempt writer (a_accumulatedText st) (a_resumePunctStreak st))
  else
    let '(exit, v) :=
      scanLoop channelType (lines resp)
               (mkVars writer (a_accumulatedText st) "" "") in
    let st' := mkAttempt (v_writer v) (v_accumulatedText v) (a_resumePunctStreak st) in
    match exit with
    | Returned cleanExit err => (cleanExit, err, st')
    | ScanEnded =>
      if scan_error resp then (false, None, st')
      else
        let heuristic :=
          enablePunctuationHeuristic sh && (0 <? attempt)
          && endsWithSentencePunctuation (v_lastTextChunk v) in
        let streak := if heuristic then a_resumePunctStreak st + 1 else 0 in
        let st' := mkAttempt (v_writer v) (v_accumulatedText v) streak in
        if heuristic && (3 <=? streak) then (true, None, st')
        else if isContentComplete sh (v_accumulatedText v) channelType
        then (true, None, st')
        else (false, None, st')
    end.

(** ** Package [streaming]: the retry controller *)

(** [retryRequestFunc]: a request to the upstream. Its result, a response
    or the message of an error, depends on the accumulated text it is given
    and on the outside world, here the number of calls made before. *)
Definition RetryFunc := nat -> string -> Response + string.

(** The variables of [HandleStreamingResponse], and the entries of its
    debug log ["=== Starting stream attempt %d/%d ==="]. *)
Record session := mkSession {
  s_resp : Response;
  s_state : attempt_state;
  consecutiveRetryCount : Z;
  attemptLog : list (Z * Z)
}.

(** One pass through the body of the [for] loop: the next state of the
    variables, or the error returned ([None]: [nil]). Closing the body of
    the response and sleeping for [retryDelay] change none of them. The
    call of [retryRequestFunc] that follows the increment of the counter
    to [count] is its call number [count - 1], counted from 0. *)
Definition iteration (channelType : string) (retryRequestFunc : RetryFunc)
    (s : session) : session + (option error * session) :=
  let log := attemptLog s ++ [(consecutiveRetryCount s + 1, maxRetries sh + 1)] in
  let '(cleanExit, err, st) :=
    processStreamAttempt (s_resp s) channelType (consecutiveRetryCount s) (s_state s) in
  let s := mkSession (s_resp s) st (consecutiveRetryCount s) log in
  match err with
  | Some e => inr (Some e, s)
  | None =>
    if cleanExit then inr (None, s)
    else if maxRetries sh <=? consecutiveRetryCount s then
      let '(writer, e) := writeRetryError (a_writer st) in
      inr (Some e,
           mkSession (s_resp s)
             (mkAttempt writer (a_accumulatedText st) (a_resumePunctStreak st))
             (consecutiveRetryCount s) log)
    else
      let count := consecutiveRetryCount s + 1 in
      match retryRequestFunc (Z.to_nat (count - 1)) (a_accumulatedText st) with
      | inr cause =>
        inr (Some (ErrRetryRequest cause), mkSession (s_resp s) st count log)
      | inl newResp => inl (mkSession newResp st count log)
      end
  end.

Fixpoint loop (fuel : nat) (channelType : string) (retryRequestFunc : RetryFunc)
    (s : session) : option (option error * session) :=
  match fuel with
  | O => None
  | S fuel' =>
    match iteration channelType retryRequestFunc s with
    | inr result => Some result
    | inl s' => loop fuel' channelType retryRequestFunc s'
    end
  end.

(** The upstream responses the loop reads, one for each pass it makes. *)
Fixpoint attemptedResponses (fuel : nat) (channelType : string)
    (retryRequestFunc : RetryFunc) (s : session) : list Response :=
  match fuel with
  | O => []
  | S fuel' =>
    s_resp s ::
    match iteration channelType retryRequestFunc s with
    | inr _ => []
    | inl s' => attemptedResponses fuel' channelType retryRequestFunc s'
    end
  end.

Definition startSession (resp : Response) (writer : Http.ResponseWriter) : session :=
  mkSession resp (mkAttempt writer "" 0) 0 [].

(** [HandleStreamingResponse]: the loop, with the passes that
    [maxRetries] allows for; [None] would be a loop still running after
    them (theorem [HandleStreamingResponse_returns] excludes it). *)
Definition HandleStreamingResponse (resp : Response) (writer : Http.ResponseWriter)
    (channelType : string) (retryRequestFunc : RetryFunc)
    : option (option error * session) :=
  loop (S (Z.to_nat (maxRetries sh))) channelType retryRequestFunc
       (startSession resp writer).

(** The responses read by [HandleStreamingResponse]: the first response,
    then the results of the calls of [retryRequestFunc]. *)
Definition upstreamResponses (resp : Response) (writer : Http.ResponseWriter)
    (channelType : string) (retryRequestFunc : RetryFunc) : list Response :=
  attemptedResponses (S (Z.to_nat (maxRetries sh))) channelType retryRequestFunc
    (startSession resp writer).

End Streaming.

(** ** Package [proxy]: the retry request body *)

Definition message (role content : string) : json :=
  JObj (<["role" := JStr role]> (<["content" := JStr content]> ∅)).

Definition addOpenAIRetryContext (body : gmap string json) (accumulatedText : string)
    : gmap string json :=
  match as_array (body !! "messages") with
  | None => body
  | Some messages =>
    let systemMessage :=
      message "system"
        ("Continue from where you left off. Previous response: " +:+ accumulatedText
         +:+ String LF (String LF "Continue generating the response without repetition.")) in
    <["messages" := JArr ([systemMessage] ++ messages)]> body
  end.

(** [role, ok := content["role"].(string); ok && role == "user"] on an
    entry that is an object. *)
Definition isUserEntry (entry : option json) : bool :=
  match as_object entry with
  | Some content =>
    match as_string (content !! "role") with
    | Some role => String.eqb role "user"
    | None => false
    end
  | None => false
  end.

(** [for i := len(contents) - 1; i >= 0; i--], entered with [n = i + 1]:
    the index of the last user entry, or [-1]. *)
Fixpoint lastUserIndex (contents : list json) (n : nat) : Z :=
  match n with
  | O => -1
  | S i => if isUserEntry (contents !! i) then Z.of_nat i
           else lastUserIndex contents i
  end.

Definition textPart (text : string) : json := JObj {[ "text" := JStr text ]}.

Definition geminiEntry (role text : string) : json :=
  JObj (<["role" := JStr role]> (<["parts" := JArr [textPart text]]> ∅)).

Definition continuationText : string :=
  "Continue exactly where you left off without any preamble or repetition. Remember to include [done] at the end.".

Definition contextMessages (accumulatedText : string) : list json :=
  [geminiEntry "model" accumulatedText; geminiEntry "user" continuationText].

Definition addGeminiRetryContext (body : gmap string json) (accumulatedText : string)
    : gmap string json :=
  match as_array (body !! "contents") with
  | None => body
  | Some contents =>
    let lastUserIndex := lastUserIndex contents (length contents) in
    if negb (lastUserIndex =? -1) then
      let newContents :=
        take (Z.to_nat (lastUserIndex + 1)) contents
        ++ contextMessages accumulatedText
        ++ drop (Z.to_nat (lastUserIndex + 1)) contents in
      <["contents" := JArr newContents]> body
    else
      <["contents" := JArr (contents ++ contextMessages accumulatedText)]> body
  end.

Definition continueMessage (accumulatedText : string) : json :=
  message "user"
    ("Continue from where you left off. Previous response: " +:+ accumulatedText
     +:+ String LF (String LF "Continue without repetition.")).

Definition addAnthropicRetryContext (body : gmap string json) (accumulatedText : string)
    : gmap string json :=
  match as_array (body !! "messages") with
  | None => body
  | Some messages =>
    <["messages" := JArr (messages ++ [continueMessage accumulatedText])]> body
  end.

Definition addGenericRetryContext (body : gmap string json) (accumulatedText : string)
    : gmap string json :=
  match as_array (body !! "messages") with
  | Some messages =>
    <["messages" := JArr (messages ++ [continueMessage accumulatedText])]> body
  | None => body
  end.

(** The copy of the original fields is the map itself: values are
    immutable here. *)
Definition buildRetryRequestBody (originalBody : gmap string json)
    (accumulatedText channelType : string) : gmap string json :=
  let retryBody := originalBody in
  if String.eqb channelType "openai" then addOpenAIRetryContext retryBody accumulatedText
  else if String.eqb channelType "gemini" then addGeminiRetryContext retryBody accumulatedText
  else if String.eqb channelType "anthropic" then addAnthropicRetryContext retryBody accumulatedText
  else addGenericRetryContext retryBody accumulatedText.

(** ** Package [proxy]: pass-through streaming and the dispatcher *)

(** [io.Copy(c.Writer, resp.Body)]: every chunk read is written; the copy
    stops at the first error of either side. *)
Fixpoint handleNormalResponse (input : list (string * option bool))
    (writer : Http.ResponseWriter) : Http.ResponseWriter :=
  match input with
  | [] => writer
  | (data, err) :: rest =>
    let written :=
      if (0 <? String.length data)%nat then Http.write data writer else Some writer in
    match written with
    | None => writer
    | Some writer =>
      match err with
      | None => handleNormalResponse rest writer
      | Some _ => writer
      end
    end
  end.

(** The [for] loop of [handleSimpleStreamingResponse]. *)
Fixpoint simpleLoop (input : list (string * option bool))
    (writer : Http.ResponseWriter) : Http.ResponseWriter :=
  match input with
  | [] => writer
  | (data, err) :: rest =>
    let written :=
      if (0 <? String.length data)%nat
      then Http.flush <$> Http.write data writer
      else Some writer in
    match written with
    | None => writer
    | Some writer =>
      match err with
      | None => simpleLoop rest writer
      | Some _ => writer
      end
    end
  end.

Definition handleSimpleStreamingResponse (writer : Http.ResponseWriter)
    (resp : Response) : Http.ResponseWriter :=
  let writer := Http.header_set "Content-Type" "text/event-stream" writer in
  let writer := Http.header_set "Cache-Control" "no-cache" writer in
  let writer := Http.header_set "Connection" "keep-alive" writer in
  let writer := Http.header_set "X-Accel-Buffering" "no" writer in
  if negb (Http.flusher writer) then handleNormalResponse (reads resp) writer
  else simpleLoop (reads resp) writer.

Section Dispatcher.

Variable Unmarshal : string -> option (gmap string json).
Variable Marshal : gmap string json -> option string.

(** [ProxyServer.handleStreamingResponse]. [retryFunc] stands for the
    closure over [createRetryRequest], a request to the upstream; the
    fallback streams what is left of the first response. *)
Definition handleStreamingResponse (writer : Http.ResponseWriter) (resp : Response)
    (channelType : string) (retryFunc : RetryFunc) : option Http.ResponseWriter :=
  if String.eqb channelType "openai" || String.eqb channelType "anthropic" then
    Some (handleSimpleStreamingResponse writer resp)
  else
    let processor := CreateProcessor channelType in
    match HandleStreamingResponse Unmarshal Marshal (handler processor)
            resp writer channelType retryFunc with
    | None => None
    | Some (Some err, s) =>
      Some (handleSimpleStreamingResponse (a_writer (s_state s)) resp)
    | Some (None, s) => Some (a_writer (s_state s))
    end.

End Dispatcher.

(** ** Package [channel]: the completion-marker contract of Gemini *)

Definition markerText : string :=
  "IMPORTANT: At the very end of your entire response, you must write the token [done] to signal completion. This is a mandatory technical requirement.".

Definition newSystemPromptPart : json := JObj {[ "text" := JStr markerText ]}.

Definition injectSystemPrompt (body : gmap string json) : gmap string json :=
  let body :=
    match body !! "system_instruction" with
    | Some snakeVal =>
      let camelMap := default ∅ (as_object (body !! "systemInstruction")) in
      let camelParts := default [] (as_array (camelMap !! "parts")) in
      let camelParts :=
        match as_object (Some snakeVal) with
        | Some snakeMap =>
          match as_array (snakeMap !! "parts") with
          | Some snakeParts => snakeParts ++ camelParts
          | None => camelParts
          end
        | None => camelParts
        end in
      let camelMap := <["parts" := JArr camelParts]> camelMap in
      delete "system_instruction" (<["systemInstruction" := JObj camelMap]> body)
    | None => body
    end in
  let fresh := JObj {[ "parts" := JArr [newSystemPromptPart] ]} in
  match body !! "systemInstruction" with
  | None | Some JNull => <["systemInstruction" := fresh]> body
  | Some val =>
    match as_object (Some val) with
    | None => <["systemInstruction" := fresh]> body
    | Some instruction =>
      match as_array (instruction !! "parts") with
      | None =>
        <["systemInstruction" :=
            JObj (<["parts" := JArr [newSystemPromptPart]]> instruction)]> body
      | Some parts =>
        <["systemInstruction" :=
            JObj (<["parts" := JArr (parts ++ [newSystemPromptPart])]> instruction)]> body
      end
    end
  end.

(** ** Example inputs *)

Definition geminiHandler : StreamHandler := handler (CreateProcessor "gemini").
Definition genericHandler : StreamHandler := handler (CreateProcessor "generic").

Definition noMoreUpstream : Response + string := inr "retry request failed".

(** Scenario "Gemini truncation then resume": two attempts of one frame. *)
Definition foxPayload : string :=
  jq "{'candidates':[{'content':{'parts':[{'text':'The quick brown fox '}]}}]}".
Definition dogPayload : string :=
  jq "{'candidates':[{'content':{'parts':[{'text':'jumps over the lazy dog. [done]'}]}}]}".
Definition strippedDogPayload : string :=
  jq "{'candidates':[{'content':{'parts':[{'text':'jumps over the lazy dog.'}]}}]}".

Definition foxFrame : string := "data: " +:+ foxPayload.
Definition dogFrame : string := "data: " +:+ dogPayload.

Definition foxResponse : Response := mkResp [foxFrame] false [].
Definition dogResponse : Response := mkResp [dogFrame] false [].

Definition resumeWithDog : RetryFunc :=
  λ calls _, match calls with O => inl dogResponse | _ => noMoreUpstream end.

(** An upstream that truncates every response after the same frame. *)
Definition alwaysFox : RetryFunc := λ _ _, inl foxResponse.

(** An upstream whose responses are all empty. *)
Definition emptyResponse : Response := mkResp [] false [].
Definition alwaysEmpty : RetryFunc := λ _ _, inl emptyResponse.

(** A writer whose every [Write] fails. *)
Definition brokenWriter : Http.ResponseWriter := Http.mkWriter [] (Some O) true.

(** A frame whose payload is not JSON, and one whose text ends in two
    done-tokens. *)
Definition brokenFrame : string := "data: {oops".
Definition allDonePayload : string :=
  jq "{'candidates':[{'content':{'parts':[{'text':'All done [done]'}]}}]}".
Definition allDoneFrame : string := "data: " +:+ allDonePayload.

Definition longSentence : string :=
  "The quick brown fox jumps over the lazy dog again and again.".

(** Scenario "Resume body for Gemini with no prior user turn". *)
Definition modelOnlyBody : gmap string json :=
  default ∅ (Codec.Unmarshal (jq "{'contents':[{'role':'model','parts':[{'text':'x'}]}]}")).

Definition userEntry (text : string) : json := geminiEntry "user" text.
Definition modelEntry (text : string) : json := geminiEntry "model" text.

Definition dialogueBody : gmap string json :=
  <["contents" := JArr [userEntry "q1"; modelEntry "a1"; userEntry "q2"; modelEntry "a2"]]>
    {[ "generationConfig" := JObj {[ "temperature" := JNum 1 ]} ]}.

(** A body with both spellings of the system instruction, the camelCase
    one already carrying the marker. *)
Definition bothInstructionsBody : gmap string json :=
  <["system_instruction" := JObj {[ "parts" := JArr [textPart "s1"; textPart "s2"] ]}]> (
  <["systemInstruction" :=
      JObj (<["role" := JStr "system"]>
             {[ "parts" := JArr [textPart "c1"; newSystemPromptPart] ]})]> (
  {[ "contents" := JArr [userEntry "hi"] ]})).

(** The final state of a run, for the examples. *)
Definition finalSession (r : option (option error * session)) : session :=
  match r with
  | Some (_, s) => s
  | None => startSession emptyResponse Http.new_writer
  end.

Definition finalError (r : option (option error * session)) : option error :=
  match r with
  | Some (err, _) => err
  | None => None
  end.

Definition finalWriter (r : option (option error * session)) : Http.ResponseWriter :=
  a_writer (s_state (finalSession r)).

(** The parts array of a system instruction: empty unless the value is an
    object whose ["parts"] is an array. *)
Definition partsOf (instruction : option json) : list json :=
  match as_object instruction with
  | Some m => default [] (as_array (m !! "parts"))
  | None => []
  end.

(** The first configured pattern, in order, that is a suffix of the text. *)
Definition firstSuffix (patterns : list string) (text : string) : option string :=
  List.find (Strings.HasSuffix text) patterns.

Definition decoded (payload : string) : gmap string json :=
  default ∅ (Codec.Unmarshal payload).

(** ** The shape of a session, for the statements *)

Definition sseHeaderEvents : list Http.event :=
  [Http.EvSetHeader "Content-Type" "text/event-stream";
   Http.EvSetHeader "Cache-Control" "no-cache";
   Http.EvSetHeader "Connection" "keep-alive";
   Http.EvSetHeader "X-Accel-Buffering" "no"].

(** How many times a header is set to a value in a sequence of calls. *)
Definition isSet (key value : string) (e : Http.event) : bool :=
  match e with
  | Http.EvSetHeader k v => String.eqb k key && String.eqb v value
  | _ => false
  end.

Definition countSet (key value : string) (evs : list Http.event) : nat :=
  length (List.filter (isSet key value) evs).

(** A header map that carries the four SSE headers. *)
Definition sseHeaders (h : gmap string string) : Prop :=
  ∀ key value, Http.EvSetHeader key value ∈ sseHeaderEvents → h !! key = Some value.

(** What has been committed with status 200 carries the SSE headers. *)
Definition sseCommitted (r : Http.response) : Prop :=
  ∀ h, Http.committed r = Some (200, h) → sseHeaders h.

Definition concatText (chunks : list string) : string :=
  foldr String.append "" chunks.

(** The values [consecutiveRetryCount] had when each attempt started, read
    off the debug log, whose entries show [consecutiveRetryCount + 1]. *)
Definition retryCounts (log : list (Z * Z)) : list Z := (λ e, e.1 - 1) <$> log.

(** The log entries of [n] attempts in a row, the first of which starts
    with [consecutiveRetryCount = c]. *)
Definition attemptEntries (sh : StreamHandler) (c : Z) (n : nat) : list (Z * Z) :=
  (λ i : nat, (c + Z.of_nat i + 1, maxRetries sh + 1)) <$> seq 0 n.

Section Shape.

Variable Unmarshal : string -> option (gmap string json).
Variable Marshal : gmap string json -> option string.
Variable sh : StreamHandler.
Variable channelType : string.

(** The line written for an upstream line that is forwarded. *)
Definition forwardedLine (line : string) : string :=
  if String.eqb channelType "gemini"
  then removeDoneTokensFromLine Unmarshal Marshal sh line
  else line.

(** The text chunk an upstream line carries, as it is received. *)
Definition textChunk (line : string) : string :=
  if Strings.HasPrefix line "data: " then
    match Unmarshal (Strings.TrimPrefix line "data: ") with
    | Some data => extractTextFromData data channelType
    | None => ""
    end
  else "".

(** The calls on the writer that forward the lines [forwarded]. *)
Definition frameEvents (forwarded : list string) : list Http.event :=
  forwarded ≫= λ line, [Http.EvWrite (frame (forwardedLine line)); Http.EvFlush].

(** The calls of [writeRetryError], according to the error returned. *)
Definition retryErrorEvents (err : option error) : list Http.event :=
  match err with
  | Some ErrRetryLimitExceeded =>
    [Http.EvSetHeader "Content-Type" "application/json"; Http.EvWriteHeader 504;
     Http.EvWrite (errorBytes Marshal sh)]
  | Some ErrWriteErrorResponse =>
    [Http.EvSetHeader "Content-Type" "application/json"; Http.EvWriteHeader 504]
  | _ => []
  end.

End Shape.

(** The text of the frames the client has received: the chunk each
    written frame carries, read back from its bytes. *)
Definition emittedChunk (Unmarshal : string -> option (gmap string json))
    (channelType data : string) : string :=
  textChunk Unmarshal channelType
    (Strings.TrimSuffix data (String LF (String LF ""))).

Definition emittedText (Unmarshal : string -> option (gmap string json))
    (channelType : string) (writer : Http.ResponseWriter) : string :=
  concatText (emittedChunk Unmarshal channelType
              <$> Http.writes (Http.events writer)).

(** The runs of the examples: the scenario "Gemini truncation then
    resume"; an upstream that never completes; an upstream without content
    in front of a writer that works, and of one that is broken. *)
Definition foxDogRun : option (option error * session) :=
  HandleStreamingResponse Codec.Unmarshal Codec.Marshal geminiHandler
    foxResponse Http.new_writer "gemini" resumeWithDog.

Definition foxForeverRun : option (option error * session) :=
  HandleStreamingResponse Codec.Unmarshal Codec.Marshal geminiHandler
    foxResponse Http.new_writer "gemini" alwaysFox.

Definition emptyRun : option (option error * session) :=
  HandleStreamingResponse Codec.Unmarshal Codec.Marshal geminiHandler
    emptyResponse Http.new_writer "gemini" alwaysEmpty.

Definition brokenWriterRun : option (option error * session) :=
  HandleStreamingResponse Codec.Unmarshal Codec.Marshal geminiHandler
    emptyResponse brokenWriter "gemini" alwaysEmpty.

(** The state of the variables when the sixth attempt on an upstream
    without content starts: five retries made, nothing written. *)
Definition sixthAttempt : session :=
  mkSession emptyResponse
    (mkAttempt (Http.mkWriter (concat (replicate 5 sseHeaderEvents)) None true) "" 0)
    5 (attemptEntries geminiHandler 0 5).

(** A pass-through response of two chunks. *)
Definition twoChunks : Response := mkResp [] false [("data: a", None); ("data: b", EOF)].


(** ** The request bodies, for the statements *)

(** The field of a request body that holds the conversation. *)
Definition conversationKey (channelType : string) : string :=
  if String.eqb channelType "gemini" then "contents" else "messages".

(** How many entries a retry adds to the conversation. *)
Definition contextSize (channelType : string) : nat :=
  if String.eqb channelType "gemini" then 2%nat else 1%nat.

(** The system instruction [injectSystemPrompt] leaves in a body: the
    fields of the camelCase instruction, with the parts of both spellings
    and the marker as its parts. *)
Definition mergedInstruction (body : gmap string json) : gmap string json :=
  <["parts" := JArr (partsOf (body !! "system_instruction")
                     ++ partsOf (body !! "systemInstruction")
                     ++ [newSystemPromptPart])]>
    (default ∅ (as_object (body !! "systemInstruction"))).

(** ** The lines of a response, for the statements *)

(** The line that ends an OpenAI stream. *)
Definition doneLine : string := "data: [DONE]".

(** The lines the scanning loop hands on to the client: not the empty
    ones, not [doneLine], and of the [data: ] lines those whose payload
    decodes. *)
Definition forwardable (Unmarshal : string -> option (gmap string json))
    (line : string) : bool :=
  negb (String.eqb line "")
  && (if Strings.HasPrefix line "data: " then
        negb (String.eqb (Strings.TrimPrefix line "data: ") "[DONE]")
        && match Unmarshal (Strings.TrimPrefix line "data: ") with
           | Some _ => true
           | None => false
           end
      else true).

(** The chunks [Read] delivers up to its first error, [io.EOF] included,
    and those of them a copy loop writes. *)
Fixpoint readChunks (input : list (string * option bool)) : list string :=
  match input with
  | [] => []
  | (data, None) :: rest => data :: readChunks rest
  | (data, Some _) :: _ => [data]
  end.

Definition nonEmptyChunks (input : list (string * option bool)) : list string :=
  List.filter (λ data, (0 <? String.length data)%nat) (readChunks input).

(** A response writer that has a [Flusher] and whose writes succeed. *)
Definition healthy (w : Http.ResponseWriter) : Prop :=
  Http.flusher w = true ∧ Http.capacity w = None.

(** An upstream response that ends with [doneLine] after one frame. *)
Definition foxDoneResponse : Response := mkResp [foxFrame; doneLine; dogFrame] false [].

(** An upstream whose every response is one sentence without done-token. *)
Definition sentencePayload : string :=
  jq "{'candidates':[{'content':{'parts':[{'text':'It rains.'}]}}]}".
Definition sentenceResponse : Response := mkResp ["data: " +:+ sentencePayload] false [].
Definition alwaysSentence : RetryFunc := λ _ _, inl sentenceResponse.

Definition sentenceRun : option (option error * session) :=
  HandleStreamingResponse Codec.Unmarshal Codec.Marshal geminiHandler
    sentenceResponse Http.new_writer "gemini" alwaysSentence.

(** A writer without [Flusher]. *)
Definition plainWriter : Http.ResponseWriter := Http.mkWriter [] None false.

(** The ASCII characters that count as sentence punctuation. *)
Definition asciiPunctuation : list ascii := ["."; "!"; "?"; dquote; squote]%char.

(** The string of one byte. *)
Definition byteString (c : ascii) : string := String c "".

(** ** Package [channel]: the model of a Gemini request *)

(** [strings.Split(s, sep)] for a separator of one byte, as all the
    separators of this code are. *)
Fixpoint Split (s : string) (sep : ascii) : list string :=
  match s with
  | EmptyString => [""]
  | String c t =>
    if Ascii.eqb c sep then "" :: Split t sep
    else
      match Split t sep with
      | x :: xs => String c x :: xs
      | [] => [String c ""]
      end
  end.

(** The loop of [ExtractModel] over the segments of the path: the segment
    behind the first segment [models] that has one, up to its first
    colon. *)
Fixpoint modelOfPath (parts : list string) : option string :=
  match parts with
  | [] => None
  | part :: rest =>
    if String.eqb part "models" then
      match rest with
      | modelPart :: _ => Some (hd "" (Split modelPart ":"))
      | [] => modelOfPath rest
      end
    else modelOfPath rest
  end.

Section Model.

(** [json.Unmarshal(bodyBytes, &p)] into a [modelPayload]: the field
    [p.Model], or [None] for a non-nil error. *)
Variable UnmarshalModel : string -> option string.

Definition ExtractModel (path bodyBytes : string) : string :=
  match modelOfPath (Split path "/") with
  | Some model => model
  | None =>
    match UnmarshalModel bodyBytes with
    | Some model =>
      if negb (String.eqb model "") then Strings.TrimPrefix model "models/" else ""
    | None => ""
    end
  end.

End Model.

(** A decoder of [modelPayload] for the examples: the body is the name. *)
Definition bodyIsModel (bodyBytes : string) : option string := Some bodyBytes.

(** ** The retry request

    Of an [http.Request], the two fields [ReshapeStreamReqBody] assigns:
    [Body], here the bytes still to be read from it, and [ContentLength]. *)
Record Request := mkRequest {
  Body : string;
  ContentLength : Z
}.

Section RetryRequest.

(** [json.Unmarshal] into a [map[string]interface{}] variable that is
    [nil] before: [None] is a non-nil error, [Some None] the map left
    [nil] by the JSON value [null]. *)
Variable UnmarshalMap : string -> option (option (gmap string json)).
Variable Marshal : gmap string json -> option string.

(** [GeminiChannel.ReshapeStreamReqBody] on a request whose body is read
    without error, as the [bytes.Reader] of [createRetryRequest] is.
    [io.ReadAll] leaves nothing to read, so every early [return] leaves
    an empty body behind. [None] is the panic of the assignment to an
    entry of a [nil] map in [injectSystemPrompt]. *)
Definition ReshapeStreamReqBody (req : Request) : option Request :=
  let bodyBytes := Body req in
  let drained := mkRequest "" (ContentLength req) in
  match UnmarshalMap bodyBytes with
  | None => Some drained
  | Some None => None
  | Some (Some data) =>
    match Marshal (injectSystemPrompt data) with
    | None => Some drained
    | Some newBody => Some (mkRequest newBody (len newBody))
    end
  end.

(** [ProxyServer.createRetryRequest]. [reshape] is the method
    [ReshapeStreamReqBody] of the channel; [prepare] is the error, if any,
    of selecting a key, building the upstream URL and creating the
    request, none of which looks at the body; [send] is [client.Do]. The
    headers of the request are not part of [Request]. Ranging over a
    [nil] map copies nothing, as for an empty map. Errors are given up to
    the text of their cause; [None] is a panic. *)
Definition createRetryRequest (channelType : string)
    (reshape : Request -> option Request) (prepare : option string)
    (send : Request -> Response + string)
    (originalBodyBytes accumulatedText : string) : option (Response + string) :=
  match UnmarshalMap originalBodyBytes with
  | None => Some (inr "failed to parse original request body")
  | Some originalBody =>
    let retryBody :=
      buildRetryRequestBody (default ∅ originalBody) accumulatedText channelType in
    match Marshal retryBody with
    | None => Some (inr "failed to marshal retry body")
    | Some retryBodyBytes =>
      match prepare with
      | Some e => Some (inr e)
      | None =>
        let req := mkRequest retryBodyBytes (len retryBodyBytes) in
        match reshape req with
        | None => None
        | Some req =>
          match send req with
          | inr cause => Some (inr "retry request failed")
          | inl resp => Some (inl resp)
          end
        end
      end
    end
  end.

End RetryRequest.

(** A decoder for the examples: [null] gives the [nil] map. *)
Definition unmarshalMap (bodyBytes : string) : option (option (gmap string json)) :=
  if String.eqb bodyBytes "null" then Some None
  else Some <$> Codec.Unmarshal bodyBytes.

(** An upstream that answers every request with its body as one line. *)
Definition echo (req : Request) : Response + string :=
  inl (mkResp [Body req] false []).

Definition helloBody : string :=
  jq "{'contents':[{'parts':[{'text':'hello'}],'role':'user'}]}".

(** * Properties *)

(** ** Strings *)

Lemma sapp_cons (c : ascii) (a b : string) :
  String c a +:+ b = String c (a +:+ b).
Proof. reflexivity. Qed.

Lemma HasPrefix_app (p s : string) : Strings.HasPrefix (p +:+ s) p = true.
Proof.
  induction p as [|c p IH]; simpl; [done|].
  by rewrite Ascii.eqb_refl, IH.
Qed.

Lemma HasPrefix_spec (s p : string) :
  Strings.HasPrefix s p = true ↔ ∃ t, s = p +:+ t.
Proof.
  split.
  - revert s. induction p as [|c p IH]; intros s H; simpl in *.
    + by exists s.
    + destruct s as [|c' s]; [done|].
      apply andb_true_iff in H as [Hc Hp].
      apply Ascii.eqb_eq in Hc as ->.
      destruct (IH _ Hp) as [t ->]. by exists t.
  - intros [t ->]. apply HasPrefix_app.
Qed.

Lemma sdrop_app (p s : string) : sdrop (String.length p) (p +:+ s) = s.
Proof. induction p; simpl; auto. Qed.

Lemma TrimPrefix_app (p s : string) : Strings.TrimPrefix (p +:+ s) p = s.
Proof. unfold Strings.TrimPrefix. by rewrite HasPrefix_app, sdrop_app. Qed.

(** [strings.Contains] decides the occurrence as a substring. *)
Lemma Contains_spec (s sub : string) :
  Strings.Contains s sub = true ↔ ∃ a b, s = a +:+ sub +:+ b.
Proof.
  split.
  - induction s as [|c s IH]; simpl; intros H.
    + rewrite orb_false_r in H. apply HasPrefix_spec in H as [t Ht].
      exists "", t. exact Ht.
    + apply orb_true_iff in H as [H|H].
      * apply HasPrefix_spec in H as [t Ht]. exists "", t. exact Ht.
      * destruct (IH H) as (a & b & ->). by exists (String c a), b.
  - intros (a & b & ->). induction a as [|c a IH]; simpl.
    + pose proof (HasPrefix_app sub b) as Hp.
      destruct (sub +:+ b); simpl; by rewrite Hp.
    + by rewrite IH, orb_true_r.
Qed.

Lemma containsDoneToken_spec (patterns : list string) (text : string) :
  containsDoneToken patterns text = true
  ↔ ∃ p, p ∈ patterns ∧ Strings.Contains text p = true.
Proof.
  induction patterns as [|q ps IH]; simpl.
  - split; [done|]. intros (p & Hp & _). by apply elem_of_nil in Hp.
  - destruct (Strings.Contains text q) eqn:Hq.
    + split; [|done]. intros _. exists q. split; [left|done].
    + rewrite IH. split.
      * intros (p & Hp & Hc). exists p. split; [by right|done].
      * intros (p & Hp & Hc). apply elem_of_cons in Hp as [->|Hp]; [congruence|].
        by exists p.
Qed.

Lemma length_stake (n : nat) (s : string) :
  String.length (stake n s) = Nat.min n (String.length s).
Proof. revert s. induction n; intros [|c s]; simpl; auto. Qed.

Lemma length_TrimRightFunc_go (fuel : nat) (f : Z → bool) (s : string) :
  (String.length (Strings.TrimRightFunc_go fuel f s) ≤ String.length s)%nat.
Proof.
  revert s. induction fuel as [|fuel IH]; intros s; simpl; [lia|].
  destruct s as [|c s]; [simpl; lia|].
  destruct (Utf8.DecodeLastRuneInString (String c s)) as [r size].
  destruct (f r); [|lia].
  etrans; [apply IH|]. rewrite length_stake. lia.
Qed.

Lemma length_TrimRightFunc (f : Z → bool) (s : string) :
  (String.length (Strings.TrimRightFunc s f) ≤ String.length s)%nat.
Proof. apply length_TrimRightFunc_go. Qed.

Lemma length_TrimSuffix (s p : string) :
  Strings.HasSuffix s p = true →
  String.length (Strings.TrimSuffix s p) = (String.length s - String.length p)%nat.
Proof.
  intros H. unfold Strings.TrimSuffix. rewrite H, length_stake. lia.
Qed.

Lemma String_eqb_neq (a b : string) : String.eqb a b = false ↔ a ≠ b.
Proof. apply String.eqb_neq. Qed.

(** ** The handler constructor and the factory *)

Lemma NewStreamHandler_maxRetries (config : StreamConfig) :
  maxRetries (NewStreamHandler config)
  = if MaxRetries config <=? 0 then 3 else MaxRetries config.
Proof.
  unfold NewStreamHandler.
  repeat (case_match; simpl in *); done.
Qed.

Lemma NewStreamHandler_positive (config : StreamConfig) :
  1 ≤ maxRetries (NewStreamHandler config).
Proof.
  rewrite NewStreamHandler_maxRetries. case_match; lia.
Qed.

(** C10. Whatever configuration the constructor is given, the handler it
    builds has [maxRetries] equal to 3 when [MaxRetries] is zero or
    negative, [retryDelay] equal to one second when [RetryDelay] is zero or
    negative, and the four default done-token patterns when the list is
    empty; the other values are kept. Hence every handler allows at least
    one extra attempt and has at least one pattern, and the handlers the
    factory builds for openai and anthropic, whose configurations list no
    pattern, carry the four defaults. *)
Theorem NewStreamHandler_defaults (config : StreamConfig) :
  maxRetries (NewStreamHandler config)
    = (if MaxRetries config <=? 0 then 3 else MaxRetries config)
  ∧ retryDelay (NewStreamHandler config)
    = (if RetryDelay config <=? 0 then Second else RetryDelay config)
  ∧ doneTokenPatterns (NewStreamHandler config)
    = (match DoneTokenPatterns config with
       | [] => ["[done]"; "[DONE]"; "done"; "DONE"]
       | patterns => patterns
       end)
  ∧ enablePunctuationHeuristic (NewStreamHandler config)
    = EnablePunctuationHeuristic config
  ∧ 1 ≤ maxRetries (NewStreamHandler config)
  ∧ doneTokenPatterns (NewStreamHandler config) ≠ []
  ∧ DoneTokenPatterns (GetStreamConfig (CreateProcessor "openai")) = []
  ∧ DoneTokenPatterns (GetStreamConfig (CreateProcessor "anthropic")) = []
  ∧ doneTokenPatterns (handler (CreateProcessor "openai"))
    = ["[done]"; "[DONE]"; "done"; "DONE"]
  ∧ doneTokenPatterns (handler (CreateProcessor "anthropic"))
    = ["[done]"; "[DONE]"; "done"; "DONE"].
Proof.
  split; [apply NewStreamHandler_maxRetries|].
  split.
  { unfold NewStreamHandler. repeat (case_match; simpl in *); done. }
  split.
  { unfold NewStreamHandler.
    destruct config as [m d h ps]; simpl.
    destruct ps; repeat (case_match; simpl in *); done. }
  split.
  { unfold NewStreamHandler. repeat (case_match; simpl in *); done. }
  split; [apply NewStreamHandler_positive|].
  split.
  { unfold NewStreamHandler.
    destruct config as [m d h ps]; simpl.
    destruct ps; repeat (case_match; simpl in *); done. }
  repeat split; reflexivity.
Qed.

(** ** Completion by content *)

Lemma isContentComplete_other (sh : StreamHandler) (text channelType : string) :
  channelType ≠ "gemini" →
  isContentComplete sh text channelType
  = endsWithSentencePunctuation text && (50 <? len text).
Proof.
  intros Hct. unfold isContentComplete.
  apply String.eqb_neq in Hct. rewrite Hct.
  destruct (String.eqb_spec text "") as [->|]; [|done].
  reflexivity.
Qed.

(** C4, as the code has it. For every handler, text and channel type,
    [isContentComplete] is true exactly when the text is not empty and
    either the channel is gemini and some configured done-token pattern
    occurs in the text, or the text ends with sentence punctuation and is
    longer than 50 bytes: for gemini the punctuation-and-length test is
    still applied when no done-token occurs. For the other channels it is
    the punctuation-and-length test alone, and
    [isContentComplete("abcd", generic)] is false. *)
Theorem isContentComplete_spec (sh : StreamHandler) (text channelType : string) :
  (isContentComplete sh text channelType = true
   ↔ text ≠ ""
     ∧ ((channelType = "gemini"
         ∧ ∃ p a b, p ∈ doneTokenPatterns sh ∧ text = a +:+ p +:+ b)
        ∨ (endsWithSentencePunctuation text = true ∧ 50 < len text)))
  ∧ (channelType ≠ "gemini" →
     isContentComplete sh text channelType
     = endsWithSentencePunctuation text && (50 <? len text))
  ∧ isContentComplete sh "abcd" "generic" = false.
Proof.
  split; [|split; [apply isContentComplete_other | reflexivity]].
  unfold isContentComplete.
  destruct (String.eqb_spec text "") as [->|Hne].
  { split; [done|]. by intros [? _]. }
  assert (Hgen : endsWithSentencePunctuation text && (50 <? len text) = true
                 ↔ endsWithSentencePunctuation text = true ∧ 50 < len text).
  { rewrite andb_true_iff, Z.ltb_lt. done. }
  assert (Htok : containsDoneToken (doneTokenPatterns sh) text = true
                 ↔ ∃ p a b, p ∈ doneTokenPatterns sh ∧ text = a +:+ p +:+ b).
  { rewrite containsDoneToken_spec. split.
    - intros (p & Hp & Hc). apply Contains_spec in Hc as (a & b & ->). eauto.
    - intros (p & a & b & Hp & ->). exists p. split; [done|].
      apply Contains_spec. eauto. }
  simpl. destruct (String.eqb_spec channelType "gemini") as [->|Hct].
  - destruct (containsDoneToken (doneTokenPatterns sh) text) eqn:Hd.
    + split; [|done]. intros _. split; [done|]. left. split; [done|].
      by apply Htok.
    + rewrite Hgen. split.
      * intros H. split; [done|]. by right.
      * intros [_ [[_ H]|H]]; [|done]. apply Htok in H. congruence.
  - rewrite Hgen. split.
    + intros H. split; [done|]. by right.
    + intros [_ [[? _]|H]]; done.
Qed.

(** C4, counterexample to the claim as stated: a gemini text in which no
    done-token pattern occurs, 60 bytes long and ending with a full stop,
    is complete. *)
Lemma isContentComplete_gemini_without_token :
  isContentComplete geminiHandler longSentence "gemini" = true
  ∧ ¬ ∃ p, p ∈ doneTokenPatterns geminiHandler
           ∧ Strings.Contains longSentence p = true.
Proof.
  split; [vm_compute; reflexivity|].
  rewrite <- containsDoneToken_spec. vm_compute. discriminate.
Qed.

(** ** The resume body of Gemini *)

Lemma lastUserIndex_none (contents : list json) (n : nat) :
  Forall (λ e, isUserEntry (Some e) = false) contents →
  lastUserIndex contents n = -1.
Proof.
  intros Hall. induction n as [|i IH]; simpl; [done|].
  destruct (contents !! i) as [e|] eqn:He.
  - rewrite Forall_forall in Hall.
    rewrite (Hall e); [done|]. by eapply list_elem_of_lookup_2.
  - done.
Qed.

Lemma lastUserIndex_found (pre post : list json) (u : json) (n : nat) :
  isUserEntry (Some u) = true →
  Forall (λ e, isUserEntry (Some e) = false) post →
  (length pre < n ≤ length (pre ++ u :: post))%nat →
  lastUserIndex (pre ++ u :: post) n = Z.of_nat (length pre).
Proof.
  intros Hu Hpost. induction n as [|i IH]; intros Hn; [lia|]. simpl.
  destruct (decide (i = length pre)) as [->|Hne].
  - rewrite list_lookup_middle by done. by rewrite Hu.
  - rewrite lookup_app_r by lia.
    destruct (i - length pre)%nat as [|j] eqn:Hj; [lia|]. simpl.
    destruct (post !! j) as [e|] eqn:He.
    + rewrite Forall_forall in Hpost.
      rewrite (Hpost e); [apply IH; lia|].
      by eapply list_elem_of_lookup_2.
    + simpl. apply IH. lia.
Qed.

(** C8. For a Gemini resume body built from an original body whose
    [contents] is an array: when [u] is the last entry whose role is
    ["user"] (no entry after it is a user entry), the new [contents] is the
    original with the model entry [{role: "model", parts: [{text:
    accumulatedText}]}] and then the fixed continuation user entry inserted
    immediately after [u], every other entry in its place and order; when
    no entry is a user entry, both are appended at the end; every other key
    of the body keeps its value. *)
Theorem addGeminiRetryContext_spec (body : gmap string json)
    (contents : list json) (accumulatedText : string) :
  body !! "contents" = Some (JArr contents) →
  (∀ pre u post,
      contents = pre ++ u :: post →
      isUserEntry (Some u) = true →
      Forall (λ e, isUserEntry (Some e) = false) post →
      buildRetryRequestBody body accumulatedText "gemini" !! "contents"
      = Some (JArr (pre ++ [u;
           JObj (<["role" := JStr "model"]>
                  (<["parts" := JArr [JObj {[ "text" := JStr accumulatedText ]}]]> ∅));
           JObj (<["role" := JStr "user"]>
                  (<["parts" := JArr [JObj {[ "text" := JStr continuationText ]}]]> ∅))]
         ++ post)))
  ∧ (Forall (λ e, isUserEntry (Some e) = false) contents →
     buildRetryRequestBody body accumulatedText "gemini" !! "contents"
     = Some (JArr (contents ++ [
           JObj (<["role" := JStr "model"]>
                  (<["parts" := JArr [JObj {[ "text" := JStr accumulatedText ]}]]> ∅));
           JObj (<["role" := JStr "user"]>
                  (<["parts" := JArr [JObj {[ "text" := JStr continuationText ]}]]> ∅))])))
  ∧ (∀ k, k ≠ "contents" →
     buildRetryRequestBody body accumulatedText "gemini" !! k = body !! k).
Proof.
  intros Hc.
  change (buildRetryRequestBody body accumulatedText "gemini")
    with (addGeminiRetryContext body accumulatedText).
  unfold addGeminiRetryContext. rewrite Hc. simpl.
  split; [|split].
  - intros pre u post -> Hu Hpost.
    rewrite (lastUserIndex_found pre post u) by (done || rewrite length_app; simpl; lia).
    destruct (Z.eqb_spec (Z.of_nat (length pre)) (-1)) as [|_]; [lia|]. simpl.
    rewrite lookup_insert_eq. do 2 f_equal.
    replace (Z.to_nat (Z.of_nat (length pre) + 1)) with (S (length pre)) by lia.
    replace (pre ++ u :: post) with ((pre ++ [u]) ++ post) by by rewrite <- app_assoc.
    rewrite take_app_length', drop_app_length' by (rewrite length_app; simpl; lia).
    by rewrite <- !app_assoc.
  - intros Hall. rewrite lastUserIndex_none by done. simpl.
    by rewrite lookup_insert_eq.
  - intros k Hk. case_match; by rewrite lookup_insert_ne.
Qed.

(** C8, witness: a dialogue whose last user entry is the third of four, and
    the body of the scenario with one model entry and no user entry, whose
    new [contents] has length 3. *)
Lemma addGeminiRetryContext_witness :
  buildRetryRequestBody dialogueBody "y" "gemini" !! "contents"
  = Some (JArr [userEntry "q1"; modelEntry "a1"; userEntry "q2";
                modelEntry "y"; userEntry continuationText; modelEntry "a2"])
  ∧ buildRetryRequestBody modelOnlyBody "y" "gemini" !! "contents"
    = Some (JArr [modelEntry "x"; modelEntry "y"; userEntry continuationText])
  ∧ buildRetryRequestBody dialogueBody "y" "gemini" !! "generationConfig"
    = dialogueBody !! "generationConfig".
Proof.
  split; [|split].
  - destruct (addGeminiRetryContext_spec dialogueBody
                [userEntry "q1"; modelEntry "a1"; userEntry "q2"; modelEntry "a2"]
                "y" ltac:(vm_compute; reflexivity)) as (H & _ & _).
    apply (H [userEntry "q1"; modelEntry "a1"] (userEntry "q2") [modelEntry "a2"]).
    + reflexivity.
    + vm_compute; reflexivity.
    + repeat constructor.
  - destruct (addGeminiRetryContext_spec modelOnlyBody [modelEntry "x"]
                "y" ltac:(vm_compute; reflexivity)) as (_ & H & _).
    apply H. repeat constructor.
  - destruct (addGeminiRetryContext_spec dialogueBody
                [userEntry "q1"; modelEntry "a1"; userEntry "q2"; modelEntry "a2"]
                "y" ltac:(vm_compute; reflexivity)) as (_ & _ & H).
    apply H. discriminate.
Defined.

(** ** The completion-marker contract *)

(** C9. For every body that has the snake_case key [system_instruction]
    (with or without a camelCase [systemInstruction]), after
    [injectSystemPrompt] the snake_case key is gone and
    [systemInstruction] is an object whose [parts] is: all snake_case parts
    in their order, then all original camelCase parts in their order, then
    the marker part, which is appended whatever the parts already contain.
    The other fields of the camelCase object and the other keys of the
    body are kept. *)
Theorem injectSystemPrompt_merge (body : gmap string json) (snakeVal : json) :
  body !! "system_instruction" = Some snakeVal →
  injectSystemPrompt body !! "system_instruction" = None
  ∧ (∃ instruction,
        injectSystemPrompt body !! "systemInstruction" = Some (JObj instruction)
        ∧ instruction !! "parts"
          = Some (JArr (partsOf (Some snakeVal)
                        ++ partsOf (body !! "systemInstruction")
                        ++ [newSystemPromptPart]))
        ∧ ∀ k, k ≠ "parts" →
               instruction !! k
               = default ∅ (as_object (body !! "systemInstruction")) !! k)
  ∧ (∀ k, k ≠ "system_instruction" → k ≠ "systemInstruction" →
          injectSystemPrompt body !! k = body !! k).
Proof.
  intros Hs. unfold injectSystemPrompt. rewrite Hs.
  set (camelMap := default ∅ (as_object (body !! "systemInstruction"))).
  set (camelParts := default [] (as_array (camelMap !! "parts"))).
  set (merged := match as_object (Some snakeVal) with
                 | Some snakeMap =>
                   match as_array (snakeMap !! "parts") with
                   | Some snakeParts => snakeParts ++ camelParts
                   | None => camelParts
                   end
                 | None => camelParts
                 end).
  assert (Hm : merged = partsOf (Some snakeVal) ++ partsOf (body !! "systemInstruction")).
  { unfold merged, partsOf.
    replace (match as_object (body !! "systemInstruction") with
             | Some m => default [] (as_array (m !! "parts"))
             | None => []
             end) with camelParts.
    - destruct (as_object (Some snakeVal)) as [snakeMap|]; [|done].
      by destruct (as_array (snakeMap !! "parts")).
    - unfold camelParts, camelMap.
      by destruct (as_object (body !! "systemInstruction")). }
  rewrite lookup_delete_ne, lookup_insert_eq by done. simpl.
  rewrite lookup_insert_eq. simpl.
  split; [|split].
  - rewrite lookup_insert_ne, lookup_delete_eq by done. done.
  - eexists. split; [apply lookup_insert_eq|]. split.
    + rewrite lookup_insert_eq, Hm. by rewrite <- app_assoc.
    + intros k Hk. by rewrite !lookup_insert_ne.
  - intros k Hk1 Hk2.
    by rewrite lookup_insert_ne, lookup_delete_ne, lookup_insert_ne.
Qed.

(** C9, witness: the snake_case parts [s1; s2] come first, then the
    camelCase parts, the second of which is already the marker, then the
    marker once more. *)
Lemma injectSystemPrompt_merge_witness :
  injectSystemPrompt bothInstructionsBody !! "system_instruction" = None
  ∧ ∃ instruction,
      injectSystemPrompt bothInstructionsBody !! "systemInstruction"
      = Some (JObj instruction)
      ∧ instruction !! "parts"
        = Some (JArr [textPart "s1"; textPart "s2"; textPart "c1";
                      newSystemPromptPart; newSystemPromptPart])
      ∧ instruction !! "role" = Some (JStr "system").
Proof.
  assert (Hs : bothInstructionsBody !! "system_instruction"
               = Some (JObj {[ "parts" := JArr [textPart "s1"; textPart "s2"] ]}))
    by (vm_compute; reflexivity).
  destruct (injectSystemPrompt_merge _ _ Hs)
    as (Hgone & (instruction & Hi & Hparts & Hkeep) & _).
  split; [exact Hgone|].
  exists instruction. split; [exact Hi|]. split.
  - exact Hparts.
  - rewrite Hkeep by discriminate. vm_compute; reflexivity.
Defined.

(** ** Frames that do not decode *)

(** C2, as the code has it. A line ["data: "] followed by a payload that
    is not the literal [[DONE]] and that [json.Unmarshal] rejects is
    skipped whole: the loop goes on with the next line from the same
    state, so no text is extracted, no completion check is made and
    nothing is written to the client for that line. *)
Theorem scanLoop_skips_undecodable
    (Unmarshal : string → option (gmap string json))
    (Marshal : gmap string json → option string)
    (sh : StreamHandler) (channelType payload : string)
    (rest : list string) (v : loop_vars) :
  payload ≠ "[DONE]" →
  Unmarshal payload = None →
  scanLoop Unmarshal Marshal sh channelType (("data: " +:+ payload) :: rest) v
  = scanLoop Unmarshal Marshal sh channelType rest v.
Proof.
  intros Hdone Hnone. simpl.
  change (Strings.TrimPrefix _ "data: ") with payload.
  apply String.eqb_neq in Hdone. by rewrite Hdone, Hnone.
Qed.

(** C2, witness: the frame [data: {oops] before a frame that decodes. *)
Lemma scanLoop_skips_undecodable_witness :
  scanLoop Codec.Unmarshal Codec.Marshal genericHandler "generic"
    [brokenFrame; foxFrame] (mkVars Http.new_writer "" "" "")
  = scanLoop Codec.Unmarshal Codec.Marshal genericHandler "generic"
    [foxFrame] (mkVars Http.new_writer "" "" "").
Proof.
  apply (scanLoop_skips_undecodable Codec.Unmarshal Codec.Marshal
           genericHandler "generic" "{oops").
  - discriminate.
  - vm_compute; reflexivity.
Defined.

(** C2, counterexample to the claim as stated: an attempt whose only line
    is [data: {oops] writes nothing to the client, where the claim has the
    line forwarded as it is. *)
Lemma undecodable_frame_not_forwarded :
  Codec.Unmarshal "{oops" = None
  ∧ Http.writes (Http.events (a_writer (
      processStreamAttempt Codec.Unmarshal Codec.Marshal genericHandler
        (mkResp [brokenFrame] false []) "generic" 0
        (mkAttempt Http.new_writer "" 0)).2)) = [].
Proof. split; vm_compute; reflexivity. Qed.

(** ** Done-token removal *)

Lemma removeFirstDoneToken_spec (patterns : list string) (text : string) :
  removeFirstDoneToken patterns text
  = match firstSuffix patterns text with
    | Some p => Strings.TrimSpace (Strings.TrimSuffix text p)
    | None => text
    end.
Proof.
  unfold firstSuffix. induction patterns as [|q ps IH]; simpl; [done|].
  by destruct (Strings.HasSuffix text q).
Qed.

Lemma stake_app (a p : string) : stake (String.length a) (a +:+ p) = a.
Proof. induction a; simpl; [by destruct p|congruence]. Qed.

Lemma length_append (a p : string) :
  String.length (a +:+ p) = (String.length a + String.length p)%nat.
Proof. induction a; simpl; auto. Qed.

Lemma TrimSuffix_app (a p : string) : Strings.TrimSuffix (a +:+ p) p = a.
Proof.
  unfold Strings.TrimSuffix, Strings.HasSuffix.
  rewrite length_append.
  replace (String.length a + String.length p - String.length p)%nat
    with (String.length a) by lia.
  rewrite sdrop_app, String.eqb_refl, stake_app.
  by replace (String.length p <=? String.length a + String.length p)%nat
    with true by (symmetry; apply Nat.leb_le; lia).
Qed.

(** The text is written where it is read. *)
Lemma extract_setGeminiText (data : gmap string json) (cleanText : string) :
  extractGeminiText data ≠ "" →
  extractGeminiText (setGeminiText data cleanText) = cleanText.
Proof.
  unfold extractGeminiText, setGeminiText. intros H.
  destruct (as_array (data !! "candidates")) as [[|candidate0 cs]|]; [done| |done].
  destruct (as_object (Some candidate0)) as [candidate|]; [|done].
  destruct (as_object (candidate !! "content")) as [content|]; [|done].
  destruct (as_array (content !! "parts")) as [[|part0 ps]|]; [done| |done].
  destruct (as_object (Some part0)) as [part|]; [|done].
  rewrite lookup_insert_eq. simpl.
  rewrite lookup_insert_eq. simpl.
  rewrite lookup_insert_eq. simpl.
  by rewrite lookup_insert_eq.
Qed.

(** C3, as the code has it. For a Gemini data frame that decodes and
    carries a text: if no configured pattern is a suffix of the text, the
    frame is forwarded as it is. Otherwise let [p] be the first configured
    pattern, in order, that is a suffix of the text, and [before] the text
    in front of that one occurrence: when [before] does not begin with
    white space, the forwarded frame is the re-encoded frame whose text
    field is [before] with its trailing white space removed. Only that one
    occurrence is removed: what stands in front of it is forwarded even
    when it ends with a done-token itself. *)
Theorem removeDoneTokensFromLine_spec
    (Unmarshal : string → option (gmap string json))
    (Marshal : gmap string json → option string)
    (sh : StreamHandler) (payload : string) (data : gmap string json) :
  payload ≠ "[DONE]" →
  Unmarshal payload = Some data →
  extractGeminiText data ≠ "" →
  (firstSuffix (doneTokenPatterns sh) (extractGeminiText data) = None →
   removeDoneTokensFromLine Unmarshal Marshal sh ("data: " +:+ payload)
   = "data: " +:+ payload)
  ∧ (∀ p before,
       firstSuffix (doneTokenPatterns sh) (extractGeminiText data) = Some p →
       p ≠ "" →
       extractGeminiText data = before +:+ p →
       Strings.TrimLeftFunc before IsSpace = before →
       extractGeminiText
         (setGeminiText data (Strings.TrimRightFunc before IsSpace))
       = Strings.TrimRightFunc before IsSpace
       ∧ removeDoneTokensFromLine Unmarshal Marshal sh ("data: " +:+ payload)
         = match Marshal (setGeminiText data (Strings.TrimRightFunc before IsSpace)) with
           | Some newDataBytes => "data: " +:+ newDataBytes
           | None => "data: " +:+ payload
           end).
Proof.
  intros Hdone Hdata Htext.
  assert (Hline : removeDoneTokensFromLine Unmarshal Marshal sh ("data: " +:+ payload)
    = let text := extractGeminiText data in
      let cleanText := RemoveDoneTokensFromText sh text in
      if negb (String.eqb cleanText text) then
        match Marshal (setGeminiText data cleanText) with
        | Some newDataBytes => "data: " +:+ newDataBytes
        | None => "data: " +:+ payload
        end
      else "data: " +:+ payload).
  { unfold removeDoneTokensFromLine.
    change (Strings.HasPrefix ("data: " +:+ payload) "data: ") with true.
    change (Strings.TrimPrefix ("data: " +:+ payload) "data: ") with payload.
    apply String.eqb_neq in Hdone, Htext. simpl negb.
    by rewrite Hdone, Hdata, Htext. }
  rewrite Hline. unfold RemoveDoneTokensFromText.
  rewrite removeFirstDoneToken_spec. simpl.
  split.
  - intros ->. by rewrite String.eqb_refl.
  - intros p before -> Hp Hbefore Hlead. split; [by apply extract_setGeminiText|].
    rewrite Hbefore, TrimSuffix_app. unfold Strings.TrimSpace. rewrite Hlead.
    assert (Hlen : (String.length (Strings.TrimRightFunc before IsSpace)
                    < String.length (before +:+ p))%nat).
    { pose proof (length_TrimRightFunc IsSpace before).
      rewrite length_append. destruct p; [done|]. simpl. lia. }
    destruct (String.eqb_spec (Strings.TrimRightFunc before IsSpace) (before +:+ p))
      as [Heq|_]; [rewrite Heq in Hlen; lia|].
    done.
Qed.

(** C3, witness: the frame of the scenario, whose text ends with [[done]]
    after a space, is forwarded with the text ["jumps over the lazy dog."];
    the frame before it, which ends with no pattern, is forwarded as is. *)
Lemma removeDoneTokensFromLine_witness :
  removeDoneTokensFromLine Codec.Unmarshal Codec.Marshal geminiHandler
    ("data: " +:+ foxPayload) = "data: " +:+ foxPayload
  ∧ extractGeminiText (setGeminiText (decoded dogPayload) "jumps over the lazy dog.")
    = "jumps over the lazy dog."
  ∧ removeDoneTokensFromLine Codec.Unmarshal Codec.Marshal geminiHandler
      ("data: " +:+ dogPayload) = "data: " +:+ strippedDogPayload.
Proof.
  split.
  - refine (proj1 (removeDoneTokensFromLine_spec Codec.Unmarshal Codec.Marshal
              geminiHandler foxPayload (decoded foxPayload) _ _ _) _).
    + discriminate.
    + vm_compute; reflexivity.
    + vm_compute; discriminate.
    + vm_compute; reflexivity.
  - refine (proj2 (removeDoneTokensFromLine_spec Codec.Unmarshal Codec.Marshal
              geminiHandler dogPayload (decoded dogPayload) _ _ _)
              "[done]" "jumps over the lazy dog. " _ _ _ _).
    + discriminate.
    + vm_compute; reflexivity.
    + vm_compute; discriminate.
    + vm_compute; reflexivity.
    + discriminate.
    + vm_compute; reflexivity.
    + vm_compute; reflexivity.
Defined.

(** C3, counterexample to the claim as stated: the frame whose text is
    ["All done [done]"] is forwarded with the text ["All done"], which ends
    with the configured done-token [done]. *)
Lemma forwarded_text_ends_with_done_token :
  removeDoneTokensFromLine Codec.Unmarshal Codec.Marshal geminiHandler allDoneFrame
  = jq "data: {'candidates':[{'content':{'parts':[{'text':'All done'}]}}]}"
  ∧ "done" ∈ doneTokenPatterns geminiHandler
  ∧ Strings.HasSuffix "All done" "done" = true.
Proof.
  split; [vm_compute; reflexivity|].
  split; [|vm_compute; reflexivity].
  vm_compute. do 2 right. left.
Qed.

(** ** The trace of a session *)

Lemma sapp_nil_r (s : string) : s +:+ "" = s.
Proof. induction s as [|c s IH]; [done|]. by rewrite sapp_cons, IH. Qed.

Lemma sapp_assoc (a b c : string) : (a +:+ b) +:+ c = a +:+ b +:+ c.
Proof. induction a as [|x a IH]; [done|]. by rewrite !sapp_cons, IH. Qed.

Lemma concatText_cons (x : string) (l : list string) :
  concatText (x :: l) = x +:+ concatText l.
Proof. reflexivity. Qed.

Lemma concatText_app (l1 l2 : list string) :
  concatText (l1 ++ l2) = concatText l1 +:+ concatText l2.
Proof.
  induction l1 as [|x l1 IH]; [done|].
  by rewrite <- app_comm_cons, !concatText_cons, IH, sapp_assoc.
Qed.

Lemma received_app (evs1 evs2 : list Http.event) :
  Http.received (evs1 ++ evs2) = fold_left Http.observe evs2 (Http.received evs1).
Proof. apply fold_left_app. Qed.

Lemma write_events (data : string) (w w' : Http.ResponseWriter) :
  Http.write data w = Some w' →
  Http.events w' = Http.events w ++ [Http.EvWrite data]
  ∧ Http.flusher w' = Http.flusher w.
Proof.
  unfold Http.write. destruct (Http.capacity w) as [[|n]|]; intros H;
    simplify_eq; done.
Qed.

Section Trace.

Variable Unmarshal : string -> option (gmap string json).
Variable Marshal : gmap string json -> option string.
Variable sh : StreamHandler.
Variable channelType : string.

Local Abbreviation scan := (scanLoop Unmarshal Marshal sh channelType).
Local Abbreviation frames := (frameEvents Unmarshal Marshal sh channelType).
Local Abbreviation fwd := (forwardedLine Unmarshal Marshal sh channelType).
Local Abbreviation chunkOf := (textChunk Unmarshal channelType).

(** A line without the prefix is handed on by [removeDoneTokensFromLine]
    as it is, so both branches of the loop write [forwardedLine]. *)
Lemma forwardedLine_other (line : string) :
  Strings.HasPrefix line "data: " = false →
  fwd line = line.
Proof.
  intros H. unfold forwardedLine, removeDoneTokensFromLine. rewrite H.
  by destruct (String.eqb channelType "gemini").
Qed.

Lemma frameEvents_cons (line : string) (forwarded : list string) :
  frames (line :: forwarded)
  = [Http.EvWrite (frame (fwd line));
     Http.EvFlush] ++ frames forwarded.
Proof. reflexivity. Qed.

(** The scanning loop appends to the trace the frames of the lines it
    forwards, and to the accumulated text the chunks of those lines, as
    received; when a write fails, the chunk of the line that was not
    written has been appended too. *)
Lemma scanLoop_trace (input : list string) (v v' : loop_vars) (exit : loop_exit) :
  scan input v = (exit, v') →
  ∃ forwarded extra,
    forwarded `sublist_of` input
    ∧ Http.events (v_writer v') = Http.events (v_writer v) ++ frames forwarded
    ∧ v_accumulatedText v'
      = v_accumulatedText v +:+ concatText (chunkOf <$> forwarded) +:+ extra
    ∧ ((∀ c, exit ≠ Returned c (Some ErrWriteToClient)) → extra = "")
    ∧ Http.flusher (v_writer v') = Http.flusher (v_writer v).
Proof.
  revert v. induction input as [|line rest IH]; intros v Hrun; cbn [scanLoop] in Hrun.
  { simplify_eq. exists [], "".
    cbn [fmap list_fmap concatText foldr frameEvents mbind list_bind].
    rewrite app_nil_r, !sapp_nil_r. repeat split; done. }
  assert (Hskip : scan rest v = (exit, v') →
    ∃ forwarded extra,
      forwarded `sublist_of` line :: rest
      ∧ Http.events (v_writer v') = Http.events (v_writer v) ++ frames forwarded
      ∧ v_accumulatedText v'
        = v_accumulatedText v +:+ concatText (chunkOf <$> forwarded) +:+ extra
      ∧ ((∀ c, exit ≠ Returned c (Some ErrWriteToClient)) → extra = "")
      ∧ Http.flusher (v_writer v') = Http.flusher (v_writer v)).
  { intros H. apply IH in H as (fl & extra & Hsub & H).
    exists fl, extra. split; [by apply sublist_cons|done]. }
  destruct (String.eqb line ""); [by apply Hskip|].
  destruct (Strings.HasPrefix line "data: ") eqn:Hprefix.
  - destruct (String.eqb (Strings.TrimPrefix line "data: ") "[DONE]").
    { simplify_eq. exists [], "".
      cbn [fmap list_fmap concatText foldr frameEvents mbind list_bind].
      rewrite app_nil_r, !sapp_nil_r. repeat split; auto using sublist_nil_l. }
    destruct (Unmarshal (Strings.TrimPrefix line "data: ")) as [data|] eqn:Hdata;
      [|by apply Hskip].
    clear Hskip.
    set (chunk := extractTextFromData data channelType) in Hrun.
    assert (Hchunk : chunkOf line = chunk).
    { unfold textChunk. by rewrite Hprefix, Hdata. }
    set (v1 := if negb (String.eqb chunk "") then _ else v) in Hrun.
    assert (Hv1 : v_writer v1 = v_writer v
                  ∧ v_accumulatedText v1 = v_accumulatedText v +:+ chunk).
    { unfold v1. destruct (String.eqb_spec chunk "") as [Heq|]; simpl; [|done].
      by rewrite Heq, sapp_nil_r. }
    destruct Hv1 as [Hw1 Ha1].
    change (if String.eqb channelType "gemini"
            then removeDoneTokensFromLine Unmarshal Marshal sh line else line)
      with (fwd line) in Hrun.
    destruct (Http.write _ (v_writer v1)) as [w|] eqn:Hwrite.
    + apply write_events in Hwrite as [Hev Hfl]. cbn [v_accumulatedText] in Hrun.
      destruct (isStreamComplete sh data channelType (v_accumulatedText v1)).
      * simplify_eq. exists [line], "".
        rewrite frameEvents_cons, fmap_cons, concatText_cons, Hchunk.
        cbn [v_writer v_accumulatedText Http.flush Http.record Http.events
             Http.flusher fmap list_fmap concatText foldr frameEvents mbind list_bind].
        rewrite Hev, Hw1, Ha1, <- app_assoc, app_nil_r, !sapp_nil_r.
        repeat split; try done.
        -- apply sublist_skip, sublist_nil_l.
        -- by rewrite Hfl, Hw1.
      * apply IH in Hrun as (fl & extra & Hsub & Hev' & Hacc & Hextra & Hfl').
        cbn [v_writer v_accumulatedText Http.flush Http.record Http.events
             Http.flusher] in Hev', Hacc, Hfl'.
        exists (line :: fl), extra.
        rewrite frameEvents_cons, fmap_cons, concatText_cons, Hchunk.
        rewrite Hev', Hev, Hw1, Hacc, Ha1, <- !app_assoc, !sapp_assoc.
        repeat split; try done.
        -- by apply sublist_skip.
        -- by rewrite Hfl', Hfl, Hw1.
    + simplify_eq. exists [], (extractTextFromData data channelType).
      cbn [fmap list_fmap concatText foldr frameEvents mbind list_bind].
      rewrite app_nil_r, Hw1, Ha1.
      repeat split; try done; [apply sublist_nil_l|].
      intros H. by destruct (H false).
  - clear Hskip. rewrite <- (forwardedLine_other line Hprefix) in Hrun at 1.
    assert (Hchunk : chunkOf line = "").
    { unfold textChunk. by rewrite Hprefix. }
    destruct (Http.write _ (v_writer v)) as [w|] eqn:Hwrite.
    + apply write_events in Hwrite as [Hev Hfl].
      apply IH in Hrun as (fl & extra & Hsub & Hev' & Hacc & Hextra & Hfl').
      cbn [v_writer v_accumulatedText Http.flush Http.record Http.events
           Http.flusher] in Hev', Hacc, Hfl'.
      exists (line :: fl), extra.
      rewrite frameEvents_cons, fmap_cons, concatText_cons, Hchunk.
      rewrite Hev', Hev, Hacc, <- !app_assoc.
      repeat split; try done.
      * by apply sublist_skip.
      * by rewrite Hfl', Hfl.
    + simplify_eq. exists [], "".
      cbn [fmap list_fmap concatText foldr frameEvents mbind list_bind].
      rewrite app_nil_r, !sapp_nil_r. repeat split; auto using sublist_nil_l.
Qed.

Lemma scanLoop_error (input : list string) (v v' : loop_vars)
    (cleanExit : bool) (e : error) :
  scan input v = (Returned cleanExit (Some e), v') → e = ErrWriteToClient.
Proof.
  revert v. induction input as [|line rest IH]; intros v Hrun;
    cbn [scanLoop] in Hrun; [done|].
  repeat (case_match; simplify_eq; eauto).
Qed.

Lemma setStreamingHeaders_events (w : Http.ResponseWriter) :
  Http.events (setStreamingHeaders w) = Http.events w ++ sseHeaderEvents
  ∧ Http.flusher (setStreamingHeaders w) = Http.flusher w.
Proof.
  unfold setStreamingHeaders, Http.header_set, Http.record. simpl.
  by rewrite <- !app_assoc.
Qed.

(** One attempt sets the four headers, then forwards lines. *)
Lemma processStreamAttempt_trace (resp : Response) (attempt : Z)
    (st st' : attempt_state) (cleanExit : bool) (err : option error) :
  processStreamAttempt Unmarshal Marshal sh resp channelType attempt st
  = (cleanExit, err, st') →
  ∃ forwarded extra,
    forwarded `sublist_of` lines resp
    ∧ Http.events (a_writer st')
      = Http.events (a_writer st) ++ sseHeaderEvents ++ frames forwarded
    ∧ a_accumulatedText st'
      = a_accumulatedText st +:+ concatText (chunkOf <$> forwarded) +:+ extra
    ∧ (err ≠ Some ErrWriteToClient → extra = "")
    ∧ (∀ e, err = Some e → e = ErrStreamingNotSupported ∨ e = ErrWriteToClient)
    ∧ Http.flusher (a_writer st') = Http.flusher (a_writer st).
Proof.
  unfold processStreamAttempt. intros Hrun.
  destruct (setStreamingHeaders_events (a_writer st)) as [Hset Hflusher].
  destruct (Http.flusher (setStreamingHeaders (a_writer st))) eqn:Hf;
    cbn [negb] in Hrun.
  2:{ simplify_eq. exists [], "".
      cbn [a_writer a_accumulatedText fmap list_fmap concatText foldr
           frameEvents mbind list_bind].
      rewrite Hset, app_nil_r, !sapp_nil_r.
      repeat split; eauto using sublist_nil_l.
      intros e [= <-]. by left. }
  destruct (scanLoop _ _ _ _ _ _) as [exit v] eqn:Hscan.
  pose proof (scanLoop_trace _ _ _ _ Hscan)
    as (fl & extra & Hsub & Hev & Hacc & Hextra & Hfl).
  cbn [v_writer v_accumulatedText] in Hev, Hacc, Hfl.
  assert (Hshape : ∀ streak,
    Http.events (a_writer (mkAttempt (v_writer v) (v_accumulatedText v) streak))
    = Http.events (a_writer st) ++ sseHeaderEvents ++ frames fl
    ∧ a_accumulatedText (mkAttempt (v_writer v) (v_accumulatedText v) streak)
      = a_accumulatedText st +:+ concatText (chunkOf <$> fl) +:+ extra
    ∧ Http.flusher (a_writer (mkAttempt (v_writer v) (v_accumulatedText v) streak))
      = Http.flusher (a_writer st)).
  { intros streak. cbn [a_writer a_accumulatedText].
    rewrite Hev, Hset, Hacc, <- app_assoc. repeat split; congruence. }
  destruct exit as [c e|].
  - simplify_eq. destruct (Hshape (a_resumePunctStreak st)) as (? & ? & ?).
    exists fl, extra. repeat split; try done.
    + intros Hne. apply Hextra. intros c' Heq. simplify_eq.
    + intros e ->. right. by eapply scanLoop_error.
  - exists fl, extra.
    assert (extra = "") as Hnone by (apply Hextra; intros; discriminate).
    repeat case_match; simplify_eq;
      match goal with |- context [mkAttempt _ _ ?k] =>
        destruct (Hshape k) as (? & ? & ?) end;
      repeat split; try done.
Qed.

Lemma writeRetryError_events (w w' : Http.ResponseWriter) (e : error) :
  writeRetryError Marshal sh w = (w', e) →
  Http.events w' = Http.events w ++ retryErrorEvents Marshal sh (Some e)
  ∧ (e = ErrRetryLimitExceeded ∨ e = ErrWriteErrorResponse)
  ∧ (e = ErrRetryLimitExceeded ↔ Http.capacity w ≠ Some O).
Proof.
  unfold writeRetryError, Http.write, Http.write_header, Http.header_set,
    Http.record. simpl.
  destruct (Http.capacity w) as [[|n]|]; intros H; simplify_eq; simpl;
    rewrite <- ?app_assoc; repeat split; eauto; try done.
Qed.

(** One pass of the retry loop. *)
Lemma iteration_trace (retryRequestFunc : RetryFunc) (s : session) :
  match iteration Unmarshal Marshal sh channelType retryRequestFunc s with
  | inl s' =>
    ∃ forwarded,
      forwarded `sublist_of` lines (s_resp s)
      ∧ Http.events (a_writer (s_state s'))
      = Http.events (a_writer (s_state s)) ++ sseHeaderEvents ++ frames forwarded
      ∧ a_accumulatedText (s_state s')
        = a_accumulatedText (s_state s) +:+ concatText (chunkOf <$> forwarded)
      ∧ consecutiveRetryCount s' = consecutiveRetryCount s + 1
      ∧ consecutiveRetryCount s < maxRetries sh
      ∧ attemptLog s'
        = attemptLog s ++ [(consecutiveRetryCount s + 1, maxRetries sh + 1)]
  | inr (err, s') =>
    ∃ forwarded extra,
      forwarded `sublist_of` lines (s_resp s)
      ∧ Http.events (a_writer (s_state s'))
      = Http.events (a_writer (s_state s)) ++ sseHeaderEvents ++ frames forwarded
        ++ retryErrorEvents Marshal sh err
      ∧ a_accumulatedText (s_state s')
        = a_accumulatedText (s_state s) +:+ concatText (chunkOf <$> forwarded)
          +:+ extra
      ∧ (err ≠ Some ErrWriteToClient → extra = "")
      ∧ (consecutiveRetryCount s' = consecutiveRetryCount s
         ∨ (consecutiveRetryCount s' = consecutiveRetryCount s + 1
            ∧ consecutiveRetryCount s < maxRetries sh))
      ∧ attemptLog s'
        = attemptLog s ++ [(consecutiveRetryCount s + 1, maxRetries sh + 1)]
  end.
Proof.
  unfold iteration.
  destruct (processStreamAttempt _ _ _ _ _ _ _) as [[cleanExit err] st] eqn:Hrun.
  apply processStreamAttempt_trace in Hrun
    as (fl & extra & Hsub & Hev & Hacc & Hextra & Herr & _).
  destruct err as [e|].
  { exists fl, extra. cbn [s_state consecutiveRetryCount attemptLog].
    destruct (Herr e eq_refl) as [-> | ->]; cbn [retryErrorEvents];
      rewrite app_nil_r; repeat split; eauto. }
  assert (extra = "") as -> by by apply Hextra.
  rewrite sapp_nil_r in Hacc.
  destruct cleanExit.
  { exists fl, "". cbn [s_state consecutiveRetryCount attemptLog retryErrorEvents].
    rewrite app_nil_r, sapp_nil_r. repeat split; eauto. }
  cbn [consecutiveRetryCount].
  destruct (Z.leb_spec (maxRetries sh) (consecutiveRetryCount s)) as [Hle|Hlt].
  - destruct (writeRetryError Marshal sh (a_writer st)) as [w e] eqn:Hwrite.
    apply writeRetryError_events in Hwrite as (Hev' & _ & _).
    exists fl, "". cbn [s_state a_writer a_accumulatedText consecutiveRetryCount attemptLog].
    rewrite Hev', Hev, <- !app_assoc, sapp_nil_r. repeat split; eauto.
  - destruct (retryRequestFunc _ _) as [newResp|cause].
    + exists fl. cbn [s_state consecutiveRetryCount attemptLog]. repeat split; eauto.
    + exists fl, "". cbn [s_state consecutiveRetryCount attemptLog retryErrorEvents].
      rewrite app_nil_r, sapp_nil_r. repeat split; eauto.
Qed.

Lemma attemptEntries_S (c : Z) (n : nat) :
  attemptEntries sh c (S n)
  = (c + 1, maxRetries sh + 1) :: attemptEntries sh (c + 1) n.
Proof.
  unfold attemptEntries. cbn [seq fmap list_fmap]. f_equal.
  - f_equal. lia.
  - rewrite <- fmap_S_seq, <- list_fmap_compose.
    apply list_fmap_ext. intros _ i _. simpl. f_equal. lia.
Qed.

(** The whole loop: every pass sets the headers and forwards lines; the
    last one may add the calls of [writeRetryError]. *)
Lemma loop_trace (retryRequestFunc : RetryFunc) (fuel : nat) (s s' : session)
    (err : option error) :
  loop Unmarshal Marshal sh fuel channelType retryRequestFunc s = Some (err, s') →
  ∃ (attempts : list (list string)) (extra : string),
    Forall2 (λ forwarded r, forwarded `sublist_of` lines r) attempts
      (attemptedResponses Unmarshal Marshal sh fuel channelType retryRequestFunc s)
    ∧ Http.events (a_writer (s_state s'))
      = Http.events (a_writer (s_state s))
        ++ (attempts ≫= λ forwarded, sseHeaderEvents ++ frames forwarded)
        ++ retryErrorEvents Marshal sh err
    ∧ a_accumulatedText (s_state s')
      = a_accumulatedText (s_state s)
        +:+ concatText (chunkOf <$> concat attempts) +:+ extra
    ∧ (err ≠ Some ErrWriteToClient → extra = "")
    ∧ attemptLog s'
      = attemptLog s ++ attemptEntries sh (consecutiveRetryCount s) (length attempts)
    ∧ (0 < length attempts)%nat
    ∧ consecutiveRetryCount s + Z.of_nat (length attempts) - 1
      ≤ consecutiveRetryCount s'
      ≤ consecutiveRetryCount s + Z.of_nat (length attempts)
    ∧ (consecutiveRetryCount s ≤ maxRetries sh →
       consecutiveRetryCount s' ≤ maxRetries sh).
Proof.
  revert s. induction fuel as [|fuel IH]; intros s Hrun; [done|].
  cbn [loop attemptedResponses] in *.
  pose proof (iteration_trace retryRequestFunc s) as Hstep.
  destruct (iteration _ _ _ _ _ s) as [s1|[err1 s1]].
  - destruct Hstep as (fl & Hsub & Hev & Hacc & Hcount & Hlt & Hlog).
    apply IH in Hrun
      as (attempts & extra & Hall & Hev' & Hacc' & Hextra & Hlog' & Hpos & Hc & Hmax).
    exists (fl :: attempts), extra.
    cbn [mbind list_bind concat length]. rewrite attemptEntries_S.
    rewrite Hev', Hev, Hacc', Hacc, Hlog', Hlog, Hcount.
    rewrite fmap_app, concatText_app, <- !app_assoc, !sapp_assoc.
    repeat split; try done; try lia. by constructor.
  - simplify_eq.
    destruct Hstep as (fl & extra & Hsub & Hev & Hacc & Hextra & Hcount & Hlog).
    exists [fl], extra.
    cbn [mbind list_bind concat length]. rewrite attemptEntries_S.
    rewrite Hev, Hacc, Hlog, !app_nil_r, <- !app_assoc.
    repeat split; try done; try lia. by repeat constructor.
Qed.

(** The loop returns within [maxRetries - consecutiveRetryCount + 1]
    passes. *)
Lemma loop_total (retryRequestFunc : RetryFunc) (fuel : nat) (s : session) :
  (Z.to_nat (maxRetries sh - consecutiveRetryCount s) < fuel)%nat →
  ∃ result,
    loop Unmarshal Marshal sh fuel channelType retryRequestFunc s = Some result.
Proof.
  revert s. induction fuel as [|fuel IH]; intros s Hfuel; [lia|].
  cbn [loop].
  pose proof (iteration_trace retryRequestFunc s) as Hstep.
  destruct (iteration _ _ _ _ _ s) as [s1|result]; [|by eexists].
  destruct Hstep as (_ & _ & _ & _ & Hcount & Hlt & _).
  apply IH. lia.
Qed.

End Trace.

(** ** The retry bound *)

Lemma retryCounts_attemptEntries (sh : StreamHandler) (n : nat) :
  retryCounts (attemptEntries sh 0 n) = Z.of_nat <$> seq 0 n.
Proof.
  unfold retryCounts, attemptEntries. rewrite <- list_fmap_compose.
  apply list_fmap_ext. intros _ i _. simpl. lia.
Qed.

(** The loop of [HandleStreamingResponse] returns. *)
Lemma HandleStreamingResponse_returns
    (Unmarshal : string → option (gmap string json))
    (Marshal : gmap string json → option string)
    (sh : StreamHandler) (resp : Response) (writer : Http.ResponseWriter)
    (channelType : string) (retryRequestFunc : RetryFunc) :
  ∃ err s,
    HandleStreamingResponse Unmarshal Marshal sh resp writer channelType
      retryRequestFunc = Some (err, s).
Proof.
  unfold HandleStreamingResponse.
  destruct (loop_total Unmarshal Marshal sh channelType retryRequestFunc
              (S (Z.to_nat (maxRetries sh))) (startSession resp writer))
    as [[err s] H]; [simpl; lia|eauto].
Qed.

(** C6. For every configuration, the handler built from it, and every
    session (first response, writer, channel type, upstream behaviour):
    [HandleStreamingResponse] returns; it has made at least one and at most
    [maxRetries + 1] stream attempts; the values of
    [consecutiveRetryCount] at the start of the attempts are 0, 1, 2, ...
    in this order, hence never decreasing; none of them, and not the value
    at exit, exceeds [maxRetries]. *)
Theorem retry_bound
    (Unmarshal : string → option (gmap string json))
    (Marshal : gmap string json → option string)
    (config : StreamConfig) (resp : Response) (writer : Http.ResponseWriter)
    (channelType : string) (retryRequestFunc : RetryFunc) :
  ∃ err s,
    HandleStreamingResponse Unmarshal Marshal (NewStreamHandler config)
      resp writer channelType retryRequestFunc = Some (err, s)
    ∧ (1 ≤ length (attemptLog s))%nat
    ∧ Z.of_nat (length (attemptLog s)) ≤ maxRetries (NewStreamHandler config) + 1
    ∧ retryCounts (attemptLog s) = Z.of_nat <$> seq 0 (length (attemptLog s))
    ∧ (∀ (i j : nat) (a b : Z),
         (i ≤ j)%nat →
         retryCounts (attemptLog s) !! i = Some a →
         retryCounts (attemptLog s) !! j = Some b →
         a ≤ b)
    ∧ (∀ c, c ∈ retryCounts (attemptLog s) → 0 ≤ c ≤ consecutiveRetryCount s)
    ∧ consecutiveRetryCount s ≤ maxRetries (NewStreamHandler config).
Proof.
  set (sh := NewStreamHandler config).
  destruct (HandleStreamingResponse_returns Unmarshal Marshal sh resp writer
              channelType retryRequestFunc) as (err & s & Hrun).
  exists err, s. split; [done|].
  unfold HandleStreamingResponse in Hrun.
  apply loop_trace in Hrun
    as (attempts & _ & _ & _ & _ & _ & Hlog & Hpos & Hcount & Hmax).
  cbn [startSession attemptLog consecutiveRetryCount] in Hlog, Hcount, Hmax.
  rewrite app_nil_l in Hlog.
  pose proof (NewStreamHandler_positive config) as HM. fold sh in HM.
  assert (Hlen : length (attemptLog s) = length attempts).
  { rewrite Hlog. unfold attemptEntries. by rewrite length_fmap, length_seq. }
  assert (Hcounts : retryCounts (attemptLog s) = Z.of_nat <$> seq 0 (length attempts)).
  { rewrite Hlog. apply retryCounts_attemptEntries. }
  rewrite Hlen, Hcounts.
  split; [lia|]. split; [lia|]. split; [done|]. split; [|split; [|lia]].
  - intros i j a b Hij Ha Hb.
    apply list_lookup_fmap_Some in Ha as (i' & -> & Hi).
    apply list_lookup_fmap_Some in Hb as (j' & -> & Hj).
    apply lookup_seq in Hi as [-> _]. apply lookup_seq in Hj as [-> _]. lia.
  - intros c Hc. apply list_elem_of_fmap in Hc as (i & -> & Hi).
    apply elem_of_seq in Hi. lia.
Qed.

(** ** The accumulated text *)

Lemma writes_app (evs1 evs2 : list Http.event) :
  Http.writes (evs1 ++ evs2) = Http.writes evs1 ++ Http.writes evs2.
Proof. apply omap_app. Qed.

Section Forwarded.

Variable Unmarshal : string -> option (gmap string json).
Variable Marshal : gmap string json -> option string.
Variable sh : StreamHandler.
Variable channelType : string.

Local Abbreviation frames := (frameEvents Unmarshal Marshal sh channelType).
Local Abbreviation fwd := (forwardedLine Unmarshal Marshal sh channelType).

Lemma writes_frameEvents (forwarded : list string) :
  Http.writes (frames forwarded) = (λ line, frame (fwd line)) <$> forwarded.
Proof.
  induction forwarded as [|line fl IH]; [done|].
  rewrite frameEvents_cons, writes_app, IH. done.
Qed.

Lemma writes_attempts (attempts : list (list string)) :
  Http.writes (attempts ≫= λ forwarded, sseHeaderEvents ++ frames forwarded)
  = (λ line, frame (fwd line)) <$> concat attempts.
Proof.
  induction attempts as [|fl attempts IH]; [done|].
  cbn [mbind list_bind concat].
  rewrite !writes_app, writes_frameEvents, IH, fmap_app. done.
Qed.

End Forwarded.

(** C1, as the code has it. In every intelligent streaming session that
    returns without a failed write to the client, each attempt forwards
    some of the lines of its upstream response, in their order, such that
    the frames written to the client are exactly these lines, attempt
    after attempt (for Gemini each passed through
    [removeDoneTokensFromLine], for the other channels unchanged),
    followed by the error body when the retry limit was exceeded, and
    [accumulatedText] at the end of the session is the concatenation of
    the text chunks of these lines as they were received. For Gemini the
    chunk is taken before done-token stripping, so a trailing done-token
    stays in [accumulatedText]. *)
Theorem accumulatedText_spec
    (Unmarshal : string → option (gmap string json))
    (Marshal : gmap string json → option string)
    (sh : StreamHandler) (resp : Response) (writer : Http.ResponseWriter)
    (channelType : string) (retryRequestFunc : RetryFunc)
    (err : option error) (s : session) :
  HandleStreamingResponse Unmarshal Marshal sh resp writer channelType
    retryRequestFunc = Some (err, s) →
  err ≠ Some ErrWriteToClient →
  ∃ attempts : list (list string),
    Forall2 (λ forwarded r, forwarded `sublist_of` lines r) attempts
      (upstreamResponses Unmarshal Marshal sh resp writer channelType
         retryRequestFunc)
    ∧ Http.writes (Http.events (a_writer (s_state s)))
      = Http.writes (Http.events writer)
        ++ ((λ line, frame (forwardedLine Unmarshal Marshal sh channelType line))
            <$> concat attempts)
        ++ Http.writes (retryErrorEvents Marshal sh err)
    ∧ a_accumulatedText (s_state s)
      = concatText (textChunk Unmarshal channelType <$> concat attempts)
    ∧ (channelType ≠ "gemini" →
       (λ line, frame (forwardedLine Unmarshal Marshal sh channelType line))
       <$> concat attempts = frame <$> concat attempts).
Proof.
  intros Hrun Herr. unfold HandleStreamingResponse in Hrun.
  apply loop_trace in Hrun as (attempts & extra & Hall & Hev & Hacc & Hextra & _).
  cbn [startSession s_state a_writer a_accumulatedText] in Hev, Hacc.
  rewrite (Hextra Herr), sapp_nil_r in Hacc.
  exists attempts. split; [exact Hall|]. split; [|split].
  - by rewrite Hev, !writes_app, writes_attempts.
  - exact Hacc.
  - intros Hct. apply list_fmap_ext. intros _ line _. unfold forwardedLine.
    apply String.eqb_neq in Hct. by rewrite Hct.
Qed.

(** C1, witness: the session of the scenario "Gemini truncation then
    resume", which ends without error. *)
Lemma accumulatedText_witness :
  ∃ attempts : list (list string),
    Forall2 (λ forwarded r, forwarded `sublist_of` lines r) attempts
      (upstreamResponses Codec.Unmarshal Codec.Marshal geminiHandler
         foxResponse Http.new_writer "gemini" resumeWithDog)
    ∧ Http.writes (Http.events (a_writer (s_state (finalSession foxDogRun))))
      = (λ line, frame (forwardedLine Codec.Unmarshal Codec.Marshal
                          geminiHandler "gemini" line)) <$> concat attempts
    ∧ a_accumulatedText (s_state (finalSession foxDogRun))
      = concatText (textChunk Codec.Unmarshal "gemini" <$> concat attempts).
Proof.
  destruct (accumulatedText_spec Codec.Unmarshal Codec.Marshal geminiHandler
              foxResponse Http.new_writer "gemini" resumeWithDog
              (finalError foxDogRun) (finalSession foxDogRun))
    as (attempts & Hall & Hwrites & Hacc & _).
  - vm_compute; reflexivity.
  - vm_compute; discriminate.
  - exists attempts. split; [exact Hall|]. split; [|exact Hacc].
    rewrite Hwrites. change (finalError foxDogRun) with (@None error).
    apply app_nil_r.
Defined.

(** C1, counterexample to the claim as stated: in the scenario "Gemini
    truncation then resume" the session ends without error, the text the
    client has received in the forwarded frames is ["The quick brown fox
    jumps over the lazy dog."], and [accumulatedText] is a different text,
    which ends with the done-token. *)
Lemma accumulatedText_keeps_done_token :
  finalError foxDogRun = None
  ∧ Http.writes (Http.events (finalWriter foxDogRun))
    = [frame foxFrame; frame ("data: " +:+ strippedDogPayload)]
  ∧ emittedText Codec.Unmarshal "gemini" (finalWriter foxDogRun)
    = "The quick brown fox jumps over the lazy dog."
  ∧ a_accumulatedText (s_state (finalSession foxDogRun))
    = "The quick brown fox jumps over the lazy dog. [done]"
  ∧ a_accumulatedText (s_state (finalSession foxDogRun))
    ≠ emittedText Codec.Unmarshal "gemini" (finalWriter foxDogRun).
Proof.
  repeat split; try (vm_compute; reflexivity).
  vm_compute. discriminate.
Qed.

(** ** The response headers *)

Lemma countSet_app (key value : string) (evs1 evs2 : list Http.event) :
  countSet key value (evs1 ++ evs2)
  = (countSet key value evs1 + countSet key value evs2)%nat.
Proof. unfold countSet. by rewrite List.filter_app, length_app. Qed.

Lemma countSet_body (key value : string) (evs : list Http.event) :
  Forall (λ e, Http.is_body_event e = true) evs → countSet key value evs = 0%nat.
Proof.
  unfold countSet. induction 1 as [|e evs He _ IH]; [done|].
  destruct e; simpl in *; done.
Qed.

Lemma simpleLoop_events (input : list (string * option bool))
    (w : Http.ResponseWriter) :
  ∃ evs, Http.events (simpleLoop input w) = Http.events w ++ evs
         ∧ Forall (λ e, Http.is_body_event e = true) evs.
Proof.
  revert w. induction input as [|[data err] rest IH]; intros w; cbn [simpleLoop].
  { exists []. by rewrite app_nil_r. }
  assert (Hstay : ∃ evs, Http.events w = Http.events w ++ evs
                         ∧ Forall (λ e, Http.is_body_event e = true) evs).
  { exists []. by rewrite app_nil_r. }
  destruct (0 <? String.length data)%nat.
  - destruct (Http.write data w) as [w1|] eqn:Hw; cbn [fmap option_fmap option_map];
      [|done].
    apply write_events in Hw as [Hev _].
    destruct err as [e|].
    + exists [Http.EvWrite data; Http.EvFlush]. cbn [Http.flush Http.record Http.events].
      rewrite Hev, <- app_assoc. split; [done|]. by repeat constructor.
    + destruct (IH (Http.flush w1)) as (evs & Hevs & Hbody).
      exists ([Http.EvWrite data; Http.EvFlush] ++ evs).
      rewrite Hevs. cbn [Http.flush Http.record Http.events].
      rewrite Hev, <- !app_assoc. split; [done|]. by repeat constructor.
  - destruct err as [e|]; [done|]. apply IH.
Qed.

Lemma handleNormalResponse_events (input : list (string * option bool))
    (w : Http.ResponseWriter) :
  ∃ evs, Http.events (handleNormalResponse input w) = Http.events w ++ evs
         ∧ Forall (λ e, Http.is_body_event e = true) evs.
Proof.
  revert w. induction input as [|[data err] rest IH]; intros w;
    cbn [handleNormalResponse].
  { exists []. by rewrite app_nil_r. }
  assert (Hstay : ∃ evs, Http.events w = Http.events w ++ evs
                         ∧ Forall (λ e, Http.is_body_event e = true) evs).
  { exists []. by rewrite app_nil_r. }
  destruct (0 <? String.length data)%nat.
  - destruct (Http.write data w) as [w1|] eqn:Hw; [|done].
    apply write_events in Hw as [Hev _].
    destruct err as [e|].
    + exists [Http.EvWrite data]. rewrite Hev. split; [done|]. by repeat constructor.
    + destruct (IH w1) as (evs & Hevs & Hbody).
      exists ([Http.EvWrite data] ++ evs).
      rewrite Hevs, Hev, <- !app_assoc. split; [done|]. by repeat constructor.
  - destruct err as [e|]; [done|]. apply IH.
Qed.

Lemma handleSimpleStreamingResponse_events (w : Http.ResponseWriter)
    (resp : Response) :
  ∃ rest,
    Http.events (handleSimpleStreamingResponse w resp)
    = Http.events w ++ sseHeaderEvents ++ rest
    ∧ Forall (λ e, Http.is_body_event e = true) rest.
Proof.
  unfold handleSimpleStreamingResponse.
  change (Http.header_set "X-Accel-Buffering" "no" _) with (setStreamingHeaders w).
  destruct (setStreamingHeaders_events w) as [Hset _].
  destruct (negb _).
  - destruct (handleNormalResponse_events (reads resp) (setStreamingHeaders w))
      as (evs & Hevs & Hbody).
    exists evs. by rewrite Hevs, Hset, <- app_assoc.
  - destruct (simpleLoop_events (reads resp) (setStreamingHeaders w))
      as (evs & Hevs & Hbody).
    exists evs. by rewrite Hevs, Hset, <- app_assoc.
Qed.

(** Setting the four headers commits nothing and fills the header map. *)
Lemma observe_sseHeaderEvents (r : Http.response) :
  Http.committed (fold_left Http.observe sseHeaderEvents r) = Http.committed r
  ∧ sseHeaders (Http.header (fold_left Http.observe sseHeaderEvents r)).
Proof.
  split; [reflexivity|]. intros key value Hin. cbn.
  unfold sseHeaderEvents in Hin.
  repeat (apply elem_of_cons in Hin as [Hin|Hin];
          [simplify_eq; by simplify_map_eq|]).
  by apply elem_of_nil in Hin.
Qed.

(** Sending the body leaves the header map alone and commits it, with
    status 200, if nothing was committed before. *)
Lemma observe_body (evs : list Http.event) (r : Http.response) :
  Forall (λ e, Http.is_body_event e = true) evs →
  sseHeaders (Http.header r) →
  sseCommitted r →
  Http.header (fold_left Http.observe evs r) = Http.header r
  ∧ sseCommitted (fold_left Http.observe evs r).
Proof.
  intros Hbody. revert r.
  induction Hbody as [|e evs He _ IH]; intros r Hh Hc; [done|].
  cbn [fold_left].
  assert (Hstep : Http.header (Http.observe r e) = Http.header r
                  ∧ sseCommitted (Http.observe r e)).
  { destruct e; try done; cbn [Http.observe]; unfold Http.commit, sseCommitted;
      destruct (Http.committed r) as [[c h]|] eqn:Hcr;
      cbn [Http.header Http.committed]; rewrite ?Hcr;
      (split; [done|]); intros h' Heq; simplify_eq; auto. }
  destruct Hstep as [Hh' Hc'].
  destruct (IH (Http.observe r e)) as [-> ?]; [by rewrite Hh'|done|done].
Qed.

Lemma observe_session (evs rest : list Http.event) :
  evs = sseHeaderEvents ++ rest →
  Forall (λ e, Http.is_body_event e = true) rest →
  sseCommitted (Http.received evs).
Proof.
  intros -> Hbody. rewrite received_app.
  destruct (observe_sseHeaderEvents (Http.mkResponse ∅ None [])) as [Hc Hh].
  fold (Http.received sseHeaderEvents) in Hc, Hh.
  apply observe_body; [done|exact Hh|].
  unfold sseCommitted. rewrite Hc. intros h. discriminate.
Qed.

Lemma sent_sseHeaders (w : Http.ResponseWriter) :
  sseCommitted (Http.received (Http.events w)) →
  Http.status w = Some 200 →
  ∀ key value,
    Http.EvSetHeader key value ∈ sseHeaderEvents →
    Http.sent_header w key = Some value.
Proof.
  unfold Http.status, Http.sent_header, sseCommitted.
  intros Hc Hs key value Hin.
  destruct (Http.committed (Http.received (Http.events w))) as [[c h]|];
    simplify_eq/=.
  by apply (Hc h).
Qed.

Section Headers.

Variable Unmarshal : string -> option (gmap string json).
Variable Marshal : gmap string json -> option string.
Variable sh : StreamHandler.
Variable channelType : string.

Local Abbreviation frames := (frameEvents Unmarshal Marshal sh channelType).

Lemma frameEvents_body (forwarded : list string) :
  Forall (λ e, Http.is_body_event e = true) (frames forwarded).
Proof.
  induction forwarded as [|line fl IH]; [constructor|].
  rewrite frameEvents_cons. by repeat constructor.
Qed.

Lemma countSet_sse (key value : string) (err : option error) :
  Http.EvSetHeader key value ∈ sseHeaderEvents →
  countSet key value sseHeaderEvents = 1%nat
  ∧ countSet key value (retryErrorEvents Marshal sh err) = 0%nat.
Proof.
  intros Hin. unfold sseHeaderEvents in Hin.
  repeat (apply elem_of_cons in Hin as [Hin|Hin];
          [simplify_eq; split; [reflexivity|];
           destruct err as [[]|]; reflexivity|]).
  by apply elem_of_nil in Hin.
Qed.

Lemma countSet_attempts (key value : string) (attempts : list (list string)) :
  Http.EvSetHeader key value ∈ sseHeaderEvents →
  countSet key value (attempts ≫= λ forwarded, sseHeaderEvents ++ frames forwarded)
  = length attempts.
Proof.
  intros Hin. induction attempts as [|fl attempts IH]; [done|].
  cbn [mbind list_bind length].
  rewrite !countSet_app, IH, (countSet_body _ _ _ (frameEvents_body fl)).
  destruct (countSet_sse key value None Hin) as [-> _]. lia.
Qed.

Lemma observe_attempts (attempts : list (list string)) (r : Http.response) :
  sseCommitted r →
  sseCommitted
    (fold_left Http.observe
       (attempts ≫= λ forwarded, sseHeaderEvents ++ frames forwarded) r).
Proof.
  revert r. induction attempts as [|fl attempts IH]; intros r Hc; [done|].
  cbn [mbind list_bind]. rewrite !fold_left_app. apply IH.
  destruct (observe_sseHeaderEvents r) as [Hc' Hh].
  apply observe_body; [apply frameEvents_body|exact Hh|].
  unfold sseCommitted. rewrite Hc'. apply Hc.
Qed.

Lemma observe_retryErrorEvents (err : option error) (r : Http.response) :
  sseCommitted r →
  sseCommitted (fold_left Http.observe (retryErrorEvents Marshal sh err) r).
Proof.
  intros Hc. destruct err as [[]|]; try done;
    cbn [retryErrorEvents fold_left Http.observe]; unfold Http.commit, sseCommitted;
    cbn [Http.header Http.committed];
    destruct (Http.committed r) as [[c h]|] eqn:Hcr;
    cbn [Http.header Http.committed]; rewrite ?Hcr;
    intros h' Heq; simplify_eq; by apply (Hc h').
Qed.

(** An intelligent session on a fresh writer starts by setting the four
    headers, and sets each of them once per attempt; a response
    committed with status 200 carries them. *)
Lemma HandleStreamingResponse_headers (resp : Response)
    (writer : Http.ResponseWriter) (retryRequestFunc : RetryFunc)
    (err : option error) (s : session) :
  Http.events writer = [] →
  HandleStreamingResponse Unmarshal Marshal sh resp writer channelType
    retryRequestFunc = Some (err, s) →
  (∃ rest, Http.events (a_writer (s_state s)) = sseHeaderEvents ++ rest)
  ∧ (∀ key value,
       Http.EvSetHeader key value ∈ sseHeaderEvents →
       countSet key value (Http.events (a_writer (s_state s)))
       = length (attemptLog s))
  ∧ (Http.status (a_writer (s_state s)) = Some 200 →
     ∀ key value,
       Http.EvSetHeader key value ∈ sseHeaderEvents →
       Http.sent_header (a_writer (s_state s)) key = Some value).
Proof.
  intros Hfresh Hrun. unfold HandleStreamingResponse in Hrun.
  apply loop_trace in Hrun as (attempts & _ & _ & Hev & _ & _ & Hlog & Hpos & _).
  cbn [startSession s_state a_writer attemptLog] in Hev, Hlog.
  rewrite Hfresh in Hev. rewrite !app_nil_l in Hev, Hlog.
  split; [|split].
  - destruct attempts as [|fl attempts]; [simpl in Hpos; lia|].
    cbn [mbind list_bind] in Hev. rewrite Hev, <- !app_assoc. eauto.
  - intros key value Hin.
    rewrite Hev, Hlog, countSet_app, countSet_attempts by done.
    destruct (countSet_sse key value err Hin) as [_ ->].
    unfold attemptEntries. rewrite length_fmap, length_seq. lia.
  - apply sent_sseHeaders. rewrite Hev, received_app.
    apply observe_retryErrorEvents, observe_attempts.
    intros h. discriminate.
Qed.

End Headers.

(** C5, as the code has it. On a writer to which nothing has been sent:
    an intelligent session begins with the calls that set the four SSE
    headers, before anything is written, and sets each of them again at the
    start of every further attempt, so as many times as attempts are made;
    a pass-through session sets each of them exactly once, before the
    body; in both, a response that the client receives with status 200
    carries the four headers; every session started by the dispatcher
    begins with the four calls. *)
Theorem sse_headers_spec
    (Unmarshal : string → option (gmap string json))
    (Marshal : gmap string json → option string)
    (sh : StreamHandler) (resp : Response) (writer : Http.ResponseWriter)
    (channelType : string) (retryRequestFunc : RetryFunc) :
  Http.events writer = [] →
  (∀ err s,
     HandleStreamingResponse Unmarshal Marshal sh resp writer channelType
       retryRequestFunc = Some (err, s) →
     (∃ rest, Http.events (a_writer (s_state s)) = sseHeaderEvents ++ rest)
     ∧ (∀ key value,
          Http.EvSetHeader key value ∈ sseHeaderEvents →
          countSet key value (Http.events (a_writer (s_state s)))
          = length (attemptLog s))
     ∧ (Http.status (a_writer (s_state s)) = Some 200 →
        ∀ key value,
          Http.EvSetHeader key value ∈ sseHeaderEvents →
          Http.sent_header (a_writer (s_state s)) key = Some value))
  ∧ ((∃ rest,
        Http.events (handleSimpleStreamingResponse writer resp)
        = sseHeaderEvents ++ rest
        ∧ Forall (λ e, Http.is_body_event e = true) rest)
     ∧ (∀ key value,
          Http.EvSetHeader key value ∈ sseHeaderEvents →
          countSet key value (Http.events (handleSimpleStreamingResponse writer resp))
          = 1%nat)
     ∧ (Http.status (handleSimpleStreamingResponse writer resp) = Some 200 →
        ∀ key value,
          Http.EvSetHeader key value ∈ sseHeaderEvents →
          Http.sent_header (handleSimpleStreamingResponse writer resp) key
          = Some value))
  ∧ (∀ writer',
       handleStreamingResponse Unmarshal Marshal writer resp channelType
         retryRequestFunc = Some writer' →
       ∃ rest, Http.events writer' = sseHeaderEvents ++ rest).
Proof.
  intros Hfresh.
  destruct (handleSimpleStreamingResponse_events writer resp)
    as (rest & Hsimple & Hbody).
  rewrite Hfresh, app_nil_l in Hsimple.
  split; [|split; [split; [|split]|]].
  - intros err s Hrun. by eapply HandleStreamingResponse_headers.
  - eauto.
  - intros key value Hin.
    rewrite Hsimple, countSet_app, (countSet_body _ _ _ Hbody).
    by destruct (countSet_sse Marshal sh key value None Hin) as [-> _].
  - apply sent_sseHeaders. by eapply observe_session.
  - intros writer' Hrun. unfold handleStreamingResponse in Hrun.
    destruct (_ || _); [simplify_eq; eauto|].
    destruct (HandleStreamingResponse _ _ _ _ _ _ _) as [[[e|] s]|] eqn:Hh;
      simplify_eq.
    + destruct (HandleStreamingResponse_headers _ _ _ _ _ _ _ _ _ Hfresh Hh)
        as ([rest1 Hrest1] & _).
      destruct (handleSimpleStreamingResponse_events (a_writer (s_state s)) resp)
        as (rest2 & -> & _).
      rewrite Hrest1, <- app_assoc. eauto.
    + by destruct (HandleStreamingResponse_headers _ _ _ _ _ _ _ _ _ Hfresh Hh)
        as (? & _).
Qed.

(** C5, witness: the two attempts of the scenario "Gemini truncation then
    resume", and a pass-through response of two chunks. *)
Lemma sse_headers_witness :
  (countSet "Content-Type" "text/event-stream"
     (Http.events (a_writer (s_state (finalSession foxDogRun))))
   = length (attemptLog (finalSession foxDogRun))
   ∧ Http.sent_header (a_writer (s_state (finalSession foxDogRun))) "Content-Type"
     = Some "text/event-stream")
  ∧ countSet "X-Accel-Buffering" "no"
      (Http.events (handleSimpleStreamingResponse Http.new_writer twoChunks))
    = 1%nat.
Proof.
  split.
  - destruct (sse_headers_spec Codec.Unmarshal Codec.Marshal geminiHandler
                foxResponse Http.new_writer "gemini" resumeWithDog eq_refl)
      as (H & _ & _).
    destruct (H (finalError foxDogRun) (finalSession foxDogRun))
      as (_ & Hcount & Hsent); [vm_compute; reflexivity|].
    split.
    + apply Hcount. left.
    + apply Hsent; [vm_compute; reflexivity|left].
  - destruct (sse_headers_spec Codec.Unmarshal Codec.Marshal geminiHandler
                twoChunks Http.new_writer "openai" resumeWithDog eq_refl)
      as (_ & (_ & H & _) & _).
    apply H. do 3 right. left.
Defined.

(** C5, counterexample to the claim as stated: in the scenario "Gemini
    truncation then resume" the four headers are set twice, the second
    time after the first frame has been written. *)
Lemma sse_headers_set_again :
  Http.events (finalWriter foxDogRun)
  = sseHeaderEvents
    ++ [Http.EvWrite (frame foxFrame); Http.EvFlush]
    ++ sseHeaderEvents
    ++ [Http.EvWrite (frame ("data: " +:+ strippedDogPayload)); Http.EvFlush]
  ∧ countSet "Content-Type" "text/event-stream"
      (Http.events (finalWriter foxDogRun)) = 2%nat.
Proof. split; vm_compute; reflexivity. Qed.

(** ** The retry error *)

(** Nothing reaches the client before the status line. *)
Lemma uncommitted_body (evs : list Http.event) :
  Http.committed (Http.received evs) = None →
  Http.body (Http.received evs) = [].
Proof.
  induction evs as [|e evs IH] using rev_ind; [done|].
  rewrite received_app. cbn [fold_left].
  destruct e; cbn [Http.observe Http.committed Http.body]; unfold Http.commit;
    destruct (Http.committed (Http.received evs)) eqn:Hc; simpl;
    intros H; try congruence; auto.
Qed.

(** C7, as the code has it. Whenever an attempt ends without clean exit
    and without error while [consecutiveRetryCount >= maxRetries], the
    handler sets [Content-Type: application/json], calls
    [WriteHeader(504)] and writes the encoded error object
    [{"error": {"code": 504, "status": "DEADLINE_EXCEEDED", "message":
    "Retry limit (N) exceeded after stream interruption"}}] with [N] the
    value of [maxRetries]. It returns the error "retry limit exceeded"
    when that write succeeds and "failed to write error response" when it
    fails. When nothing had been sent to the client before, the client
    receives status 504 with that content type and that body. *)
Theorem retry_budget_exhausted
    (Unmarshal : string → option (gmap string json))
    (Marshal : gmap string json → option string)
    (sh : StreamHandler) (channelType : string) (retryRequestFunc : RetryFunc)
    (s : session) (st : attempt_state) :
  processStreamAttempt Unmarshal Marshal sh (s_resp s) channelType
    (consecutiveRetryCount s) (s_state s) = (false, None, st) →
  maxRetries sh ≤ consecutiveRetryCount s →
  ∃ e s',
    iteration Unmarshal Marshal sh channelType retryRequestFunc s
    = inr (Some e, s')
    ∧ (Http.capacity (a_writer st) ≠ Some O →
       e = ErrRetryLimitExceeded
       ∧ Error e = "retry limit exceeded"
       ∧ Http.events (a_writer (s_state s'))
         = Http.events (a_writer st)
           ++ [Http.EvSetHeader "Content-Type" "application/json";
               Http.EvWriteHeader 504;
               Http.EvWrite (errorBytes Marshal sh)])
    ∧ (Http.capacity (a_writer st) = Some O →
       e = ErrWriteErrorResponse
       ∧ Error e = "failed to write error response"
       ∧ Http.events (a_writer (s_state s'))
         = Http.events (a_writer st)
           ++ [Http.EvSetHeader "Content-Type" "application/json";
               Http.EvWriteHeader 504])
    ∧ errorBytes Marshal sh
      = default "" (Marshal {[ "error" := JObj (
          <["code" := JNum 504]> (
          <["status" := JStr "DEADLINE_EXCEEDED"]> (
          <["message" := JStr ("Retry limit (" +:+ itoa (maxRetries sh)
                               +:+ ") exceeded after stream interruption")]> ∅))) ]})
    ∧ (Http.capacity (a_writer st) ≠ Some O →
       Http.committed (Http.received (Http.events (a_writer st))) = None →
       Http.status (a_writer (s_state s')) = Some 504
       ∧ Http.sent_header (a_writer (s_state s')) "Content-Type"
         = Some "application/json"
       ∧ Http.sent_body (a_writer (s_state s')) = [errorBytes Marshal sh]).
Proof.
  intros Hattempt Hmax. unfold iteration. rewrite Hattempt.
  cbn [consecutiveRetryCount].
  apply Z.leb_le in Hmax. rewrite Hmax.
  destruct (writeRetryError Marshal sh (a_writer st)) as [w e] eqn:Hwrite.
  destruct (writeRetryError_events _ _ _ _ _ Hwrite) as (Hev & Hkind & Hcap).
  exists e, (mkSession (s_resp s)
               (mkAttempt w (a_accumulatedText st) (a_resumePunctStreak st))
               (consecutiveRetryCount s)
               (attemptLog s ++ [(consecutiveRetryCount s + 1, maxRetries sh + 1)])).
  cbn [s_state a_writer].
  split; [done|]. split; [|split; [|split; [done|]]].
  - intros Hc. apply Hcap in Hc as ->. by rewrite Hev.
  - intros Hc. destruct Hkind as [->| ->]; [|by rewrite Hev].
    by destruct (proj1 Hcap eq_refl).
  - intros Hc Hnone. apply Hcap in Hc as ->.
    unfold Http.status, Http.sent_header, Http.sent_body.
    rewrite Hev, received_app. cbn [retryErrorEvents fold_left Http.observe].
    pose proof (uncommitted_body _ Hnone) as Hbody.
    unfold Http.commit. cbn [Http.committed Http.header Http.body].
    rewrite Hnone. cbn. by rewrite lookup_insert_eq, Hbody.
Qed.

(** C7, witness: the sixth attempt on an upstream without content, under
    the Gemini limit of five retries; nothing has been sent to the client,
    which receives the 504 response. *)
Lemma retry_budget_exhausted_witness :
  ∃ e s',
    iteration Codec.Unmarshal Codec.Marshal geminiHandler "gemini" alwaysEmpty
      sixthAttempt = inr (Some e, s')
    ∧ e = ErrRetryLimitExceeded
    ∧ Http.status (a_writer (s_state s')) = Some 504
    ∧ Http.sent_header (a_writer (s_state s')) "Content-Type"
      = Some "application/json"
    ∧ Http.sent_body (a_writer (s_state s'))
      = [jq "{'error':{'code':504,'message':'Retry limit (5) exceeded after stream interruption','status':'DEADLINE_EXCEEDED'}}"].
Proof.
  destruct (retry_budget_exhausted Codec.Unmarshal Codec.Marshal geminiHandler
              "gemini" alwaysEmpty sixthAttempt
              (mkAttempt (Http.mkWriter (concat (replicate 6 sseHeaderEvents)) None true) "" 0))
    as (e & s' & Hit & Hok & _ & _ & Hsent).
  - vm_compute; reflexivity.
  - vm_compute; discriminate.
  - exists e, s'. split; [exact Hit|].
    destruct Hok as [He _]; [discriminate|].
    destruct Hsent as (H1 & H2 & H3); [discriminate|vm_compute; reflexivity|].
    repeat split; try done.
Defined.

(** C7, counterexample to the claim as stated. When every attempt has
    forwarded a frame before the retry limit is exceeded, the client has
    received status 200 with [Content-Type: text/event-stream], and the
    error body follows the frames in the same response: it is not a 504
    response. When the write of the error body fails, the error returned
    is not "retry limit exceeded". *)
Lemma retry_error_after_frames :
  finalError foxForeverRun = Some ErrRetryLimitExceeded
  ∧ length (attemptLog (finalSession foxForeverRun)) = 6%nat
  ∧ Http.status (finalWriter foxForeverRun) = Some 200
  ∧ Http.sent_header (finalWriter foxForeverRun) "Content-Type"
    = Some "text/event-stream"
  ∧ Http.sent_body (finalWriter foxForeverRun)
    = replicate 6 (frame foxFrame) ++ [errorBytes Codec.Marshal geminiHandler]
  ∧ finalError brokenWriterRun = Some ErrWriteErrorResponse
  ∧ Error ErrWriteErrorResponse ≠ "retry limit exceeded".
Proof.
  repeat split; try (vm_compute; reflexivity).
  vm_compute. discriminate.
Qed.

(** ** The tests of the package, replayed on the model *)

(** [TestEndsWithSentencePunctuation]. *)
Example endsWithSentencePunctuation_table :
  (λ text, endsWithSentencePunctuation text)
  <$> ["Hello world."; "Hello world!"; "Hello world?"; "Hello world。";
       "Hello world！"; "Hello world？"; "Hello world"; "Hello world,"; "";
       String.append "Hello world" (String dquote "");
       String.append "Hello world" (String squote "")]
  = [true; true; true; true; true; true; false; false; false; true; true].
Proof. vm_compute; reflexivity. Qed.

(** [TestStreamHandlerCreation] and [TestStreamProcessorFactory]. *)
Example factory_tests :
  maxRetries (NewStreamHandler (mkConfig 3 (1 * Second) true ["[done]"; "[DONE]"])) = 3
  ∧ enablePunctuationHeuristic
      (NewStreamHandler (mkConfig 3 (1 * Second) true ["[done]"; "[DONE]"])) = true
  ∧ length (doneTokenPatterns
      (NewStreamHandler (mkConfig 3 (1 * Second) true ["[done]"; "[DONE]"]))) = 2%nat
  ∧ MaxRetries (GetStreamConfig (CreateProcessor "gemini")) = 5
  ∧ MaxRetries (GetStreamConfig (CreateProcessor "openai")) = 2.
Proof. repeat split. Qed.

(** ** The system instruction of every body *)

Lemma partsOf_None : partsOf None = [].
Proof. reflexivity. Qed.

(** [injectSystemPrompt] as one update of the body. *)
Lemma injectSystemPrompt_eq (body : gmap string json) :
  injectSystemPrompt body
  = <["systemInstruction" := JObj (mergedInstruction body)]>
      (delete "system_instruction" body).
Proof.
  unfold injectSystemPrompt, mergedInstruction.
  destruct (body !! "system_instruction") as [snakeVal|] eqn:Hs.
  - rewrite lookup_delete_ne, lookup_insert_eq by done.
    cbn [as_object]. rewrite lookup_insert_eq. cbn [as_array].
    rewrite insert_insert_eq.
    rewrite <- (delete_insert_ne _ "system_instruction" "systemInstruction") by done.
    rewrite insert_insert_eq.
    rewrite (delete_insert_ne _ "system_instruction" "systemInstruction") by done.
    do 3 f_equal.
    unfold partsOf.
    destruct (as_object (body !! "systemInstruction")) as [camelMap|];
      destruct snakeVal as [| | | |?|snakeMap]; cbn [as_object default app];
      try destruct (as_array (snakeMap !! "parts")); cbn [default app];
      rewrite ?app_nil_r, ?app_assoc; done.
  - rewrite (delete_id body "system_instruction") by done.
    rewrite partsOf_None. cbn [app].
    unfold partsOf.
    destruct (body !! "systemInstruction") as [[]|] eqn:Hc; cbn [as_object default];
      try (rewrite ?lookup_empty; reflexivity).
    destruct (as_array (_ !! "parts")); reflexivity.
Qed.

(** X1. For every request body, [injectSystemPrompt] leaves no
    ["system_instruction"], and a ["systemInstruction"] object whose parts
    are the parts of the snake_case instruction, then those of the
    camelCase one, then the marker, and whose other fields are those of
    the camelCase instruction; every other field of the body is kept. *)
Theorem injectSystemPrompt_every_body (body : gmap string json) :
  injectSystemPrompt body !! "system_instruction" = None
  ∧ (∃ instruction,
        injectSystemPrompt body !! "systemInstruction" = Some (JObj instruction)
        ∧ instruction !! "parts"
          = Some (JArr (partsOf (body !! "system_instruction")
                        ++ partsOf (body !! "systemInstruction")
                        ++ [newSystemPromptPart]))
        ∧ ∀ k, k ≠ "parts" →
               instruction !! k
               = default ∅ (as_object (body !! "systemInstruction")) !! k)
  ∧ (∀ k, k ≠ "system_instruction" → k ≠ "systemInstruction" →
          injectSystemPrompt body !! k = body !! k).
Proof.
  rewrite injectSystemPrompt_eq. split; [|split].
  - rewrite lookup_insert_ne by done. apply lookup_delete_eq.
  - exists (mergedInstruction body). split; [apply lookup_insert_eq|].
    unfold mergedInstruction. split.
    + apply lookup_insert_eq.
    + intros k Hk. by rewrite lookup_insert_ne.
  - intros k Hs Hc.
    by rewrite lookup_insert_ne, lookup_delete_ne.
Qed.

Lemma partsOf_merged (body : gmap string json) :
  partsOf (Some (JObj (mergedInstruction body)))
  = partsOf (body !! "system_instruction")
    ++ partsOf (body !! "systemInstruction") ++ [newSystemPromptPart].
Proof.
  unfold partsOf at 1, mergedInstruction. cbn [as_object].
  by rewrite lookup_insert_eq.
Qed.

(** X2. The marker is never looked for: a body that went through
    [injectSystemPrompt] and goes through it again gets the marker a second
    time, at the end of the parts the first pass left, and nothing else
    changes. *)
Theorem injectSystemPrompt_twice (body : gmap string json) :
  ∃ instruction parts,
    injectSystemPrompt body !! "systemInstruction" = Some (JObj instruction)
    ∧ instruction !! "parts" = Some (JArr (parts ++ [newSystemPromptPart]))
    ∧ injectSystemPrompt (injectSystemPrompt body)
      = <["systemInstruction" :=
            JObj (<["parts" := JArr ((parts ++ [newSystemPromptPart])
                                     ++ [newSystemPromptPart])]> instruction)]>
          (injectSystemPrompt body).
Proof.
  exists (mergedInstruction body),
    (partsOf (body !! "system_instruction") ++ partsOf (body !! "systemInstruction")).
  split; [|split].
  - rewrite injectSystemPrompt_eq. apply lookup_insert_eq.
  - unfold mergedInstruction. rewrite lookup_insert_eq. by rewrite app_assoc.
  - rewrite (injectSystemPrompt_eq (injectSystemPrompt body)).
    assert (Hs : injectSystemPrompt body !! "system_instruction" = None).
    { rewrite injectSystemPrompt_eq, lookup_insert_ne by done.
      apply lookup_delete_eq. }
    assert (Hc : injectSystemPrompt body !! "systemInstruction"
                 = Some (JObj (mergedInstruction body))).
    { rewrite injectSystemPrompt_eq. apply lookup_insert_eq. }
    rewrite delete_id by done. f_equal. f_equal.
    unfold mergedInstruction at 1. rewrite Hs, Hc, partsOf_None, partsOf_merged.
    cbn [as_object default app]. by rewrite !app_assoc.
Qed.

(** ** The retry request body of every channel *)

Lemma conversationKey_cases (channelType : string) :
  conversationKey channelType = "contents" ∨ conversationKey channelType = "messages".
Proof. unfold conversationKey. destruct (String.eqb _ _); auto. Qed.

(** The retry body is the original body with its conversation replaced,
    by a function of the conversation alone. *)
Lemma buildRetryRequestBody_cases (accumulatedText channelType : string) :
  ∃ f : list json → list json,
    (∀ body,
       buildRetryRequestBody body accumulatedText channelType
       = match as_array (body !! conversationKey channelType) with
         | Some conversation =>
           <[conversationKey channelType := JArr (f conversation)]> body
         | None => body
         end)
    ∧ ∀ conversation,
        conversation `sublist_of` f conversation
        ∧ length (f conversation)
          = (length conversation + contextSize channelType)%nat.
Proof.
  unfold buildRetryRequestBody, conversationKey, contextSize.
  destruct (String.eqb channelType "openai") eqn:Ho.
  { apply String.eqb_eq in Ho as ->. cbn [String.eqb Ascii.eqb Bool.eqb].
    eexists (λ c, _ :: c). split.
    - intros body. unfold addOpenAIRetryContext.
      destruct (as_array (body !! "messages")); reflexivity.
    - intros c. split; [by apply sublist_cons|]. simpl. lia. }
  destruct (String.eqb channelType "gemini") eqn:Hg.
  { exists (λ c,
      if negb (lastUserIndex c (length c) =? -1)
      then take (Z.to_nat (lastUserIndex c (length c) + 1)) c
           ++ contextMessages accumulatedText
           ++ drop (Z.to_nat (lastUserIndex c (length c) + 1)) c
      else c ++ contextMessages accumulatedText).
    split.
    - intros body. unfold addGeminiRetryContext.
      destruct (as_array (body !! "contents")); [|reflexivity].
      by destruct (negb _).
    - intros c. destruct (negb _).
      + split.
        * rewrite <- (take_drop (Z.to_nat (lastUserIndex c (length c) + 1)) c) at 1.
          apply sublist_app; [done|]. by apply sublist_inserts_l.
        * rewrite !length_app, length_take, length_drop. simpl. lia.
      + split; [by apply sublist_inserts_r|].
        rewrite length_app. simpl. lia. }
  exists (λ c, c ++ [continueMessage accumulatedText]). split.
  - intros body.
    destruct (String.eqb channelType "anthropic");
      unfold addAnthropicRetryContext, addGenericRetryContext;
      destruct (as_array (body !! "messages")); reflexivity.
  - intros c. split; [by apply sublist_inserts_r|].
    rewrite length_app. simpl. lia.
Qed.

(** X3. Whatever the channel type, a retry body differs from the
    original body in its conversation only, ["contents"] for Gemini and
    ["messages"] for the others: every other field is kept; a body whose
    conversation is missing or no array is returned as it is; and an array
    keeps all its entries, in their order, and gets two more for Gemini,
    one more for the others. *)
Theorem buildRetryRequestBody_conversation
    (body : gmap string json) (accumulatedText channelType : string) :
  let retryBody := buildRetryRequestBody body accumulatedText channelType in
  let key := conversationKey channelType in
  (∀ k, k ≠ key → retryBody !! k = body !! k)
  ∧ (as_array (body !! key) = None → retryBody = body)
  ∧ (∀ conversation, body !! key = Some (JArr conversation) →
       ∃ conversation',
         retryBody !! key = Some (JArr conversation')
         ∧ conversation `sublist_of` conversation'
         ∧ length conversation'
           = (length conversation + contextSize channelType)%nat).
Proof.
  intros retryBody key. subst retryBody key.
  destruct (buildRetryRequestBody_cases accumulatedText channelType) as (f & Hf & Hsub).
  rewrite Hf. split; [|split].
  - intros k Hk. destruct (as_array _); [|done]. by rewrite lookup_insert_ne.
  - by intros ->.
  - intros c Hc. rewrite Hc. cbn [as_array]. exists (f c).
    split; [apply lookup_insert_eq|]. apply Hsub.
Qed.

(** X4. Where the retry context goes in a ["messages"] conversation:
    OpenAI gets a system message in front of the messages; Anthropic and
    every channel type that is not one of the three named ones get a user
    message behind them. Both quote the accumulated text. *)
Theorem buildRetryRequestBody_messages
    (body : gmap string json) (messages : list json)
    (accumulatedText channelType : string) :
  body !! "messages" = Some (JArr messages) →
  channelType ≠ "gemini" →
  ∃ context,
    as_object (Some context) ≫= (λ m, as_string (m !! "content"))
    = Some ("Continue from where you left off. Previous response: "
            +:+ accumulatedText +:+ String LF (String LF
              (if String.eqb channelType "openai"
               then "Continue generating the response without repetition."
               else "Continue without repetition.")))
    ∧ as_object (Some context) ≫= (λ m, as_string (m !! "role"))
      = Some (if String.eqb channelType "openai" then "system" else "user")
    ∧ buildRetryRequestBody body accumulatedText channelType
      = <["messages" :=
            JArr (if String.eqb channelType "openai"
                  then context :: messages
                  else messages ++ [context])]> body.
Proof.
  intros Hm Hg. apply String.eqb_neq in Hg.
  unfold buildRetryRequestBody. rewrite Hg.
  destruct (String.eqb channelType "openai").
  - unfold addOpenAIRetryContext. rewrite Hm. cbn [as_array].
    eexists. split; [|split]; [| |reflexivity].
    + unfold message. cbn [as_object mbind option_bind].
      rewrite lookup_insert_ne, lookup_insert_eq by done. reflexivity.
    + unfold message. cbn [as_object mbind option_bind].
      rewrite lookup_insert_eq. reflexivity.
  - exists (continueMessage accumulatedText). split; [|split].
    + unfold continueMessage, message. cbn [as_object mbind option_bind].
      rewrite lookup_insert_ne, lookup_insert_eq by done. reflexivity.
    + unfold continueMessage, message. cbn [as_object mbind option_bind].
      rewrite lookup_insert_eq. reflexivity.
    + destruct (String.eqb channelType "anthropic");
        unfold addAnthropicRetryContext, addGenericRetryContext;
        rewrite Hm; reflexivity.
Qed.

Lemma buildRetryRequestBody_messages_witness :
  ∃ context,
    buildRetryRequestBody {[ "messages" := JArr [message "user" "hi"] ]}
      "Once upon" "anthropic"
    = <["messages" := JArr ([message "user" "hi"] ++ [context])]>
        {[ "messages" := JArr [message "user" "hi"] ]}.
Proof.
  destruct (buildRetryRequestBody_messages
              {[ "messages" := JArr [message "user" "hi"] ]}
              [message "user" "hi"] "Once upon" "anthropic")
    as (context & _ & _ & H).
  - vm_compute; reflexivity.
  - discriminate.
  - exists context. exact H.
Defined.

Lemma mergedInstruction_ext (body body' : gmap string json) :
  body' !! "system_instruction" = body !! "system_instruction" →
  body' !! "systemInstruction" = body !! "systemInstruction" →
  mergedInstruction body' = mergedInstruction body.
Proof. unfold mergedInstruction. by intros -> ->. Qed.

(** X5. The two rewrites of a request body do not interfere: the marker
    can be injected before or after the retry context is added, for every
    body, accumulated text and channel type. *)
Theorem injectSystemPrompt_buildRetryRequestBody
    (body : gmap string json) (accumulatedText channelType : string) :
  injectSystemPrompt (buildRetryRequestBody body accumulatedText channelType)
  = buildRetryRequestBody (injectSystemPrompt body) accumulatedText channelType.
Proof.
  destruct (buildRetryRequestBody_cases accumulatedText channelType) as (f & Hf & _).
  rewrite !Hf.
  assert (Hks : conversationKey channelType ≠ "system_instruction")
    by (destruct (conversationKey_cases channelType) as [-> | ->]; done).
  assert (Hkc : conversationKey channelType ≠ "systemInstruction")
    by (destruct (conversationKey_cases channelType) as [-> | ->]; done).
  assert (Hsame : injectSystemPrompt body !! conversationKey channelType
                  = body !! conversationKey channelType).
  { rewrite injectSystemPrompt_eq.
    by rewrite lookup_insert_ne, lookup_delete_ne. }
  rewrite Hsame.
  destruct (as_array (body !! conversationKey channelType)) as [c|]; [|done].
  rewrite !injectSystemPrompt_eq.
  rewrite (mergedInstruction_ext body) by (by rewrite lookup_insert_ne).
  rewrite delete_insert_ne by done.
  by rewrite insert_insert_ne.
Qed.

(** ** Done-tokens in texts and frames *)

(** X6. Writing the text of a Gemini frame changes nothing but that
    text: for a frame that carries a text, writing any text and then the
    original one gives the frame back. *)
Theorem setGeminiText_restores (data : gmap string json) (cleanText : string) :
  extractGeminiText data ≠ "" →
  setGeminiText (setGeminiText data cleanText) (extractGeminiText data) = data.
Proof.
  unfold extractGeminiText, setGeminiText. intros H.
  destruct (data !! "candidates") as [[| | | |[|candidate0 cs]|]|] eqn:Hd;
    cbn [as_array] in *; try done.
  destruct candidate0 as [| | | | |candidate]; cbn [as_object] in *; try done.
  destruct (candidate !! "content") as [[| | | | |content]|] eqn:Hc;
    cbn [as_object] in *; try done.
  destruct (content !! "parts") as [[| | | |[|part0 ps]|]|] eqn:Hp;
    cbn [as_array] in *; try done.
  destruct part0 as [| | | | |part]; cbn [as_object] in *; try done.
  destruct (part !! "text") as [[| | |text| |]|] eqn:Ht;
    cbn [as_string] in *; try done.
  rewrite lookup_insert_eq. cbn [as_array as_object].
  rewrite lookup_insert_eq. cbn [as_array as_object].
  rewrite lookup_insert_eq. cbn [as_array as_object].
  rewrite !insert_insert_eq.
  rewrite (insert_id part) by done.
  rewrite (insert_id content) by done.
  rewrite (insert_id candidate) by done.
  by rewrite insert_id.
Qed.

Lemma setGeminiText_restores_witness :
  setGeminiText (setGeminiText (decoded dogPayload) "x")
                (extractGeminiText (decoded dogPayload))
  = decoded dogPayload.
Proof.
  apply (setGeminiText_restores (decoded dogPayload) "x").
  vm_compute. discriminate.
Defined.

Lemma removeFirstDoneToken_changed (patterns : list string) (text : string) :
  removeFirstDoneToken patterns text ≠ text →
  ∃ p, p ∈ patterns ∧ Strings.HasSuffix text p = true.
Proof.
  induction patterns as [|q ps IH]; simpl; [done|].
  destruct (Strings.HasSuffix text q) eqn:Hq.
  - intros _. exists q. split; [by left|done].
  - intros H. destruct (IH H) as (p & Hp & Hs).
    exists p. split; [by right|done].
Qed.

(** X7. A line is rewritten for the client in one case only: it is a
    [data: ] frame whose payload decodes, the text of the frame ends with
    a configured done-token, and the frame with the cleaned text can be
    encoded; the result is then that encoding behind [data: ]. Any other
    line, and the line [data: [DONE]], comes back as it is. *)
Theorem removeDoneTokensFromLine_changes
    (Unmarshal : string → option (gmap string json))
    (Marshal : gmap string json → option string)
    (sh : StreamHandler) (line : string) :
  removeDoneTokensFromLine Unmarshal Marshal sh line ≠ line →
  ∃ payload data newDataBytes p,
    line = "data: " +:+ payload
    ∧ payload ≠ "[DONE]"
    ∧ Unmarshal payload = Some data
    ∧ p ∈ doneTokenPatterns sh
    ∧ Strings.HasSuffix (extractGeminiText data) p = true
    ∧ Marshal (setGeminiText data
                 (RemoveDoneTokensFromText sh (extractGeminiText data)))
      = Some newDataBytes
    ∧ removeDoneTokensFromLine Unmarshal Marshal sh line
      = "data: " +:+ newDataBytes.
Proof.
  unfold removeDoneTokensFromLine.
  destruct (Strings.HasPrefix line "data: ") eqn:Hp; cbn [negb]; [|done].
  apply HasPrefix_spec in Hp as [payload ->].
  rewrite TrimPrefix_app.
  destruct (String.eqb payload "[DONE]") eqn:Hd; [done|].
  destruct (Unmarshal payload) as [data|] eqn:Hu; [|done].
  destruct (String.eqb (extractGeminiText data) ""); [done|].
  destruct (String.eqb (RemoveDoneTokensFromText sh (extractGeminiText data))
                       (extractGeminiText data)) eqn:Hc; cbn [negb]; [done|].
  destruct (Marshal _) as [newDataBytes|] eqn:Hm; [|done].
  intros _. apply String.eqb_neq in Hc, Hd.
  destruct (removeFirstDoneToken_changed _ _ Hc) as (p & Hin & Hs).
  by exists payload, data, newDataBytes, p.
Qed.

Lemma removeDoneTokensFromLine_changes_witness :
  ∃ newDataBytes,
    removeDoneTokensFromLine Codec.Unmarshal Codec.Marshal geminiHandler dogFrame
    = "data: " +:+ newDataBytes.
Proof.
  destruct (removeDoneTokensFromLine_changes
              Codec.Unmarshal Codec.Marshal geminiHandler dogFrame)
    as (_ & _ & newDataBytes & _ & _ & _ & _ & _ & _ & _ & H).
  - apply String.eqb_neq. vm_compute. reflexivity.
  - exists newDataBytes. exact H.
Defined.

Lemma stake_sdrop (n : nat) (s : string) : stake n s +:+ sdrop n s = s.
Proof.
  revert s. induction n as [|n IH]; intros [|c s]; simpl; try done.
  rewrite sapp_cons. by rewrite IH.
Qed.

Lemma TrimLeftFunc_go_suffix (fuel : nat) (f : Z → bool) (s : string) :
  ∃ a, s = a +:+ Strings.TrimLeftFunc_go fuel f s.
Proof.
  revert s. induction fuel as [|fuel IH]; intros s; simpl; [by exists ""|].
  destruct s as [|c s]; [by exists ""|].
  destruct (Utf8.DecodeRuneInString (String c s)) as [r size].
  destruct (f r); [|by exists ""].
  destruct (IH (sdrop (Z.to_nat size) (String c s))) as [a Ha].
  exists (stake (Z.to_nat size) (String c s) +:+ a).
  rewrite sapp_assoc, <- Ha. by rewrite stake_sdrop.
Qed.

Lemma TrimRightFunc_go_prefix (fuel : nat) (f : Z → bool) (s : string) :
  ∃ b, s = Strings.TrimRightFunc_go fuel f s +:+ b.
Proof.
  revert s. induction fuel as [|fuel IH]; intros s; simpl;
    [exists ""; by rewrite sapp_nil_r|].
  destruct s as [|c s]; [by exists ""|].
  destruct (Utf8.DecodeLastRuneInString (String c s)) as [r size].
  destruct (f r); [|exists ""; by rewrite sapp_nil_r].
  set (n := (String.length (String c s) - Z.to_nat size)%nat).
  destruct (IH (stake n (String c s))) as [b Hb].
  exists (b +:+ sdrop n (String c s)).
  rewrite <- sapp_assoc, <- Hb. by rewrite stake_sdrop.
Qed.

Lemma TrimSpace_substring (s : string) :
  ∃ a b, s = a +:+ Strings.TrimSpace s +:+ b.
Proof.
  unfold Strings.TrimSpace, Strings.TrimLeftFunc, Strings.TrimRightFunc.
  destruct (TrimLeftFunc_go_suffix (String.length s) IsSpace s) as [a Ha].
  set (l := Strings.TrimLeftFunc_go (String.length s) IsSpace s) in *.
  destruct (TrimRightFunc_go_prefix (String.length l) IsSpace l) as [b Hb].
  exists a, b. by rewrite <- Hb.
Qed.

Lemma TrimSuffix_prefix (s p : string) : ∃ b, s = Strings.TrimSuffix s p +:+ b.
Proof.
  unfold Strings.TrimSuffix. destruct (Strings.HasSuffix s p).
  - eexists. symmetry. apply stake_sdrop.
  - exists "". by rewrite sapp_nil_r.
Qed.

(** X8. Cleaning a text of done-tokens only cuts at its two ends: the
    result occurs in the text as it stands, and it is the text itself
    when no configured token ends the text, even when tokens occur
    inside it. *)
Theorem RemoveDoneTokensFromText_substring (sh : StreamHandler) (text : string) :
  (∃ a b, text = a +:+ RemoveDoneTokensFromText sh text +:+ b)
  ∧ ((∀ p, p ∈ doneTokenPatterns sh → Strings.HasSuffix text p = false) →
     RemoveDoneTokensFromText sh text = text).
Proof.
  unfold RemoveDoneTokensFromText. split.
  - induction (doneTokenPatterns sh) as [|q ps IH]; simpl.
    + exists "", "". by rewrite sapp_nil_r.
    + destruct (Strings.HasSuffix text q); [|exact IH].
      destruct (TrimSuffix_prefix text q) as [b Hb].
      destruct (TrimSpace_substring (Strings.TrimSuffix text q)) as (a & b' & Hab).
      exists a, (b' +:+ b). etrans; [exact Hb|].
      rewrite <- (sapp_assoc (Strings.TrimSpace _) b' b), <- (sapp_assoc a).
      by rewrite <- Hab.
  - intros Hno.
    destruct (decide (removeFirstDoneToken (doneTokenPatterns sh) text = text))
      as [|Hne]; [done|].
    destruct (removeFirstDoneToken_changed _ _ Hne) as (p & Hp & Hs).
    rewrite Hno in Hs; done.
Qed.

(** ** One attempt, line by line *)

Section Attempt.

Variable Unmarshal : string -> option (gmap string json).
Variable Marshal : gmap string json -> option string.
Variable sh : StreamHandler.
Variable channelType : string.

Local Abbreviation scan := (scanLoop Unmarshal Marshal sh channelType).
Local Abbreviation frames := (frameEvents Unmarshal Marshal sh channelType).
Local Abbreviation fwd := (forwardedLine Unmarshal Marshal sh channelType).
Local Abbreviation attemptOn := (processStreamAttempt Unmarshal Marshal sh).

(** A [return] inside the loop is a clean exit or a failed write. *)
Lemma scanLoop_returned (input : list string) (v v' : loop_vars)
    (cleanExit : bool) (err : option error) :
  scan input v = (Returned cleanExit err, v') →
  cleanExit = true ∧ err = None
  ∨ cleanExit = false ∧ err = Some ErrWriteToClient.
Proof.
  revert v. induction input as [|line rest IH]; intros v Hrun;
    cbn [scanLoop] in Hrun; [done|].
  repeat (case_match; simplify_eq; eauto).
Qed.

Lemma scanLoop_stops (input more : list string) (v v' : loop_vars)
    (cleanExit : bool) (err : option error) :
  scan input v = (Returned cleanExit err, v') →
  scan (input ++ more) v = (Returned cleanExit err, v').
Proof.
  revert v. induction input as [|line rest IH]; intros v Hrun;
    [done|].
  rewrite <- app_comm_cons. cbn [scanLoop] in *.
  repeat (case_match; simplify_eq; eauto).
Qed.

(** X9. Once the scanning loop returns, at the line [data: [DONE]], at
    the frame that completes the stream or at a failed write, no later
    line of the response matters: the attempt on a longer response, with
    or without a scanner error at its end, ends the same way in the same
    state. *)
Theorem processStreamAttempt_ignores_rest
    (input more : list string) (scanError scanError' : bool)
    (reads reads' : list (string * option bool))
    (attempt : Z) (st : attempt_state) (v : loop_vars)
    (cleanExit : bool) (err : option error) :
  scan input (mkVars (setStreamingHeaders (a_writer st)) (a_accumulatedText st) "" "")
  = (Returned cleanExit err, v) →
  attemptOn (mkResp (input ++ more) scanError' reads') channelType attempt st
  = attemptOn (mkResp input scanError reads) channelType attempt st.
Proof.
  intros Hrun. unfold processStreamAttempt. cbn [lines scan_error].
  destruct (negb _); [done|].
  by rewrite (scanLoop_stops _ more _ _ _ _ Hrun), Hrun.
Qed.

Lemma scanLoop_doneLine (rest : list string) (v : loop_vars) :
  scan (doneLine :: rest) v = (Returned true None, v).
Proof. reflexivity. Qed.

Lemma scanLoop_reaches_doneLine (before after : list string) (v : loop_vars) :
  ∃ cleanExit err v',
    scan (before ++ doneLine :: after) v = (Returned cleanExit err, v').
Proof.
  revert v. induction before as [|line rest IH]; intros v.
  { cbn [app]. rewrite scanLoop_doneLine. eauto. }
  rewrite <- app_comm_cons. cbn [scanLoop].
  repeat (case_match; simplify_eq; eauto).
Qed.

(** X10. A response with the line [data: [DONE]] never causes a retry,
    for any channel type: unless the writer fails, the attempt on it is a
    clean exit without error, whatever the text looks like, and lines
    behind that line are not read. *)
Theorem processStreamAttempt_doneLine
    (before after : list string) (scanError : bool)
    (reads : list (string * option bool)) (attempt : Z) (st : attempt_state) :
  let result :=
    attemptOn (mkResp (before ++ doneLine :: after) scanError reads)
      channelType attempt st in
  (result.1.1 = true ∧ result.1.2 = None
   ∨ result.1.1 = false ∧ result.1.2 = Some ErrWriteToClient
   ∨ result.1.1 = false ∧ result.1.2 = Some ErrStreamingNotSupported)
  ∧ result
    = attemptOn (mkResp (before ++ [doneLine]) false []) channelType 0 st.
Proof.
  intros result. subst result. unfold processStreamAttempt. cbn [lines scan_error].
  destruct (negb _); [by auto|].
  destruct (scanLoop_reaches_doneLine before [] (mkVars (setStreamingHeaders (a_writer st))
              (a_accumulatedText st) "" "")) as (c & e & v' & Hrun).
  rewrite Hrun.
  pose proof (scanLoop_stops _ after _ _ _ _ Hrun) as Hlong.
  rewrite <- app_assoc in Hlong. cbn [app] in Hlong. rewrite Hlong.
  split; [|done]. cbn [fst snd].
  destruct (scanLoop_returned _ _ _ _ _ Hrun) as [[-> ->]|[-> ->]]; auto.
Qed.

End Attempt.

Lemma processStreamAttempt_ignores_rest_witness :
  processStreamAttempt Codec.Unmarshal Codec.Marshal geminiHandler
    (mkResp ([foxFrame; doneLine] ++ [dogFrame]) true []) "gemini" 1
    (mkAttempt Http.new_writer "" 0)
  = processStreamAttempt Codec.Unmarshal Codec.Marshal geminiHandler
      (mkResp [foxFrame; doneLine] false []) "gemini" 1
      (mkAttempt Http.new_writer "" 0).
Proof.
  eapply (processStreamAttempt_ignores_rest Codec.Unmarshal Codec.Marshal
            geminiHandler "gemini" [foxFrame; doneLine] [dogFrame] false true [] [] 1
            (mkAttempt Http.new_writer "" 0) _ true None).
  vm_compute. reflexivity.
Defined.

Section Forwarding.

Variable Unmarshal : string -> option (gmap string json).
Variable Marshal : gmap string json -> option string.
Variable sh : StreamHandler.
Variable channelType : string.

Local Abbreviation scan := (scanLoop Unmarshal Marshal sh channelType).
Local Abbreviation frames := (frameEvents Unmarshal Marshal sh channelType).
Local Abbreviation fwd := (forwardedLine Unmarshal Marshal sh channelType).
Local Abbreviation attemptOn := (processStreamAttempt Unmarshal Marshal sh).

Lemma forwardable_other (line : string) :
  String.eqb line "" = false →
  Strings.HasPrefix line "data: " = false →
  forwardable Unmarshal line = true.
Proof. unfold forwardable. by intros -> ->. Qed.

(** The loop reads a prefix of the lines, and forwards of that prefix the
    lines that are [forwardable], all of them. *)
Lemma scanLoop_forwards (input : list string) (v v' : loop_vars) (exit : loop_exit) :
  scan input v = (exit, v') →
  ∃ consumed rest,
    input = consumed ++ rest
    ∧ Http.events (v_writer v')
      = Http.events (v_writer v) ++ frames (List.filter (forwardable Unmarshal) consumed)
    ∧ (exit = ScanEnded → rest = []).
Proof.
  revert v. induction input as [|line rest IH]; intros v Hrun; cbn [scanLoop] in Hrun.
  { simplify_eq. exists [], []. cbn. by rewrite app_nil_r. }
  assert (Hstop : ∀ c e v1, v_writer v1 = v_writer v →
    (Returned c e, v1) = (exit, v') →
    ∃ consumed rest0,
      line :: rest = consumed ++ rest0
      ∧ Http.events (v_writer v')
        = Http.events (v_writer v)
          ++ frames (List.filter (forwardable Unmarshal) consumed)
      ∧ (exit = ScanEnded → rest0 = [])).
  { intros c e v1 Hw Heq. injection Heq as <- <-.
    exists [], (line :: rest). cbn. rewrite app_nil_r, Hw. by repeat split. }
  assert (Hskip : forwardable Unmarshal line = false →
    scan rest v = (exit, v') →
    ∃ consumed rest0,
      line :: rest = consumed ++ rest0
      ∧ Http.events (v_writer v')
        = Http.events (v_writer v)
          ++ frames (List.filter (forwardable Unmarshal) consumed)
      ∧ (exit = ScanEnded → rest0 = [])).
  { intros Hno H. apply IH in H as (consumed & rest0 & -> & Hev & Hend).
    exists (line :: consumed), rest0. cbn [List.filter]. by rewrite Hno. }
  assert (Hgo : ∀ w v1,
    forwardable Unmarshal line = true →
    Http.write (frame (fwd line)) (v_writer v) = Some w →
    v_writer v1 = Http.flush w →
    scan rest v1 = (exit, v') →
    ∃ consumed rest0,
      line :: rest = consumed ++ rest0
      ∧ Http.events (v_writer v')
        = Http.events (v_writer v)
          ++ frames (List.filter (forwardable Unmarshal) consumed)
      ∧ (exit = ScanEnded → rest0 = [])).
  { intros w v1 Hyes Hw Hv1 H.
    apply write_events in Hw as [Hev _].
    apply IH in H as (consumed & rest0 & -> & Hev' & Hend).
    exists (line :: consumed), rest0. cbn [List.filter]. rewrite Hyes.
    rewrite frameEvents_cons, Hev', Hv1. cbn [Http.flush Http.record Http.events].
    by rewrite Hev, <- !app_assoc. }
  destruct (String.eqb line "") eqn:Hempty.
  { apply Hskip; [|done]. unfold forwardable. by rewrite Hempty. }
  destruct (Strings.HasPrefix line "data: ") eqn:Hprefix.
  - destruct (String.eqb (Strings.TrimPrefix line "data: ") "[DONE]") eqn:Hdone.
    { eapply Hstop; [|exact Hrun]. done. }
    destruct (Unmarshal (Strings.TrimPrefix line "data: ")) as [data|] eqn:Hdata.
    2:{ apply Hskip; [|done]. unfold forwardable.
        by rewrite Hempty, Hprefix, Hdone, Hdata. }
    assert (Hyes : forwardable Unmarshal line = true).
    { unfold forwardable. by rewrite Hempty, Hprefix, Hdone, Hdata. }
    set (chunk := extractTextFromData data channelType) in Hrun.
    set (v1 := if negb (String.eqb chunk "") then _ else v) in Hrun.
    assert (Hw1 : v_writer v1 = v_writer v).
    { unfold v1. by destruct (negb _). }
    change (if String.eqb channelType "gemini"
            then removeDoneTokensFromLine Unmarshal Marshal sh line else line)
      with (fwd line) in Hrun.
    rewrite Hw1 in Hrun.
    destruct (Http.write _ (v_writer v)) as [w|] eqn:Hwrite.
    + destruct (isStreamComplete _ _ _ _).
      * simplify_eq. apply write_events in Hwrite as [Hev _].
        exists [line], rest. cbn [List.filter]. rewrite Hyes.
        rewrite frameEvents_cons. cbn [Http.flush Http.record Http.events v_writer].
        rewrite Hev, <- !app_assoc. by repeat split.
      * eapply (Hgo w _ Hyes eq_refl); [|exact Hrun]. done.
    + eapply Hstop; [|exact Hrun]. done.
  - assert (Hyes : forwardable Unmarshal line = true) by by apply forwardable_other.
    rewrite <- (forwardedLine_other Unmarshal Marshal sh channelType line Hprefix)
      in Hrun at 1.
    destruct (Http.write _ (v_writer v)) as [w|] eqn:Hwrite.
    + eapply (Hgo w _ Hyes eq_refl); [|exact Hrun]. done.
    + eapply Hstop; [|exact Hrun]. done.
Qed.

(** The writes of a writer that never fails succeed, so the loop returns
    no error. *)
Lemma scanLoop_healthy (input : list string) (v v' : loop_vars) (exit : loop_exit) :
  Http.capacity (v_writer v) = None →
  scan input v = (exit, v') →
  Http.capacity (v_writer v') = None
  ∧ ∀ c e, exit = Returned c e → e = None.
Proof.
  revert v. induction input as [|line rest IH]; intros v Hcap Hrun;
    cbn [scanLoop] in Hrun.
  { by simplify_eq. }
  assert (Hwrite : ∀ data w1,
    Http.capacity w1 = None → 
    Http.write data w1 = Some (Http.record (Http.EvWrite data) w1)).
  { intros data w1 H. unfold Http.write. by rewrite H. }
  destruct (String.eqb line ""); [by eapply IH|].
  destruct (Strings.HasPrefix line "data: ").
  - destruct (String.eqb _ "[DONE]").
    { simplify_eq. split; [done|]. by intros c e [= <- <-]. }
    destruct (Unmarshal _) as [data|]; [|by eapply IH].
    set (v1 := if negb _ then _ else v) in Hrun.
    assert (Hcap1 : Http.capacity (v_writer v1) = None).
    { unfold v1. by destruct (negb _). }
    rewrite Hwrite in Hrun by done.
    destruct (isStreamComplete _ _ _ _).
    + simplify_eq. split; [done|]. by intros c e [= <- <-].
    + eapply IH; [|exact Hrun]. done.
  - rewrite Hwrite in Hrun by done. eapply IH; [|exact Hrun]. done.
Qed.

(** X11. Nothing is lost and nothing is added on the way to the client:
    an attempt reads a prefix of the lines of the response and forwards,
    in their order and as one frame each, exactly those of them that are
    not empty, not [data: [DONE]] and no [data: ] line with an undecodable
    payload. An attempt that ends without completion and without error has
    read them all. *)
Theorem processStreamAttempt_forwards (resp : Response) (attempt : Z)
    (st st' : attempt_state) (cleanExit : bool) (err : option error) :
  attemptOn resp channelType attempt st = (cleanExit, err, st') →
  ∃ consumed rest,
    lines resp = consumed ++ rest
    ∧ Http.events (a_writer st')
      = Http.events (a_writer st) ++ sseHeaderEvents
        ++ frames (List.filter (forwardable Unmarshal) consumed)
    ∧ (cleanExit = false → err = None → rest = []).
Proof.
  unfold processStreamAttempt. intros Hrun.
  destruct (setStreamingHeaders_events (a_writer st)) as [Hset _].
  destruct (negb _).
  { simplify_eq. exists [], (lines resp).
    cbn [app List.filter frameEvents mbind list_bind a_writer].
    by rewrite Hset, app_nil_r. }
  destruct (scanLoop _ _ _ _ _ _) as [exit v] eqn:Hscan.
  assert (Hkind : ∀ c e, exit = Returned c e →
            c = true ∧ e = None ∨ c = false ∧ e = Some ErrWriteToClient).
  { intros c e ->. by eapply scanLoop_returned. }
  apply scanLoop_forwards in Hscan as (consumed & rest & Hl & Hev & Hend).
  cbn [v_writer] in Hev. rewrite Hset, <- app_assoc in Hev.
  exists consumed, rest. split; [done|].
  destruct exit as [c e|].
  - simplify_eq. split; [done|]. intros -> ->.
    destruct (Hkind _ _ eq_refl) as [[? ?]|[? ?]]; done.
  - repeat case_match; simplify_eq; cbn [a_writer]; auto.
Qed.

End Forwarding.

Lemma processStreamAttempt_forwards_witness :
  ∃ consumed rest,
    ["event: x"; ""; brokenFrame; foxFrame; doneLine; dogFrame] = consumed ++ rest
    ∧ Http.events (a_writer
        (processStreamAttempt Codec.Unmarshal Codec.Marshal geminiHandler
           (mkResp ["event: x"; ""; brokenFrame; foxFrame; doneLine; dogFrame] false [])
           "gemini" 0 (mkAttempt Http.new_writer "" 0)).2)
      = sseHeaderEvents
        ++ frameEvents Codec.Unmarshal Codec.Marshal geminiHandler "gemini"
             (List.filter (forwardable Codec.Unmarshal) consumed).
Proof.
  destruct (processStreamAttempt_forwards Codec.Unmarshal Codec.Marshal
              geminiHandler "gemini"
              (mkResp ["event: x"; ""; brokenFrame; foxFrame; doneLine; dogFrame] false [])
              0 (mkAttempt Http.new_writer "" 0)
              (mkAttempt
                 (Http.mkWriter
                    (sseHeaderEvents
                     ++ [Http.EvWrite (frame "event: x"); Http.EvFlush;
                         Http.EvWrite (frame foxFrame); Http.EvFlush])
                    None true)
                 "The quick brown fox " 0)
              true None)
    as (consumed & rest & Hl & Hev & _).
  - vm_compute. reflexivity.
  - exists consumed, rest. split; [exact Hl|].
    etrans; [|exact Hev]. vm_compute. reflexivity.
Defined.

(** ** How an attempt can end *)

Section Outcome.

Variable Unmarshal : string -> option (gmap string json).
Variable Marshal : gmap string json -> option string.
Variable sh : StreamHandler.
Variable channelType : string.

Local Abbreviation scan := (scanLoop Unmarshal Marshal sh channelType).
Local Abbreviation attemptOn := (processStreamAttempt Unmarshal Marshal sh).
Local Abbreviation step := (iteration Unmarshal Marshal sh channelType).
Local Abbreviation run := (λ fuel, loop Unmarshal Marshal sh fuel channelType).

Lemma setStreamingHeaders_capacity (w : Http.ResponseWriter) :
  Http.capacity (setStreamingHeaders w) = Http.capacity w.
Proof. reflexivity. Qed.

(** X12. How an attempt can end. A clean exit carries no error. The
    only errors are the missing [Flusher], returned exactly when the writer
    has none, and a failed write, which needs a writer whose writes can
    fail. The counter of punctuation endings is reset or goes up by one,
    and never goes up in the first attempt of a session. *)
Theorem processStreamAttempt_outcome (resp : Response) (attempt : Z)
    (st st' : attempt_state) (cleanExit : bool) (err : option error) :
  attemptOn resp channelType attempt st = (cleanExit, err, st') →
  (cleanExit = true → err = None)
  ∧ (err = Some ErrStreamingNotSupported ↔ Http.flusher (a_writer st) = false)
  ∧ (err = None ∨ err = Some ErrStreamingNotSupported ∨ err = Some ErrWriteToClient)
  ∧ (Http.capacity (a_writer st) = None → err ≠ Some ErrWriteToClient)
  ∧ (a_resumePunctStreak st' = 0
     ∨ a_resumePunctStreak st' = a_resumePunctStreak st
     ∨ a_resumePunctStreak st' = a_resumePunctStreak st + 1 ∧ 0 < attempt).
Proof.
  unfold processStreamAttempt. intros Hrun.
  destruct (setStreamingHeaders_events (a_writer st)) as [_ Hflusher].
  rewrite Hflusher in Hrun.
  destruct (Http.flusher (a_writer st)); cbn [negb] in Hrun.
  2:{ simplify_eq. cbn [a_resumePunctStreak]. repeat split; auto; done. }
  destruct (scanLoop _ _ _ _ _ _) as [exit v] eqn:Hscan.
  destruct exit as [c e|].
  - simplify_eq. cbn [a_resumePunctStreak].
    destruct (scanLoop_returned _ _ _ _ _ _ _ _ _ Hscan) as [[-> ->]|[-> ->]];
      repeat split; auto; try done.
    intros Hcap.
    destruct (scanLoop_healthy Unmarshal Marshal sh channelType _
                (mkVars (setStreamingHeaders (a_writer st)) (a_accumulatedText st) "" "")
                _ _ Hcap Hscan) as [_ Hnone].
    by specialize (Hnone _ _ eq_refl).
  - destruct (scan_error resp).
    { simplify_eq. cbn [a_resumePunctStreak]. repeat split; auto; done. }
    destruct (0 <? attempt) eqn:Hattempt.
    + apply Z.ltb_lt in Hattempt.
      repeat case_match; simplify_eq; cbn [a_resumePunctStreak];
        repeat split; auto; done.
    + rewrite andb_false_r in Hrun. cbn [andb] in Hrun.
      repeat case_match; simplify_eq; cbn [a_resumePunctStreak];
        repeat split; auto; done.
Qed.

End Outcome.

(** ** How a session can end *)

Section Session.

Variable Unmarshal : string -> option (gmap string json).
Variable Marshal : gmap string json -> option string.
Variable sh : StreamHandler.
Variable channelType : string.

Local Abbreviation attemptOn := (processStreamAttempt Unmarshal Marshal sh).
Local Abbreviation step := (iteration Unmarshal Marshal sh channelType).
Local Abbreviation run := (λ fuel, loop Unmarshal Marshal sh fuel channelType).
Local Abbreviation handle :=
  (λ resp writer, HandleStreamingResponse Unmarshal Marshal sh resp writer channelType).

(** A writer without [Flusher] ends the session in its first attempt. *)
Lemma HandleStreamingResponse_plain_writer (resp : Response)
    (writer : Http.ResponseWriter) (retryRequestFunc : RetryFunc) :
  Http.flusher writer = false →
  handle resp writer retryRequestFunc
  = Some (Some ErrStreamingNotSupported,
          mkSession resp (mkAttempt (setStreamingHeaders writer) "" 0) 0
            [(1, maxRetries sh + 1)]).
Proof.
  intros Hf. unfold HandleStreamingResponse, startSession. cbn [loop].
  unfold iteration, processStreamAttempt.
  cbn [s_resp s_state consecutiveRetryCount attemptLog a_writer a_accumulatedText
       a_resumePunctStreak].
  destruct (setStreamingHeaders_events writer) as [_ ->]. rewrite Hf.
  reflexivity.
Qed.

(** The counter of punctuation endings after one attempt. *)
Lemma processStreamAttempt_streak (resp : Response) (attempt : Z)
    (st st' : attempt_state) (cleanExit : bool) (err : option error) :
  attemptOn resp channelType attempt st = (cleanExit, err, st') →
  a_resumePunctStreak st' = 0
  ∨ a_resumePunctStreak st' = a_resumePunctStreak st
  ∨ a_resumePunctStreak st' = a_resumePunctStreak st + 1 ∧ 0 < attempt.
Proof.
  unfold processStreamAttempt. intros Hrun.
  destruct (negb _); [simplify_eq; auto|].
  destruct (scanLoop _ _ _ _ _ _) as [[c e|] v]; [simplify_eq; auto|].
  destruct (scan_error resp); [simplify_eq; auto|].
  destruct (0 <? attempt) eqn:Hattempt.
  - apply Z.ltb_lt in Hattempt.
    repeat case_match; simplify_eq; cbn [a_resumePunctStreak]; auto.
  - rewrite andb_false_r in Hrun. cbn [andb] in Hrun.
    repeat case_match; simplify_eq; cbn [a_resumePunctStreak]; auto.
Qed.

Lemma iteration_streak (retryRequestFunc : RetryFunc) (s : session) :
  let after s' :=
    a_resumePunctStreak (s_state s') = 0
    ∨ a_resumePunctStreak (s_state s') = a_resumePunctStreak (s_state s)
    ∨ a_resumePunctStreak (s_state s') = a_resumePunctStreak (s_state s) + 1
      ∧ 0 < consecutiveRetryCount s in
  match step retryRequestFunc s with
  | inl s' => after s'
  | inr (_, s') => after s'
  end.
Proof.
  intros after. subst after. unfold iteration.
  destruct (processStreamAttempt _ _ _ _ _ _ _) as [[cleanExit err] st] eqn:Hrun.
  apply processStreamAttempt_streak in Hrun.
  repeat case_match; simplify_eq; cbn [s_state a_resumePunctStreak]; done.
Qed.

Lemma loop_streak (retryRequestFunc : RetryFunc) (fuel : nat) (s s' : session)
    (err : option error) :
  run fuel retryRequestFunc s = Some (err, s') →
  0 ≤ a_resumePunctStreak (s_state s) ≤ Z.max 0 (consecutiveRetryCount s - 1) →
  ∃ c, last (attemptLog s') = Some (c + 1, maxRetries sh + 1)
       ∧ 0 ≤ a_resumePunctStreak (s_state s') ≤ Z.max 0 c.
Proof.
  revert s. induction fuel as [|fuel IH]; intros s Hrun Hinv; [done|].
  cbn [loop] in Hrun.
  pose proof (iteration_trace Unmarshal Marshal sh channelType retryRequestFunc s)
    as Hstep.
  pose proof (iteration_streak retryRequestFunc s) as Hstreak. cbv zeta in Hstreak.
  destruct (iteration _ _ _ _ _ s) as [s1|[err1 s1]].
  - destruct Hstep as (_ & _ & _ & _ & Hcount & _ & _).
    apply (IH s1 Hrun). lia.
  - simplify_eq. destruct Hstep as (_ & _ & _ & _ & _ & _ & _ & Hlog).
    exists (consecutiveRetryCount s). rewrite Hlog, last_snoc. split; [done|]. lia.
Qed.

Lemma last_attemptEntries (c : Z) (n : nat) :
  last (attemptEntries sh c (S n)) = Some (c + Z.of_nat n + 1, maxRetries sh + 1).
Proof.
  unfold attemptEntries. rewrite seq_S, fmap_app. cbn [fmap list_fmap].
  by rewrite last_snoc.
Qed.

(** X14. The counter of punctuation endings stays below the number of
    attempts made: it lies between 0 and that number less one. So the
    punctuation heuristic, which needs the counter at 3, cannot end a
    session before its fourth attempt. *)
Theorem resumePunctStreak_bound (resp : Response) (writer : Http.ResponseWriter)
    (retryRequestFunc : RetryFunc) (err : option error) (s : session) :
  handle resp writer retryRequestFunc = Some (err, s) →
  0 ≤ a_resumePunctStreak (s_state s) ≤ Z.of_nat (length (attemptLog s)) - 1.
Proof.
  unfold HandleStreamingResponse. intros Hrun.
  pose proof (loop_trace _ _ _ _ _ _ _ _ _ Hrun)
    as (attempts & _ & _ & _ & _ & _ & Hlog & Hpos & _).
  apply loop_streak in Hrun as (c & Hlast & Hstreak); [|simpl; lia].
  cbn [startSession attemptLog consecutiveRetryCount app] in Hlog.
  rewrite Hlog in Hlast |- *.
  destruct (length attempts) as [|n]; [lia|].
  rewrite last_attemptEntries in Hlast.
  unfold attemptEntries. rewrite length_fmap, length_seq.
  simplify_eq. lia.
Qed.

(** The retry error is returned from a pass that started with the retry
    budget used up, and leaves the counter as it was. *)
Lemma iteration_exhausted (retryRequestFunc : RetryFunc) (s s' : session) (e : error) :
  step retryRequestFunc s = inr (Some e, s') →
  e = ErrRetryLimitExceeded ∨ e = ErrWriteErrorResponse →
  maxRetries sh ≤ consecutiveRetryCount s
  ∧ consecutiveRetryCount s' = consecutiveRetryCount s.
Proof.
  unfold iteration.
  destruct (processStreamAttempt _ _ _ _ _ _ _) as [[cleanExit err] st] eqn:Hrun.
  apply processStreamAttempt_trace in Hrun as (_ & _ & _ & _ & _ & _ & Herr & _).
  destruct err as [e0|].
  { intros [= <- <-] He. destruct (Herr _ eq_refl) as [-> | ->], He; done. }
  destruct cleanExit; [done|]. cbn [consecutiveRetryCount].
  destruct (Z.leb_spec (maxRetries sh) (consecutiveRetryCount s)) as [Hle|Hlt].
  - destruct (writeRetryError _ _ _) as [w e1]. intros [= <- <-] _. done.
  - destruct (retryRequestFunc _ _); [done|]. intros [= <- <-] [?|?]; done.
Qed.

Lemma loop_exhausted (retryRequestFunc : RetryFunc) (fuel : nat) (s s' : session)
    (e : error) :
  run fuel retryRequestFunc s = Some (Some e, s') →
  e = ErrRetryLimitExceeded ∨ e = ErrWriteErrorResponse →
  consecutiveRetryCount s ≤ maxRetries sh →
  consecutiveRetryCount s' = maxRetries sh
  ∧ Z.of_nat (length (attemptLog s'))
    = Z.of_nat (length (attemptLog s)) + (maxRetries sh - consecutiveRetryCount s) + 1.
Proof.
  revert s. induction fuel as [|fuel IH]; intros s Hrun He Hle; [done|].
  cbn [loop] in Hrun.
  pose proof (iteration_trace Unmarshal Marshal sh channelType retryRequestFunc s)
    as Hstep.
  destruct (iteration _ _ _ _ _ s) as [s1|[err1 s1]] eqn:Hit.
  - destruct Hstep as (_ & _ & _ & _ & Hcount & Hlt & Hlog).
    destruct (IH s1 Hrun He) as [Hc Hl]; [lia|].
    split; [done|]. rewrite Hl, Hlog, length_app. simpl. lia.
  - simplify_eq. destruct Hstep as (_ & _ & _ & _ & _ & _ & _ & Hlog).
    destruct (iteration_exhausted _ _ _ _ Hit He) as [Hmax Hsame].
    split; [lia|]. rewrite Hlog, length_app. simpl. lia.
Qed.

(** X15. The retry-limit error is never early: when a session ends with
    [retry limit exceeded], or with the failure to write that error, the
    retry counter stands at [maxRetries], and [maxRetries + 1] attempts
    have been made. *)
Theorem retry_error_after_all_attempts (resp : Response)
    (writer : Http.ResponseWriter) (retryRequestFunc : RetryFunc)
    (e : error) (s : session) :
  0 ≤ maxRetries sh →
  handle resp writer retryRequestFunc = Some (Some e, s) →
  e = ErrRetryLimitExceeded ∨ e = ErrWriteErrorResponse →
  consecutiveRetryCount s = maxRetries sh
  ∧ Z.of_nat (length (attemptLog s)) = maxRetries sh + 1.
Proof.
  unfold HandleStreamingResponse. intros Hmax Hrun He.
  destruct (loop_exhausted _ _ _ _ _ Hrun He) as [Hc Hl]; [done|].
  split; [done|]. rewrite Hl. simpl. lia.
Qed.

Lemma no_status_in_attempts (attempts : list (list string)) (code : Z) :
  Http.EvWriteHeader code
  ∉ attempts ≫= λ forwarded,
      sseHeaderEvents ++ frameEvents Unmarshal Marshal sh channelType forwarded.
Proof.
  intros Hin. apply list_elem_of_bind in Hin as (fl & Hin & _).
  apply elem_of_app in Hin as [Hin|Hin].
  - unfold sseHeaderEvents in Hin.
    repeat (apply elem_of_cons in Hin as [Hin|Hin]; [done|]).
    by apply elem_of_nil in Hin.
  - pose proof (frameEvents_body Unmarshal Marshal sh channelType fl) as Hbody.
    rewrite Forall_forall in Hbody. by apply Hbody in Hin.
Qed.

(** X16. The handler touches the status code in the retry error only:
    in a session on a fresh writer, [WriteHeader] is called if and only if
    the session ends with [retry limit exceeded] or with the failure to
    write that error, and then with 504, once, as the last call but for
    the write of the error body. *)
Theorem status_written_for_retry_error_only (resp : Response)
    (writer : Http.ResponseWriter) (retryRequestFunc : RetryFunc)
    (err : option error) (s : session) :
  Http.events writer = [] →
  handle resp writer retryRequestFunc = Some (err, s) →
  (∀ code, Http.EvWriteHeader code ∈ Http.events (a_writer (s_state s)) →
           code = 504
           ∧ (err = Some ErrRetryLimitExceeded ∨ err = Some ErrWriteErrorResponse))
  ∧ (err = Some ErrRetryLimitExceeded ∨ err = Some ErrWriteErrorResponse →
     ∃ before after,
       Http.events (a_writer (s_state s))
       = before ++ [Http.EvSetHeader "Content-Type" "application/json";
                    Http.EvWriteHeader 504] ++ after
       ∧ (∀ code, Http.EvWriteHeader code ∉ before)
       ∧ (after = [] ∨ after = [Http.EvWrite (errorBytes Marshal sh)])).
Proof.
  unfold HandleStreamingResponse. intros Hfresh Hrun.
  apply loop_trace in Hrun as (attempts & _ & _ & Hev & _).
  cbn [startSession s_state a_writer] in Hev. rewrite Hfresh in Hev.
  cbn [app] in Hev. rewrite Hev. split.
  - intros code Hin. apply elem_of_app in Hin as [Hin|Hin].
    { by apply no_status_in_attempts in Hin. }
    destruct err as [[]|]; cbn [retryErrorEvents] in Hin;
      try (by apply elem_of_nil in Hin);
      repeat (apply elem_of_cons in Hin as [Hin|Hin]; [simplify_eq; auto|]);
      by apply elem_of_nil in Hin.
  - intros [-> | ->]; cbn [retryErrorEvents]; eexists _, _;
      (split; [reflexivity|]); (split; [apply no_status_in_attempts|]); auto.
Qed.

End Session.

Lemma resumePunctStreak_bound_witness :
  a_resumePunctStreak (s_state (finalSession sentenceRun)) = 3
  ∧ 0 ≤ a_resumePunctStreak (s_state (finalSession sentenceRun))
      ≤ Z.of_nat (length (attemptLog (finalSession sentenceRun))) - 1.
Proof.
  split; [vm_compute; reflexivity|].
  apply (resumePunctStreak_bound Codec.Unmarshal Codec.Marshal geminiHandler "gemini"
           sentenceResponse Http.new_writer alwaysSentence (finalError sentenceRun)).
  vm_compute. reflexivity.
Defined.

Lemma retry_error_after_all_attempts_witness :
  consecutiveRetryCount (finalSession foxForeverRun) = 5
  ∧ Z.of_nat (length (attemptLog (finalSession foxForeverRun))) = 5 + 1.
Proof.
  apply (retry_error_after_all_attempts Codec.Unmarshal Codec.Marshal geminiHandler
           "gemini" foxResponse Http.new_writer alwaysFox ErrRetryLimitExceeded
           (finalSession foxForeverRun)).
  - vm_compute. discriminate.
  - vm_compute. reflexivity.
  - left. reflexivity.
Defined.

Lemma status_written_for_retry_error_only_witness :
  ∃ before after,
    Http.events (finalWriter foxForeverRun)
    = before ++ [Http.EvSetHeader "Content-Type" "application/json";
                 Http.EvWriteHeader 504] ++ after
    ∧ (∀ code, Http.EvWriteHeader code ∉ before).
Proof.
  destruct (status_written_for_retry_error_only Codec.Unmarshal Codec.Marshal
              geminiHandler "gemini" foxResponse Http.new_writer alwaysFox
              (Some ErrRetryLimitExceeded) (finalSession foxForeverRun))
    as [_ H].
  - reflexivity.
  - vm_compute. reflexivity.
  - destruct H as (before & after & Hev & Hno & _); [by left|].
    exists before, after. split; [exact Hev|exact Hno].
Defined.

(** ** Writers *)

Section Writers.

Variable Unmarshal : string -> option (gmap string json).
Variable Marshal : gmap string json -> option string.
Variable sh : StreamHandler.
Variable channelType : string.

Local Abbreviation attemptOn := (processStreamAttempt Unmarshal Marshal sh).
Local Abbreviation step := (iteration Unmarshal Marshal sh channelType).
Local Abbreviation run := (λ fuel, loop Unmarshal Marshal sh fuel channelType).
Local Abbreviation handle :=
  (λ resp writer, HandleStreamingResponse Unmarshal Marshal sh resp writer channelType).

(** X13. A writer without [Flusher] gets no intelligent streaming: the
    session ends in its first attempt with [streaming not supported],
    having set the four headers and nothing else; no line of the response
    is forwarded and no retry request is made. *)
Theorem HandleStreamingResponse_without_flusher (resp : Response)
    (writer : Http.ResponseWriter) (retryRequestFunc : RetryFunc) :
  Http.flusher writer = false →
  ∃ s,
    handle resp writer retryRequestFunc = Some (Some ErrStreamingNotSupported, s)
    ∧ Http.events (a_writer (s_state s)) = Http.events writer ++ sseHeaderEvents
    ∧ a_accumulatedText (s_state s) = ""
    ∧ consecutiveRetryCount s = 0
    ∧ upstreamResponses Unmarshal Marshal sh resp writer channelType retryRequestFunc
      = [resp].
Proof.
  intros Hf. eexists. split; [by apply HandleStreamingResponse_plain_writer|].
  cbn [s_state a_writer a_accumulatedText consecutiveRetryCount].
  destruct (setStreamingHeaders_events writer) as [-> Hfl].
  repeat split.
  unfold upstreamResponses, startSession. cbn [attemptedResponses].
  unfold iteration, processStreamAttempt.
  cbn [s_resp s_state consecutiveRetryCount attemptLog a_writer].
  by rewrite Hfl, Hf.
Qed.

Lemma processStreamAttempt_healthy (resp : Response) (attempt : Z)
    (st st' : attempt_state) (cleanExit : bool) (err : option error) :
  healthy (a_writer st) →
  attemptOn resp channelType attempt st = (cleanExit, err, st') →
  healthy (a_writer st') ∧ err = None.
Proof.
  intros [Hf Hcap] Hrun.
  pose proof (processStreamAttempt_trace _ _ _ _ _ _ _ _ _ _ Hrun)
    as (_ & _ & _ & _ & _ & _ & _ & Hfl).
  revert Hrun. unfold processStreamAttempt.
  destruct (setStreamingHeaders_events (a_writer st)) as [_ Hflusher].
  rewrite Hflusher, Hf. cbn [negb].
  destruct (scanLoop _ _ _ _ _ _) as [exit v] eqn:Hscan.
  apply scanLoop_healthy in Hscan as [Hcap' Hnone]; [|done].
  intros Hrun. unfold healthy. rewrite Hfl, Hf.
  destruct exit as [c e|].
  - simplify_eq. by rewrite (Hnone _ _ eq_refl).
  - repeat case_match; simplify_eq; done.
Qed.

Lemma iteration_healthy (retryRequestFunc : RetryFunc) (s : session) :
  healthy (a_writer (s_state s)) →
  match step retryRequestFunc s with
  | inl s' => healthy (a_writer (s_state s'))
  | inr (err, s') =>
    healthy (a_writer (s_state s'))
    ∧ (err = None ∨ err = Some ErrRetryLimitExceeded
       ∨ ∃ cause, err = Some (ErrRetryRequest cause))
  end.
Proof.
  intros Hh. unfold iteration.
  destruct (processStreamAttempt _ _ _ _ _ _ _) as [[cleanExit err] st] eqn:Hrun.
  apply processStreamAttempt_healthy in Hrun as [[Hf Hcap] ->]; [|done].
  destruct cleanExit; [split; [by split|by left]|].
  destruct (_ <=? _).
  - unfold writeRetryError, Http.write, Http.write_header, Http.header_set, Http.record.
    cbn [Http.capacity]. rewrite Hcap. split; [by split|by auto].
  - destruct (retryRequestFunc _ _); [by split|]. split; [by split|]. eauto.
Qed.

(** X17. With a writer that has a [Flusher] and whose writes succeed, a
    session ends in one of three ways: without error, with
    [retry limit exceeded], or with the error of a retry request. *)
Theorem HandleStreamingResponse_healthy (resp : Response)
    (writer : Http.ResponseWriter) (retryRequestFunc : RetryFunc)
    (err : option error) (s : session) :
  healthy writer →
  handle resp writer retryRequestFunc = Some (err, s) →
  healthy (a_writer (s_state s))
  ∧ (err = None ∨ err = Some ErrRetryLimitExceeded
     ∨ ∃ cause, err = Some (ErrRetryRequest cause)).
Proof.
  unfold HandleStreamingResponse.
  assert (Hstart : healthy (a_writer (s_state (startSession resp writer)))
                   → healthy writer) by done.
  intros Hh. revert Hh. generalize (S (Z.to_nat (maxRetries sh))).
  assert (Hgen : ∀ fuel s0,
    healthy (a_writer (s_state s0)) →
    run fuel retryRequestFunc s0 = Some (err, s) →
    healthy (a_writer (s_state s))
    ∧ (err = None ∨ err = Some ErrRetryLimitExceeded
       ∨ ∃ cause, err = Some (ErrRetryRequest cause))).
  { induction fuel as [|fuel IH]; intros s0 Hh Hrun; [done|].
    cbn [loop] in Hrun.
    pose proof (iteration_healthy retryRequestFunc s0 Hh) as Hstep.
    destruct (iteration _ _ _ _ _ s0) as [s1|[err1 s1]].
    - by eapply IH.
    - by simplify_eq. }
  intros fuel Hh. by apply Hgen.
Qed.

End Writers.

Lemma HandleStreamingResponse_without_flusher_witness :
  ∃ s,
    HandleStreamingResponse Codec.Unmarshal Codec.Marshal geminiHandler
      foxResponse plainWriter "gemini" alwaysFox
    = Some (Some ErrStreamingNotSupported, s)
    ∧ Http.events (a_writer (s_state s)) = sseHeaderEvents.
Proof.
  destruct (HandleStreamingResponse_without_flusher Codec.Unmarshal Codec.Marshal
              geminiHandler "gemini" foxResponse plainWriter alwaysFox)
    as (s & Hrun & Hev & _).
  - reflexivity.
  - exists s. split; [exact Hrun|exact Hev].
Defined.

Lemma HandleStreamingResponse_healthy_witness :
  healthy (finalWriter foxDogRun)
  ∧ (finalError foxDogRun = None
     ∨ finalError foxDogRun = Some ErrRetryLimitExceeded
     ∨ ∃ cause, finalError foxDogRun = Some (ErrRetryRequest cause)).
Proof.
  apply (HandleStreamingResponse_healthy Codec.Unmarshal Codec.Marshal geminiHandler
           "gemini" foxResponse Http.new_writer resumeWithDog).
  - split; reflexivity.
  - vm_compute. reflexivity.
Defined.

(** ** Pass-through *)

Lemma write_healthy (data : string) (w : Http.ResponseWriter) :
  Http.capacity w = None →
  Http.write data w = Some (Http.record (Http.EvWrite data) w).
Proof. unfold Http.write. by intros ->. Qed.

(** The loop of [handleSimpleStreamingResponse] writes and flushes the
    non-empty chunks it reads, until a write fails. *)
Lemma simpleLoop_copy (input : list (string * option bool)) (w : Http.ResponseWriter) :
  ∃ written,
    written `prefix_of` nonEmptyChunks input
    ∧ Http.events (simpleLoop input w)
      = Http.events w ++ (written ≫= λ data, [Http.EvWrite data; Http.EvFlush])
    ∧ (Http.capacity w = None → written = nonEmptyChunks input).
Proof.
  revert w. induction input as [|[data err] rest IH]; intros w.
  { exists []. cbn. by rewrite app_nil_r. }
  assert (Hne : nonEmptyChunks ((data, err) :: rest)
                = (if (0 <? String.length data)%nat then [data] else [])
                  ++ match err with None => nonEmptyChunks rest | Some _ => [] end).
  { unfold nonEmptyChunks. cbn [readChunks].
    destruct err; cbn [List.filter]; destruct (0 <? String.length data)%nat; done. }
  rewrite Hne. cbn [simpleLoop].
  destruct (0 <? String.length data)%nat.
  - destruct (Http.write data w) as [w1|] eqn:Hw; cbn [fmap option_fmap option_map].
    + pose proof (write_events _ _ _ Hw) as [Hev _].
      destruct err as [e|].
      * exists [data]. cbn [mbind list_bind app Http.flush Http.record Http.events].
        rewrite Hev, <- app_assoc. by repeat split.
      * destruct (IH (Http.flush w1)) as (written & Hpre & Hevs & Hall).
        exists (data :: written). cbn [mbind list_bind app].
        rewrite Hevs. cbn [Http.flush Http.record Http.events].
        rewrite Hev, <- !app_assoc. split; [by apply prefix_cons|]. split; [done|].
        intros Hcap. rewrite Hall; [done|].
        rewrite write_healthy in Hw by done. by simplify_eq.
    + exists []. cbn. rewrite app_nil_r. split; [apply prefix_nil|]. split; [done|].
      intros Hcap. by rewrite write_healthy in Hw.
  - cbn [app]. destruct err as [e|].
    + exists []. cbn. by rewrite app_nil_r.
    + apply IH.
Qed.

(** [io.Copy] does the same without flushing. *)
Lemma handleNormalResponse_copy (input : list (string * option bool))
    (w : Http.ResponseWriter) :
  ∃ written,
    written `prefix_of` nonEmptyChunks input
    ∧ Http.events (handleNormalResponse input w)
      = Http.events w ++ (Http.EvWrite <$> written)
    ∧ (Http.capacity w = None → written = nonEmptyChunks input).
Proof.
  revert w. induction input as [|[data err] rest IH]; intros w.
  { exists []. cbn. by rewrite app_nil_r. }
  assert (Hne : nonEmptyChunks ((data, err) :: rest)
                = (if (0 <? String.length data)%nat then [data] else [])
                  ++ match err with None => nonEmptyChunks rest | Some _ => [] end).
  { unfold nonEmptyChunks. cbn [readChunks].
    destruct err; cbn [List.filter]; destruct (0 <? String.length data)%nat; done. }
  rewrite Hne. cbn [handleNormalResponse].
  destruct (0 <? String.length data)%nat.
  - destruct (Http.write data w) as [w1|] eqn:Hw.
    + pose proof (write_events _ _ _ Hw) as [Hev _].
      destruct err as [e|].
      * exists [data]. cbn [fmap list_fmap app]. rewrite Hev. by repeat split.
      * destruct (IH w1) as (written & Hpre & Hevs & Hall).
        exists (data :: written). cbn [fmap list_fmap app].
        rewrite Hevs, Hev, <- !app_assoc. split; [by apply prefix_cons|].
        split; [done|].
        intros Hcap. rewrite Hall; [done|].
        rewrite write_healthy in Hw by done. by simplify_eq.
    + exists []. cbn. rewrite app_nil_r. split; [apply prefix_nil|]. split; [done|].
      intros Hcap. by rewrite write_healthy in Hw.
  - cbn [app]. destruct err as [e|].
    + exists []. cbn. by rewrite app_nil_r.
    + apply IH.
Qed.

(** X18. Pass-through streaming is a copy: after the four headers, the
    client is written the non-empty chunks read from the upstream, up to
    and including the chunk that comes with the first read error or
    [io.EOF], in their order and unchanged, each followed by a [Flush]
    when the writer has a [Flusher] and by none when it has not. Only a
    failed write ends the copy early. *)
Theorem handleSimpleStreamingResponse_copy (writer : Http.ResponseWriter)
    (resp : Response) :
  ∃ written,
    written `prefix_of` nonEmptyChunks (reads resp)
    ∧ Http.events (handleSimpleStreamingResponse writer resp)
      = Http.events writer ++ sseHeaderEvents
        ++ (if Http.flusher writer
            then written ≫= λ data, [Http.EvWrite data; Http.EvFlush]
            else Http.EvWrite <$> written)
    ∧ (Http.capacity writer = None → written = nonEmptyChunks (reads resp)).
Proof.
  unfold handleSimpleStreamingResponse.
  change (Http.header_set "X-Accel-Buffering" "no" _) with (setStreamingHeaders writer).
  destruct (setStreamingHeaders_events writer) as [Hset Hfl]. rewrite Hfl.
  destruct (Http.flusher writer); cbn [negb].
  - destruct (simpleLoop_copy (reads resp) (setStreamingHeaders writer))
      as (written & Hpre & Hev & Hall).
    exists written. by rewrite Hev, Hset, <- app_assoc.
  - destruct (handleNormalResponse_copy (reads resp) (setStreamingHeaders writer))
      as (written & Hpre & Hev & Hall).
    exists written. by rewrite Hev, Hset, <- app_assoc.
Qed.

Section Dispatch.

Variable Unmarshal : string -> option (gmap string json).
Variable Marshal : gmap string json -> option string.

(** X19. Without a [Flusher] every channel type degrades to a plain
    copy: the dispatcher sets the four headers, once for OpenAI and
    Anthropic and twice for the others, whose intelligent streaming
    fails first, and then copies the chunks of the first response
    without a single [Flush]; no retry request is made. *)
Theorem handleStreamingResponse_plain_copy (writer : Http.ResponseWriter)
    (resp : Response) (channelType : string) (retryFunc : RetryFunc) :
  Http.flusher writer = false →
  ∃ written,
    written `prefix_of` nonEmptyChunks (reads resp)
    ∧ (Http.events <$> handleStreamingResponse Unmarshal Marshal writer resp
                         channelType retryFunc)
      = Some (Http.events writer
              ++ (if String.eqb channelType "openai" || String.eqb channelType "anthropic"
                  then sseHeaderEvents else sseHeaderEvents ++ sseHeaderEvents)
              ++ (Http.EvWrite <$> written))
    ∧ (Http.capacity writer = None → written = nonEmptyChunks (reads resp)).
Proof.
  intros Hf. unfold handleStreamingResponse.
  assert (Hplain : ∀ w, Http.flusher w = false →
    handleSimpleStreamingResponse w resp
    = handleNormalResponse (reads resp) (setStreamingHeaders w)).
  { intros w Hw. unfold handleSimpleStreamingResponse.
    change (Http.header_set "X-Accel-Buffering" "no" _) with (setStreamingHeaders w).
    destruct (setStreamingHeaders_events w) as [_ ->]. by rewrite Hw. }
  destruct (setStreamingHeaders_events writer) as [Hset Hfl].
  destruct (String.eqb channelType "openai" || String.eqb channelType "anthropic").
  - rewrite Hplain by done.
    destruct (handleNormalResponse_copy (reads resp) (setStreamingHeaders writer))
      as (written & Hpre & Hev & Hall).
    exists written. cbn [fmap option_fmap option_map].
    by rewrite Hev, Hset, <- !app_assoc.
  - rewrite HandleStreamingResponse_plain_writer by done.
    cbn [s_state a_writer]. rewrite Hplain by by rewrite Hfl.
    destruct (handleNormalResponse_copy (reads resp)
                (setStreamingHeaders (setStreamingHeaders writer)))
      as (written & Hpre & Hev & Hall).
    destruct (setStreamingHeaders_events (setStreamingHeaders writer)) as [Hset' _].
    exists written. cbn [fmap option_fmap option_map].
    by rewrite Hev, Hset', Hset, <- !app_assoc.
Qed.

End Dispatch.

Lemma handleStreamingResponse_plain_copy_witness :
  Http.events <$> handleStreamingResponse Codec.Unmarshal Codec.Marshal
                    plainWriter twoChunks "gemini" alwaysFox
  = Some (sseHeaderEvents ++ sseHeaderEvents
          ++ [Http.EvWrite "data: a"; Http.EvWrite "data: b"]).
Proof.
  destruct (handleStreamingResponse_plain_copy Codec.Unmarshal Codec.Marshal
              plainWriter twoChunks "gemini" alwaysFox)
    as (written & _ & Hev & Hall).
  - reflexivity.
  - rewrite Hev, Hall by reflexivity. reflexivity.
Defined.

(** ** Sentence punctuation *)

Lemma sapp_nil_l (s : string) : "" +:+ s = s.
Proof. reflexivity. Qed.

Lemma first_lead (b sz lo hi : Z) :
  Utf8.first b = Utf8.Lead sz lo hi →
  2 ≤ sz ≤ 4 ∧ 0x80 ≤ lo ∧ hi ≤ 0xBF.
Proof.
  unfold Utf8.first. repeat (case_match; try done); intros; simplify_eq; lia.
Qed.

Lemma first_ascii (b : Z) : b < 0x80 → Utf8.first b = Utf8.AS.
Proof.
  intros H. unfold Utf8.first.
  by destruct (Z.ltb_spec b 128); [|lia].
Qed.

(** A sequence is never completed by an ASCII byte: decoding in front of
    one does not reach it. *)
Lemma DecodeRuneInString_before_ascii (b : ascii) (rest : string) (c : ascii) :
  byte c < 0x80 →
  ∃ r size,
    Utf8.DecodeRuneInString (String b (rest +:+ byteString c)) = (r, size)
    ∧ (1 ≤ Z.to_nat size ≤ S (String.length rest))%nat.
Proof.
  intros Hc. unfold Utf8.DecodeRuneInString, byteString.
  destruct (Utf8.first (byte b)) as [| |sz lo hi] eqn:Hf.
  - eexists _, _. split; [reflexivity|]. lia.
  - eexists _, _. split; [reflexivity|]. lia.
  - apply first_lead in Hf as (Hsz & Hlo & Hhi).
    assert (Hclo : (byte c <? lo) = true) by (apply Z.ltb_lt; lia).
    assert (Hccb : (byte c <? Utf8.locb) = true)
      by (apply Z.ltb_lt; unfold Utf8.locb; lia).
    destruct (len _ <? sz); [eexists _, _; split; [reflexivity|lia]|].
    destruct rest as [|c1 [|c2 [|c3 rest3]]];
      rewrite ?sapp_cons, ?sapp_nil_l, ?Hclo, ?Hccb; cbn [orb];
      repeat case_match;
      eexists _, _; (split; [reflexivity|]); cbn [String.length]; lia.
Qed.

Lemma sdrop_app_le (n : nat) (u v : string) :
  (n ≤ String.length u)%nat → sdrop n (u +:+ v) = sdrop n u +:+ v.
Proof.
  revert u. induction n as [|n IH]; intros [|b u] H; try done.
  - simpl in H. lia.
  - change (sdrop n (u +:+ v) = sdrop n u +:+ v). apply IH. simpl in H. lia.
Qed.

Lemma TrimLeftFunc_go_before_ascii (fuel : nat) (f : Z → bool) (u : string) (c : ascii) :
  byte c < 0x80 → f (byte c) = false →
  ∃ u', Strings.TrimLeftFunc_go fuel f (u +:+ byteString c) = u' +:+ byteString c.
Proof.
  intros Hc Hf. revert u. induction fuel as [|fuel IH]; intros u; [by exists u|].
  destruct u as [|b rest].
  - exists "". rewrite sapp_nil_l. unfold byteString.
    cbn [Strings.TrimLeftFunc_go Utf8.DecodeRuneInString].
    by rewrite first_ascii, Hf.
  - rewrite sapp_cons. cbn [Strings.TrimLeftFunc_go].
    destruct (DecodeRuneInString_before_ascii b rest c Hc) as (r & size & -> & Hsize).
    destruct (f r); [|by exists (String b rest)].
    rewrite <- sapp_cons, sdrop_app_le by (simpl; lia). apply IH.
Qed.

Lemma get_app_last (u : string) (c : ascii) :
  String.get (String.length u) (u +:+ byteString c) = Some c.
Proof. induction u as [|b u IH]; [done|]. rewrite sapp_cons. exact IH. Qed.

Lemma DecodeLastRuneInString_ascii (u : string) (c : ascii) :
  byte c < 0x80 →
  Utf8.DecodeLastRuneInString (u +:+ byteString c) = (byte c, 1).
Proof.
  intros Hc. unfold Utf8.DecodeLastRuneInString, Utf8.byte_at, len.
  rewrite length_append. cbn [byteString String.length].
  destruct (Z.eqb_spec (Z.of_nat (String.length u + 1)) 0) as [|_]; [lia|].
  replace (Z.to_nat (Z.of_nat (String.length u + 1) - 1)) with (String.length u) by lia.
  rewrite get_app_last.
  by destruct (Z.ltb_spec (byte c) Utf8.RuneSelf); [|unfold Utf8.RuneSelf in *; lia].
Qed.

Lemma TrimRightFunc_ascii (f : Z → bool) (u : string) (c : ascii) :
  byte c < 0x80 → f (byte c) = false →
  Strings.TrimRightFunc (u +:+ byteString c) f = u +:+ byteString c.
Proof.
  intros Hc Hf. unfold Strings.TrimRightFunc.
  rewrite length_append. cbn [byteString String.length].
  rewrite Nat.add_1_r. cbn [Strings.TrimRightFunc_go].
  rewrite DecodeLastRuneInString_ascii, Hf by done.
  by destruct (u +:+ byteString c).
Qed.

Lemma last_runes_go (fuel : nat) (u : string) (c : ascii) :
  (String.length u < fuel)%nat → byte c < 0x80 →
  last (Utf8.runes_go fuel (u +:+ byteString c)) = Some (byte c).
Proof.
  intros Hfuel Hc. revert u Hfuel.
  induction fuel as [|fuel IH]; intros u Hfuel; [lia|].
  destruct u as [|b rest].
  - rewrite sapp_nil_l. unfold byteString.
    cbn [Utf8.runes_go Utf8.DecodeRuneInString].
    rewrite first_ascii by done. by destruct fuel.
  - rewrite sapp_cons. cbn [Utf8.runes_go].
    destruct (DecodeRuneInString_before_ascii b rest c Hc) as (r & size & -> & Hsize).
    rewrite <- sapp_cons, sdrop_app_le by (simpl; lia).
    assert (Hlen : (String.length (sdrop (Z.to_nat size) (String b rest)) < fuel)%nat).
    { pose proof (stake_sdrop (Z.to_nat size) (String b rest)) as Hsplit.
      apply (f_equal String.length) in Hsplit.
      rewrite length_append, length_stake in Hsplit. simpl in *. lia. }
    specialize (IH _ Hlen).
    destruct (Utf8.runes_go fuel _) as [|r' l]; [done|]. exact IH.
Qed.

Lemma ContainsRune_punctuations (c : ascii) :
  Strings.ContainsRune punctuations (byte c) = existsb (Ascii.eqb c) asciiPunctuation.
Proof.
  destruct c as [[] [] [] [] [] [] [] []]; vm_compute; reflexivity.
Qed.

(** X20. The punctuation heuristic on a text that ends with an ASCII
    character other than white space: whatever stands in front of it, the
    text counts as ending a sentence exactly when that character is one of
    [.], [!], [?] and the two ASCII quotes. A comma, a colon, a closing
    bracket or a letter never does. *)
Theorem endsWithSentencePunctuation_ascii (text : string) (c : ascii) :
  byte c < 0x80 →
  IsSpace (byte c) = false →
  endsWithSentencePunctuation (text +:+ byteString c)
  = existsb (Ascii.eqb c) asciiPunctuation.
Proof.
  intros Hc Hs.
  unfold endsWithSentencePunctuation, Strings.TrimSpace, Strings.TrimLeftFunc.
  cbv zeta.
  destruct (TrimLeftFunc_go_before_ascii
              (String.length (text +:+ byteString c)) IsSpace text c Hc Hs) as [u' ->].
  rewrite TrimRightFunc_ascii by done.
  rewrite length_append. cbn [byteString String.length].
  destruct (Nat.eqb_spec (String.length u' + 1) 0) as [|_]; [lia|].
  unfold Utf8.runes. rewrite last_runes_go; [|rewrite length_append; simpl; lia|done].
  apply ContainsRune_punctuations.
Qed.

Lemma endsWithSentencePunctuation_ascii_witness :
  endsWithSentencePunctuation ("Go on" +:+ byteString ",") = false
  ∧ endsWithSentencePunctuation ("He said " +:+ byteString dquote) = true.
Proof.
  split.
  - apply (endsWithSentencePunctuation_ascii "Go on" ","); [vm_compute; reflexivity|reflexivity].
  - apply (endsWithSentencePunctuation_ascii "He said " dquote);
      [vm_compute; reflexivity|reflexivity].
Defined.

(** ** Done-tokens and completion *)

(** X21. For Gemini and for every channel type other than OpenAI and
    Anthropic, a configured done-token anywhere in the accumulated text,
    at its end, in its middle or put together from several chunks,
    completes the stream at any frame, whatever the frame holds. *)
Theorem done_token_completes_stream (sh : StreamHandler) (data : gmap string json)
    (channelType before token after : string) :
  channelType ≠ "openai" → channelType ≠ "anthropic" →
  token ∈ doneTokenPatterns sh →
  isStreamComplete sh data channelType (before +:+ token +:+ after) = true.
Proof.
  intros Ho Ha Hin. apply String.eqb_neq in Ho, Ha.
  assert (Hc : containsDoneToken (doneTokenPatterns sh) (before +:+ token +:+ after)
               = true).
  { apply containsDoneToken_spec. exists token. split; [done|].
    apply Contains_spec. by exists before, after. }
  unfold isStreamComplete, isGeminiComplete, isGenericComplete.
  rewrite Ho, Ha, Hc. by destruct (String.eqb channelType "gemini").
Qed.

Lemma done_token_completes_stream_witness :
  isStreamComplete geminiHandler ∅ "gemini" ("All is " +:+ "done" +:+ " by now") = true.
Proof.
  apply (done_token_completes_stream geminiHandler ∅ "gemini" "All is " "done" " by now").
  - discriminate.
  - discriminate.
  - vm_compute. right. right. left.
Defined.

(** ** The model of a request *)

Lemma Split_nonempty (s : string) (sep : ascii) : Split s sep ≠ [].
Proof.
  destruct s as [|c t]; simpl; [done|].
  destruct (Ascii.eqb c sep); [done|]. by destruct (Split t sep).
Qed.

(** Splitting at a separator splits the two sides. *)
Lemma Split_app (a b : string) (sep : ascii) :
  Split (a +:+ String sep b) sep = Split a sep ++ Split b sep.
Proof.
  induction a as [|c a IH].
  - rewrite sapp_nil_l. cbn [Split]. by rewrite Ascii.eqb_refl.
  - rewrite sapp_cons. cbn [Split]. rewrite IH.
    destruct (Ascii.eqb c sep); [done|].
    pose proof (Split_nonempty a sep). by destruct (Split a sep).
Qed.

Lemma Split_none (s : string) (sep : ascii) :
  Strings.Contains s (String sep "") = false → Split s sep = [s].
Proof.
  induction s as [|c s IH]; [done|].
  cbn [Strings.Contains Strings.HasPrefix Split].
  rewrite andb_true_r, Ascii.eqb_sym.
  destruct (Ascii.eqb c sep); [done|]. cbn [orb]. by intros ->%IH.
Qed.

(** The first piece of a text that begins with a piece free of the
    separator. *)
Lemma Split_hd (a b : string) (sep : ascii) :
  Strings.Contains a (String sep "") = false →
  hd "" (Split (a +:+ b) sep) = a +:+ hd "" (Split b sep).
Proof.
  induction a as [|c a IH]; [done|].
  cbn [Strings.Contains Strings.HasPrefix].
  rewrite andb_true_r, Ascii.eqb_sym, sapp_cons. cbn [Split].
  destruct (Ascii.eqb c sep); [done|]. cbn [orb]. intros H%IH.
  pose proof (Split_nonempty (a +:+ b) sep).
  destruct (Split (a +:+ b) sep); [done|]. cbn [hd] in *. by rewrite H.
Qed.

Lemma modelOfPath_skip (before rest : list string) :
  "models" ∉ before →
  modelOfPath (before ++ rest) = modelOfPath rest.
Proof.
  induction before as [|part before IH]; [done|].
  intros Hno. apply not_elem_of_cons in Hno as [Hne Hno].
  cbn [app modelOfPath].
  destruct (String.eqb_spec part "models") as [->|_]; [done|]. by apply IH.
Qed.

(** The path decides only through a segment [models] that has a segment
    behind it. *)
Lemma modelOfPath_none (parts : list string) :
  (∀ i, parts !! i = Some "models" → S i = length parts) →
  modelOfPath parts = None.
Proof.
  induction parts as [|part rest IH]; [done|]. intros Hlast. cbn [modelOfPath].
  assert (Hrest : modelOfPath rest = None).
  { apply IH. intros i Hi. specialize (Hlast (S i) Hi). simpl in Hlast. lia. }
  destruct (String.eqb_spec part "models") as [->|_]; [|done].
  destruct rest as [|modelPart rest]; [done|].
  specialize (Hlast O eq_refl). simpl in Hlast. lia.
Qed.

Section ModelOf.

Variable UnmarshalModel : string -> option string.

(** X22. The Gemini form of a path: behind any prefix without a segment
    [models], the path [/models/<name>] gives [<name>], also when a colon
    and an action or a slash and more segments follow, provided the name
    has neither slash nor colon. The body is not looked at, even when it
    names another model. *)
Theorem ExtractModel_path (before name tail bodyBytes : string) :
  "models" ∉ Split before "/" →
  Strings.Contains name "/" = false →
  Strings.Contains name ":" = false →
  tail = "" ∨ (∃ t, tail = String ":" t) ∨ (∃ t, tail = String "/" t) →
  ExtractModel UnmarshalModel (before +:+ "/models/" +:+ name +:+ tail) bodyBytes
  = name.
Proof.
  intros Hbefore Hslash Hcolon Htail. unfold ExtractModel.
  change ("/models/" +:+ name +:+ tail)
    with (String "/" ("models" +:+ String "/" (name +:+ tail))).
  rewrite !Split_app, modelOfPath_skip by done.
  change (Split "models" "/") with ["models"]. cbn [app modelOfPath String.eqb].
  change (String.eqb "models" "models") with true. cbv iota.
  pose proof (Split_nonempty (name +:+ tail) "/") as Hne.
  pose proof (Split_hd name tail "/" Hslash) as Hhd.
  destruct (Split (name +:+ tail) "/") as [|modelPart rest]; [done|].
  cbn [hd] in Hhd. subst modelPart.
  destruct Htail as [->|[[t ->]|[t ->]]].
  - change (hd "" (Split "" "/")) with "". rewrite sapp_nil_r.
    by rewrite Split_none.
  - pose proof (Split_nonempty (String ":" t) "/") as Hne'.
    cbn [Split] in *. change (Ascii.eqb ":" "/") with false in *. cbv iota in *.
    destruct (Split t "/") as [|x xs]; cbn [hd];
      rewrite Split_app, (Split_none name) by done; done.
  - cbn [Split]. rewrite Ascii.eqb_refl. cbn [hd]. rewrite sapp_nil_r.
    by rewrite Split_none.
Qed.

(** X23. The OpenAI form: when no segment [models] of the path has a
    segment behind it, the model is the one the body names, with one
    leading [models/] removed; it is empty when the body does not decode
    or names none. *)
Theorem ExtractModel_body (path bodyBytes : string) :
  (∀ i, Split path "/" !! i = Some "models" → S i = length (Split path "/")) →
  ExtractModel UnmarshalModel path bodyBytes
  = match UnmarshalModel bodyBytes with
    | Some model => Strings.TrimPrefix model "models/"
    | None => ""
    end.
Proof.
  intros Hlast. unfold ExtractModel. rewrite modelOfPath_none by done.
  destruct (UnmarshalModel bodyBytes) as [model|]; [|done].
  by destruct (String.eqb_spec model "") as [->|_].
Qed.

End ModelOf.

Lemma ExtractModel_path_witness :
  ExtractModel bodyIsModel
    ("/proxy/g/v1beta" +:+ "/models/" +:+ "gemini-pro" +:+ ":streamGenerateContent")
    "gpt-4"
  = "gemini-pro".
Proof.
  apply (ExtractModel_path bodyIsModel "/proxy/g/v1beta" "gemini-pro"
           ":streamGenerateContent" "gpt-4").
  - change (Split "/proxy/g/v1beta" "/") with [""; "proxy"; "g"; "v1beta"].
    rewrite !not_elem_of_cons. repeat split; try discriminate.
    apply not_elem_of_nil.
  - reflexivity.
  - reflexivity.
  - right. left. by eexists.
Defined.

Lemma ExtractModel_body_witness :
  ExtractModel bodyIsModel "/proxy/g/v1beta/openai/chat/completions"
    "models/gemini-pro"
  = "gemini-pro".
Proof.
  rewrite (ExtractModel_body bodyIsModel "/proxy/g/v1beta/openai/chat/completions"
             "models/gemini-pro"); [reflexivity|].
  intros i. vm_compute.
  do 7 (destruct i as [|i]; [discriminate|]). discriminate.
Defined.

(** ** What a retry request is given *)

Section Requests.

Variable Unmarshal : string -> option (gmap string json).
Variable Marshal : gmap string json -> option string.
Variable sh : StreamHandler.
Variable channelType : string.

Local Abbreviation frames := (frameEvents Unmarshal Marshal sh channelType).
Local Abbreviation fwd := (forwardedLine Unmarshal Marshal sh channelType).
Local Abbreviation chunkOf := (textChunk Unmarshal channelType).
Local Abbreviation step := (iteration Unmarshal Marshal sh channelType).
Local Abbreviation run := (λ fuel, loop Unmarshal Marshal sh fuel channelType).
Local Abbreviation responses :=
  (λ fuel, attemptedResponses Unmarshal Marshal sh fuel channelType).

(** A pass that goes on has got its next response from the retry
    function, called with the text accumulated so far. *)
Lemma iteration_request (retryRequestFunc : RetryFunc) (s s' : session) :
  step retryRequestFunc s = inl s' →
  retryRequestFunc (Z.to_nat (consecutiveRetryCount s))
    (a_accumulatedText (s_state s'))
  = inl (s_resp s').
Proof.
  unfold iteration.
  destruct (processStreamAttempt _ _ _ _ _ _ _) as [[cleanExit err] st].
  destruct err; [done|]. destruct cleanExit; [done|].
  cbn [consecutiveRetryCount]. destruct (_ <=? _).
  { by destruct (writeRetryError _ _ _). }
  replace (consecutiveRetryCount s + 1 - 1) with (consecutiveRetryCount s) by lia.
  destruct (retryRequestFunc _ _) as [newResp|cause] eqn:Hcall; [|done].
  intros [= <-]. exact Hcall.
Qed.

Lemma loop_requests (retryRequestFunc : RetryFunc) (fuel : nat) (s s' : session)
    (err : option error) :
  run fuel retryRequestFunc s = Some (err, s') →
  0 ≤ consecutiveRetryCount s →
  ∃ attempts : list (list string),
    Forall2 (λ forwarded r, forwarded `sublist_of` lines r) attempts
      (responses fuel retryRequestFunc s)
    ∧ Http.events (a_writer (s_state s'))
      = Http.events (a_writer (s_state s))
        ++ (attempts ≫= λ forwarded, sseHeaderEvents ++ frames forwarded)
        ++ retryErrorEvents Marshal sh err
    ∧ ∀ k r,
        responses fuel retryRequestFunc s !! S k = Some r →
        retryRequestFunc (Z.to_nat (consecutiveRetryCount s) + k)%nat
          (a_accumulatedText (s_state s)
           +:+ concatText (chunkOf <$> concat (take (S k) attempts)))
        = inl r.
Proof.
  revert s. induction fuel as [|fuel IH]; intros s Hrun Hcount; [done|].
  cbn [loop attemptedResponses] in *.
  pose proof (iteration_trace Unmarshal Marshal sh channelType retryRequestFunc s)
    as Hstep.
  destruct (iteration _ _ _ _ _ s) as [s1|[err1 s1]] eqn:Hit.
  - destruct Hstep as (fl & Hsub & Hev & Hacc & Hc & Hlt & Hlog).
    apply iteration_request in Hit.
    destruct (IH s1 Hrun) as (attempts & Hall & Hev' & Hreq); [lia|].
    exists (fl :: attempts). split; [by constructor|]. split.
    { cbn [mbind list_bind]. by rewrite Hev', Hev, <- !app_assoc. }
    intros [|k] r Hr.
    + cbn [take concat]. rewrite app_nil_r, Nat.add_0_r, <- Hacc.
      destruct fuel as [|fuel']; [done|].
      cbn [attemptedResponses lookup list_lookup] in Hr. by simplify_eq.
    + cbn [lookup list_lookup] in Hr. specialize (Hreq k r Hr).
      rewrite Hc, Hacc in Hreq.
      replace (Z.to_nat (consecutiveRetryCount s + 1) + k)%nat
        with (Z.to_nat (consecutiveRetryCount s) + S k)%nat in Hreq by lia.
      rewrite firstn_cons. cbn [concat].
      by rewrite fmap_app, concatText_app, <- sapp_assoc.
  - simplify_eq.
    destruct Hstep as (fl & extra & Hsub & Hev & _).
    exists [fl]. split; [by repeat constructor|]. split.
    { cbn [mbind list_bind]. by rewrite Hev, app_nil_r, <- !app_assoc. }
    intros k r Hr. done.
Qed.

(** X24. What the upstream is asked to continue from: in every session,
    attempt by attempt lines of the response are forwarded to the client,
    and the retry request that follows attempt number [k] is the call
    number [k] of the retry function, made with the texts of all the
    lines forwarded so far, in attempts 0 to [k], put together; the
    response it gives is the one attempt [k + 1] reads. *)
Theorem retry_requests_carry_forwarded_text (resp : Response)
    (writer : Http.ResponseWriter) (retryRequestFunc : RetryFunc)
    (err : option error) (s : session) :
  HandleStreamingResponse Unmarshal Marshal sh resp writer channelType
    retryRequestFunc = Some (err, s) →
  ∃ attempts : list (list string),
    Forall2 (λ forwarded r, forwarded `sublist_of` lines r) attempts
      (upstreamResponses Unmarshal Marshal sh resp writer channelType
         retryRequestFunc)
    ∧ Http.writes (Http.events (a_writer (s_state s)))
      = Http.writes (Http.events writer)
        ++ ((λ line, frame (fwd line)) <$> concat attempts)
        ++ Http.writes (retryErrorEvents Marshal sh err)
    ∧ ∀ k r,
        upstreamResponses Unmarshal Marshal sh resp writer channelType
          retryRequestFunc !! S k = Some r →
        retryRequestFunc k (concatText (chunkOf <$> concat (take (S k) attempts)))
        = inl r.
Proof.
  unfold HandleStreamingResponse, upstreamResponses. intros Hrun.
  apply loop_requests in Hrun as (attempts & Hall & Hev & Hreq); [|done].
  exists attempts. split; [done|]. split.
  - rewrite Hev. cbn [startSession s_state a_writer retryErrorEvents].
    rewrite !writes_app, writes_attempts. done.
  - intros k r Hr. apply Hreq in Hr.
    by cbn [startSession s_state a_accumulatedText consecutiveRetryCount] in Hr.
Qed.

End Requests.

Lemma retry_requests_carry_forwarded_text_witness :
  ∃ attempts : list (list string),
    Forall2 (λ forwarded r, forwarded `sublist_of` lines r) attempts
      (upstreamResponses Codec.Unmarshal Codec.Marshal geminiHandler
         foxResponse Http.new_writer "gemini" resumeWithDog)
    ∧ ∀ k r,
        upstreamResponses Codec.Unmarshal Codec.Marshal geminiHandler
          foxResponse Http.new_writer "gemini" resumeWithDog !! S k = Some r →
        resumeWithDog k
          (concatText (textChunk Codec.Unmarshal "gemini"
                       <$> concat (take (S k) attempts)))
        = inl r.
Proof.
  destruct (retry_requests_carry_forwarded_text Codec.Unmarshal Codec.Marshal
              geminiHandler "gemini" foxResponse Http.new_writer resumeWithDog
              (finalError foxDogRun) (finalSession foxDogRun))
    as (attempts & Hall & _ & Hreq).
  - vm_compute. reflexivity.
  - exists attempts. split; [exact Hall|exact Hreq].
Defined.

Lemma processStreamAttempt_outcome_witness :
  let st' :=
    (processStreamAttempt Codec.Unmarshal Codec.Marshal geminiHandler
       sentenceResponse "gemini" 2 (mkAttempt Http.new_writer "" 1)).2 in
  a_resumePunctStreak st' = 0
  ∨ a_resumePunctStreak st' = 1
  ∨ a_resumePunctStreak st' = 1 + 1 ∧ 0 < 2.
Proof.
  destruct (processStreamAttempt_outcome Codec.Unmarshal Codec.Marshal geminiHandler
              "gemini" sentenceResponse 2 (mkAttempt Http.new_writer "" 1)
              (processStreamAttempt Codec.Unmarshal Codec.Marshal geminiHandler
                 sentenceResponse "gemini" 2 (mkAttempt Http.new_writer "" 1)).2
              false None)
    as (_ & _ & _ & _ & Hstreak).
  - vm_compute. reflexivity.
  - exact Hstreak.
Defined.

(** ** The dispatcher *)

Section Returns.

Variable Unmarshal : string -> option (gmap string json).
Variable Marshal : gmap string json -> option string.

(** X25. The dispatcher always returns, and whichever way it takes,
    simple streaming, intelligent streaming or intelligent streaming and
    then the fallback, the first calls it makes on the writer set the four
    SSE headers. *)
Theorem handleStreamingResponse_sets_headers (writer : Http.ResponseWriter)
    (resp : Response) (channelType : string) (retryFunc : RetryFunc) :
  ∃ writer' rest,
    handleStreamingResponse Unmarshal Marshal writer resp channelType retryFunc
    = Some writer'
    ∧ Http.events writer' = Http.events writer ++ sseHeaderEvents ++ rest.
Proof.
  unfold handleStreamingResponse.
  destruct (String.eqb channelType "openai" || String.eqb channelType "anthropic").
  { destruct (handleSimpleStreamingResponse_events writer resp) as (rest & Hev & _).
    by eexists _, rest. }
  destruct (HandleStreamingResponse_returns Unmarshal Marshal
              (handler (CreateProcessor channelType)) resp writer channelType retryFunc)
    as (err & s & Hrun).
  rewrite Hrun. unfold HandleStreamingResponse in Hrun.
  apply loop_trace in Hrun
    as (attempts & _ & _ & Hev & _ & _ & _ & Hpos & _).
  cbn [startSession s_state a_writer] in Hev.
  destruct attempts as [|fl attempts]; [simpl in Hpos; lia|].
  cbn [mbind list_bind] in Hev. rewrite <- !app_assoc in Hev.
  destruct err as [e|].
  - destruct (handleSimpleStreamingResponse_events (a_writer (s_state s)) resp)
      as (rest & Hev' & _).
    eexists _, _. split; [reflexivity|]. rewrite Hev', Hev, <- !app_assoc. done.
  - eexists _, _. split; [reflexivity|]. exact Hev.
Qed.

End Returns.

(** ** The retry request of the Gemini channel *)

Section GeminiRetry.

Variable UnmarshalMap : string -> option (option (gmap string json)).
Variable Marshal : gmap string json -> option string.

(** X26. The body of a Gemini retry request. When the original body
    decodes, [null] counting as the empty object, and the retry body
    survives encoding and decoding, the request handed to the client
    carries the encoding of the original body with the retry context
    added and the marker injected, and a content length equal to the
    length of that encoding. The conversation of the body sent has two
    entries more than the original one, and the marker is the last part
    of its system instruction. *)
Theorem createRetryRequest_gemini_body
    (send : Request → Response + string)
    (originalBodyBytes accumulatedText retryBodyBytes sent : string)
    (originalBody : option (gmap string json)) :
  let body := default ∅ originalBody in
  let retryBody := buildRetryRequestBody body accumulatedText "gemini" in
  UnmarshalMap originalBodyBytes = Some originalBody →
  Marshal retryBody = Some retryBodyBytes →
  UnmarshalMap retryBodyBytes = Some (Some retryBody) →
  Marshal (injectSystemPrompt retryBody) = Some sent →
  createRetryRequest UnmarshalMap Marshal "gemini"
    (ReshapeStreamReqBody UnmarshalMap Marshal) None send
    originalBodyBytes accumulatedText
  = Some (match send (mkRequest sent (len sent)) with
          | inl resp => inl resp
          | inr _ => inr "retry request failed"
          end)
  ∧ (∀ contents, body !! "contents" = Some (JArr contents) →
       ∃ contents',
         injectSystemPrompt retryBody !! "contents" = Some (JArr contents')
         ∧ contents `sublist_of` contents'
         ∧ length contents' = (length contents + 2)%nat)
  ∧ ∃ instruction parts,
      injectSystemPrompt retryBody !! "systemInstruction" = Some (JObj instruction)
      ∧ instruction !! "parts" = Some (JArr (parts ++ [newSystemPromptPart])).
Proof.
  intros body retryBody Hdecode Hencode Hround Hsent.
  split; [|split].
  - unfold createRetryRequest. rewrite Hdecode. fold body. fold retryBody.
    rewrite Hencode. unfold ReshapeStreamReqBody. cbn [Body ContentLength].
    rewrite Hround, Hsent. by destruct (send _).
  - intros contents Hc.
    destruct (buildRetryRequestBody_cases accumulatedText "gemini") as (f & Hf & Hsub).
    rewrite injectSystemPrompt_eq, lookup_insert_ne, lookup_delete_ne by done.
    unfold retryBody. rewrite Hf.
    change (conversationKey "gemini") with "contents". rewrite Hc. cbn [as_array].
    exists (f contents). split; [apply lookup_insert_eq|]. apply Hsub.
  - exists (mergedInstruction retryBody), 
      (partsOf (retryBody !! "system_instruction")
       ++ partsOf (retryBody !! "systemInstruction")).
    rewrite injectSystemPrompt_eq. split; [apply lookup_insert_eq|].
    unfold mergedInstruction. by rewrite lookup_insert_eq, app_assoc.
Qed.

End GeminiRetry.

Lemma createRetryRequest_gemini_body_witness :
  ∃ sent,
    createRetryRequest unmarshalMap Codec.Marshal "gemini"
      (ReshapeStreamReqBody unmarshalMap Codec.Marshal) None echo
      helloBody "Once upon"
    = Some (inl (mkResp [sent] false []))
    ∧ Codec.Marshal
        (injectSystemPrompt
           (buildRetryRequestBody (decoded helloBody) "Once upon" "gemini"))
      = Some sent.
Proof.
  destruct (Codec.Marshal
              (injectSystemPrompt
                 (buildRetryRequestBody (decoded helloBody) "Once upon" "gemini")))
    as [sent|] eqn:Hsent; [|vm_compute in Hsent; discriminate].
  exists sent. split; [|reflexivity].
  destruct (createRetryRequest_gemini_body unmarshalMap Codec.Marshal echo
              helloBody "Once upon"
              (default "" (Codec.Marshal
                 (buildRetryRequestBody (decoded helloBody) "Once upon" "gemini")))
              sent (Some (decoded helloBody)))
    as [Hrun _].
  - vm_compute. reflexivity.
  - vm_compute. reflexivity.
  - vm_compute. reflexivity.
  - exact Hsent.
  - exact Hrun.
Defined.
